(** * cherrypy/client.go: the request builder and the request executor

    A shallow embedding of package [cherrypy] (file [cherrypy/client.go]) and
    of the parts of the Go standard library it calls: [io], [io/ioutil],
    [encoding/json] (with [strconv] and [encoding/base64] under it),
    [net/url] and [net/http].

    Conventions.
    - A Go [string] used as text (addresses, header names, status lines) is a
      [string]; a Go [[]byte], the contents of a [bytes.Buffer] and the bytes
      of a JSON value are [list byte].
    - A Go [int] is a [Z]; the code only compares and copies them.  A Go
      float is the [Z] of its bits.
    - The package under verification sits at top level and keeps the names
      of the source; the library models sit in modules named after their
      packages ([io], [utf8], [strconv], [base64], [json], [context],
      [url], [http]).
    - A function that can panic returns an [Exit]; mutable objects (the
      response body, the decode target, the process-wide logger) are passed
      in and handed back explicitly. *)

From Stdlib Require Import ZArith NArith List Lia.
From Stdlib Require Import Strings.Byte Strings.String Strings.Ascii.
From Stdlib Require Import Init.Decimal.
From stdpp Require Import gmap strings list sorting.

Local Open Scope Z_scope.

(** ** Error values *)

(** [type RequestError struct] (client.go, lines 17-21). *)
Record RequestError := mkRequestError {
  StatusCode : Z;
  Status : string;
  Body : list byte
}.

(** [func (e *RequestError) Error() string] (client.go, lines 23-25). *)
Definition Error (e : RequestError) : string :=
  "HTTP request failed: " +:+ Status e.

(** Go's [error] interface, closed over the error values that can reach this
    package: the sentinels of [io], the error types of [encoding/json],
    [net/url] and [net/http] that the calls below raise by themselves, the
    package's own [*RequestError], and [errorString] for every other error
    value (transport failures, errors of a caller's writer or of a caller's
    marshalling code, ...).  An error whose message is formatted from its
    parts is kept as the parts: a [json.SyntaxError] for an invalid byte as
    the byte, the context and the offset ([SyntaxErrorEOF] is the one for an
    unexpected end of the input); [InvalidNumberLiteral], [InvalidPort] and
    [InvalidMethod] as the number, the port and the method their messages
    quote. *)
Inductive error : Type :=
| EOF
| ErrUnexpectedEOF
| ErrShortWrite
| errInvalidWrite
| SyntaxError (c : byte) (context : string) (Offset : Z)
| SyntaxErrorEOF (Offset : Z)
| UnsupportedTypeError (kind : string)
| UnsupportedValueError (str : string)
| InvalidNumberLiteral (numStr : list byte)
| MarshalerError (Type_ : string) (Err : error) (sourceFunc : string)
| URLError (Op URL : string) (Err : error)
| EscapeError (s : string)
| InvalidHostError (s : string)
| InvalidPort (port : string)
| InvalidMethod (method : string)
| ErrRequest (e : RequestError)
| errorString (s : string).

(** [err == io.EOF] on interface values. *)
Definition is_EOF (e : error) : bool :=
  match e with EOF => true | _ => false end.

(** How a call ends: it returns, or it panics with a value. *)
Inductive Exit (A : Type) : Type :=
| Returns (a : A)
| Panics (v : string).
Arguments Returns {A} a.
Arguments Panics {A} v.

(** ** Package io *)
Module io.

(** An [io.ReadCloser] such as [resp.Body], as the script of what its
    [Read] calls deliver: every element of [pending] is the bytes of one
    [Read] that returns a nil error, and when [pending] is exhausted [Read]
    returns [0, fin] ([fin] is [EOF] for a body that ends cleanly, any
    other error for a body that breaks off).  A [Read] that returns bytes
    together with an error is the same, to the three consumers below, as
    one that returns the bytes and a next one that returns the error. *)
Record ReadCloser := mkReadCloser {
  pending : list (list byte);
  fin : error;
  closed : bool
}.

Definition contents (r : ReadCloser) : list byte := concat (pending r).

(** [Close]: the error it returns is dropped by the only caller. *)
Definition Close (r : ReadCloser) : ReadCloser :=
  {| pending := pending r; fin := fin r; closed := true |}.

Definition advance (r : ReadCloser) (rest : list (list byte)) : ReadCloser :=
  {| pending := rest; fin := fin r; closed := closed r |}.

(** An [io.Writer]: the bytes it has taken so far and how it answers a
    [Write], given those bytes and the slice offered: it reports [n] bytes
    written and an error or nil, or it panics. *)
Inductive WriteReply : Type :=
| Wrote (n : Z) (err : option error)
| WritePanics (v : string).

Record Writer := mkWriter {
  held : list byte;
  respond : list byte -> list byte -> WriteReply
}.

Definition Write (w : Writer) (p : list byte)
  : Exit (Writer * Z * option error) :=
  match respond w (held w) p with
  | Wrote n err =>
      Returns ({| held := held w ++ take (Z.to_nat n) p;
                  respond := respond w |}, n, err)
  | WritePanics v => Panics v
  end.

(** [ioutil.ReadAll] / [io.ReadAll]:
    [for { n, err := r.Read(..); b = b[:len(b)+n];
           if err != nil { if err == EOF { err = nil }; return b, err } }] *)
Fixpoint ReadAll_loop (b : list byte) (reads : list (list byte)) (fin : error)
  : list byte * option error :=
  match reads with
  | [] => (b, if is_EOF fin then None else Some fin)
  | chunk :: reads' => ReadAll_loop (b ++ chunk) reads' fin
  end.

Definition ReadAll (r : ReadCloser) : (list byte * option error) * ReadCloser :=
  (ReadAll_loop [] (pending r) (fin r), advance r []).

(** [io.Copy] through [copyBuffer]: read a chunk, write it, stop at the
    first write error, short write or read error; [EOF] is not an error.
    The third component is what is left unread in the source. *)
Fixpoint copyBuffer (dst : Writer) (reads : list (list byte)) (fin : error)
    (written : Z) : Exit (Z * option error) * Writer * list (list byte) :=
  match reads with
  | [] => (Returns (written, if is_EOF fin then None else Some fin), dst, [])
  | chunk :: reads' =>
      let nr := Z.of_nat (length chunk) in
      if 0 <? nr then
        match Write dst chunk with
        | Panics v => (Panics v, dst, reads')
        | Returns (dst', nw, ew) =>
            let invalid := (nw <? 0) || (nr <? nw) in
            let nw' := if invalid then 0 else nw in
            let ew' := if invalid
                       then Some (default errInvalidWrite ew) else ew in
            match ew' with
            | Some e => (Returns (written + nw', Some e), dst', reads')
            | None =>
                if nr =? nw'
                then copyBuffer dst' reads' fin (written + nw')
                else (Returns (written + nw', Some ErrShortWrite), dst', reads')
            end
        end
      else copyBuffer dst reads' fin written
  end.

Definition Copy (dst : Writer) (src : ReadCloser)
  : Exit (Z * option error) * Writer * ReadCloser :=
  let '(r, dst', rest) := copyBuffer dst (pending src) (fin src) 0 in
  (r, dst', advance src rest).

End io.

(** [[]byte(s)] for a string constant. *)
Definition bytes (s : string) : list byte := list_byte_of_string s.

(** ** Package unicode/utf8 *)
Module utf8.

Local Open Scope N_scope.

Definition RuneSelf : N := 0x80.
Definition RuneError : N := 0xFFFD.

(** The table [first]: [AS] for an ASCII byte, [XX] for a byte that cannot
    start a rune, otherwise the size of the rune and the range accepted for
    its second byte ([acceptRanges]). *)
Inductive firstInfo : Type :=
| AS
| XX
| Lead (size : nat) (lo hi : N).

Definition first (s0 : N) : firstInfo :=
  if s0 <? 0x80 then AS
  else if s0 <? 0xC2 then XX
  else if s0 <? 0xE0 then Lead 2 0x80 0xBF
  else if s0 =? 0xE0 then Lead 3 0xA0 0xBF
  else if s0 <? 0xED then Lead 3 0x80 0xBF
  else if s0 =? 0xED then Lead 3 0x80 0x9F
  else if s0 <? 0xF0 then Lead 3 0x80 0xBF
  else if s0 =? 0xF0 then Lead 4 0x90 0xBF
  else if s0 <? 0xF4 then Lead 4 0x80 0xBF
  else if s0 =? 0xF4 then Lead 4 0x80 0x8F
  else XX.

Definition outside (lo hi b : N) : bool := (b <? lo) || (hi <? b).

(** [utf8.DecodeRuneInString]: the rune at the head of [s] and its width;
    [(RuneError, 1)] for an invalid or truncated encoding. *)
Definition DecodeRuneInString (s : list byte) : N * nat :=
  match s with
  | [] => (RuneError, 0%nat)
  | b0 :: s' =>
      let s0 := Byte.to_N b0 in
      match first s0 with
      | AS => (s0, 1%nat)
      | XX => (RuneError, 1%nat)
      | Lead sz lo hi =>
          if (length s <? sz)%nat then (RuneError, 1%nat) else
          match s' with
          | [] => (RuneError, 1%nat)
          | b1 :: s'' =>
              let s1 := Byte.to_N b1 in
              if outside lo hi s1 then (RuneError, 1%nat) else
              if (sz <=? 2)%nat
              then (N.lor (N.shiftl (N.land s0 0x1F) 6) (N.land s1 0x3F), 2%nat)
              else
              match s'' with
              | [] => (RuneError, 1%nat)
              | b2 :: s''' =>
                  let s2 := Byte.to_N b2 in
                  if outside 0x80 0xBF s2 then (RuneError, 1%nat) else
                  if (sz <=? 3)%nat
                  then (N.lor (N.lor (N.shiftl (N.land s0 0x0F) 12)
                                     (N.shiftl (N.land s1 0x3F) 6))
                              (N.land s2 0x3F), 3%nat)
                  else
                  match s''' with
                  | [] => (RuneError, 1%nat)
                  | b3 :: _ =>
                      let s3 := Byte.to_N b3 in
                      if outside 0x80 0xBF s3 then (RuneError, 1%nat) else
                      (N.lor (N.lor (N.lor (N.shiftl (N.land s0 0x07) 18)
                                           (N.shiftl (N.land s1 0x3F) 12))
                                    (N.shiftl (N.land s2 0x3F) 6))
                             (N.land s3 0x3F), 4%nat)
                  end
              end
          end
      end
  end.

End utf8.

(** ** Package encoding/json: the encoder *)
(** ** Package strconv *)
Module strconv.

(** The decimal digits of a number, most significant first. *)
Fixpoint digits (u : Decimal.uint) : list byte :=
  match u with
  | Decimal.Nil => []
  | Decimal.D0 u' => "0"%byte :: digits u'
  | Decimal.D1 u' => "1"%byte :: digits u'
  | Decimal.D2 u' => "2"%byte :: digits u'
  | Decimal.D3 u' => "3"%byte :: digits u'
  | Decimal.D4 u' => "4"%byte :: digits u'
  | Decimal.D5 u' => "5"%byte :: digits u'
  | Decimal.D6 u' => "6"%byte :: digits u'
  | Decimal.D7 u' => "7"%byte :: digits u'
  | Decimal.D8 u' => "8"%byte :: digits u'
  | Decimal.D9 u' => "9"%byte :: digits u'
  end.

(** [strconv.AppendInt(b, i, 10)] *)
Definition AppendInt (i : Z) : list byte :=
  match Z.to_int i with
  | Decimal.Pos u => digits u
  | Decimal.Neg u => "-"%byte :: digits u
  end.

(** [type floatInfo struct] *)
Record floatInfo := mkFloatInfo {
  mantbits : Z;
  expbits : Z;
  bias : Z
}.

Definition float32info : floatInfo :=
  {| mantbits := 23; expbits := 8; bias := -127 |}.

Definition float64info : floatInfo :=
  {| mantbits := 52; expbits := 11; bias := -1023 |}.

(** What [genericFtoa] reads from the bits of a float: not a number, an
    infinity, or a sign, a mantissa and an exponent, the float being
    [mant * 2^(exp - mantbits)]. *)
Inductive parts : Type :=
| NaN
| Inf (neg : bool)
| Finite (neg : bool) (mant exp : Z).

Definition split (flt : floatInfo) (bits : Z) : parts :=
  let neg := negb (Z.shiftr bits (expbits flt + mantbits flt) =? 0) in
  let exp := Z.land (Z.shiftr bits (mantbits flt))
                    (Z.shiftl 1 (expbits flt) - 1) in
  let mant := Z.land bits (Z.shiftl 1 (mantbits flt) - 1) in
  if exp =? Z.shiftl 1 (expbits flt) - 1 then
    (* Inf, NaN *)
    if negb (mant =? 0) then NaN else Inf neg
  else if exp =? 0 then
    (* denormalized *)
    Finite neg mant (exp + 1 + bias flt)
  else
    (* add implicit top bit *)
    Finite neg (Z.lor mant (Z.shiftl 1 (mantbits flt))) (exp + bias flt).

(** [type decimalSlice struct]: the digits [d] and the place [dp] of the
    decimal point, the number being [0.d * 10^dp]. *)
Record decimalSlice := mkDecimalSlice {
  d : list byte;
  dp : Z
}.

Definition nd (digs : decimalSlice) : Z := Z.of_nat (length (d digs)).

(** The search for the shortest decimal that reads back as the same float.
    The float is [num / den]; every number between [lower / den] and
    [upper / den] (the two included when [inclusive]) reads back as it.
    For a place [k], counted down from [k], the candidates are the float
    cut off at that place, [q * 10^k], and the next number up at that
    place.  The first place that has a candidate in range ends the search:
    it takes the candidate that is in range, and the nearer of the two (the
    even one at a tie) when both are. *)
Fixpoint shortest (num lower upper den : Z) (inclusive : bool)
    (fuel : nat) (k : Z) : Z * Z :=
  let a := den * 10 ^ Z.max k 0 in
  let b := 10 ^ Z.max (- k) 0 in
  let q := num * b / a in
  let r := num * b mod a in
  match fuel with
  | O => (q, k)
  | S fuel' =>
      let okdown :=
        if inclusive then lower * b <=? q * a else lower * b <? q * a in
      let okup :=
        if inclusive then (q + 1) * a <=? upper * b
        else (q + 1) * a <? upper * b in
      if okdown && okup then
        (if (a <? 2 * r) || ((2 * r =? a) && Z.odd q) then q + 1 else q, k)
      else if okdown then (q, k)
      else if okup then (q + 1, k)
      else shortest num lower upper den inclusive fuel' (k - 1)
  end.

(** Digits without the zeros at their end. *)
Fixpoint trim (digs : list byte) : list byte :=
  match digs with
  | [] => []
  | c :: digs' =>
      match trim digs' with
      | [] => if Byte.eqb c "0" then [] else [c]
      | rest => c :: rest
      end
  end.

(** [roundShortest]: the shortest digits of the float [mant * 2^(exp -
    mantbits)].  The bounds are halfway to the next float above and to the
    next float below, which is nearer when the mantissa is the least of its
    exponent; they are counted here, like the float, in quarters of the
    unit of the mantissa. *)
Definition roundShortest (flt : floatInfo) (mant exp : Z) : decimalSlice :=
  if mant =? 0 then {| d := []; dp := 0 |} else
  let minexp := bias flt + 1 in
  let upper := 4 * mant + 2 in
  let lower :=
    if (Z.shiftl 1 (mantbits flt) <? mant) || (exp =? minexp)
    then 4 * mant - 2 else 4 * mant - 1 in
  let inclusive := mant mod 2 =? 0 in
  let e2 := exp - mantbits flt - 2 in
  let scale := 2 ^ Z.max e2 0 in
  let den := 2 ^ Z.max (- e2) 0 in
  let k0 := Z.of_nat (length (digits (N.to_uint (Z.to_N (upper * scale / den))))) in
  let fuel := Z.to_nat (k0 + Z.max (- e2) 0 + 1) in
  let '(n, k) := shortest (4 * mant * scale) (lower * scale) (upper * scale)
                   den inclusive fuel k0 in
  let digs := digits (N.to_uint (Z.to_N n)) in
  {| d := trim digs; dp := Z.of_nat (length digs) + k |}.

Definition digit (n : Z) : byte :=
  nth (Z.to_nat n) (bytes "0123456789") "0"%byte.

(** [%e]: [-d.dddde±dd] *)
Definition fmtE (neg : bool) (digs : decimalSlice) (prec : Z) : list byte :=
  let m := Z.min (nd digs) (prec + 1) in
  let exp := if nd digs =? 0 then 0 else dp digs - 1 in
  (if neg then bytes "-" else [])
  ++ [match d digs with c :: _ => c | [] => "0"%byte end]
  ++ (if 0 <? prec
      then bytes "." ++ take (Z.to_nat m - 1) (drop 1 (d digs))
           ++ replicate (Z.to_nat (prec + 1 - Z.max 1 m)) "0"%byte
      else [])
  ++ bytes "e"
  ++ (if exp <? 0 then bytes "-" else bytes "+")
  ++ (let exp := Z.abs exp in
      if exp <? 10 then ["0"%byte; digit exp]
      else if exp <? 100 then [digit (exp / 10); digit (exp mod 10)]
      else [digit (exp / 100); digit ((exp / 10) mod 10); digit (exp mod 10)]).

(** [%f]: [-ddddddd.ddddd] *)
Definition fmtF (neg : bool) (digs : decimalSlice) (prec : Z) : list byte :=
  (if neg then bytes "-" else [])
  ++ (if 0 <? dp digs
      then
        let m := Z.min (nd digs) (dp digs) in
        take (Z.to_nat m) (d digs)
        ++ replicate (Z.to_nat (dp digs - m)) "0"%byte
      else bytes "0")
  ++ (if 0 <? prec
      then bytes "."
           ++ map (fun i : nat =>
                     let j := dp digs + Z.of_nat i in
                     if (0 <=? j) && (j <? nd digs)
                     then nth (Z.to_nat j) (d digs) "0"%byte
                     else "0"%byte)
                  (seq 0 (Z.to_nat prec))
      else []).

(** [strconv.AppendFloat(b, f, fmt, -1, bitSize)] for [fmt] one of [e] and
    [f] and [f] the float of the size of [flt] that has the bits [bits]:
    the shortest digits that read back as the same float, in the format
    asked for. *)
Definition AppendFloat (flt : floatInfo) (bits : Z) (fmt : byte) : list byte :=
  match split flt bits with
  | NaN => bytes "NaN"
  | Inf neg => if neg then bytes "-Inf" else bytes "+Inf"
  | Finite neg mant exp =>
      let digs := roundShortest flt mant exp in
      if Byte.eqb fmt "e"
      then fmtE neg digs (Z.max (nd digs - 1) 0)
      else fmtF neg digs (Z.max (nd digs - dp digs) 0)
  end.

End strconv.

(** ** Package encoding/base64 *)
Module base64.

(** [const encodeStd] *)
Definition encodeStd : list byte :=
  bytes "ABCDEFGHIJKLMNOPQRSTUVWXYZabcdefghijklmnopqrstuvwxyz0123456789+/".

(** [enc.encode[val&0x3F]] *)
Definition encode (val : N) : byte :=
  nth (N.to_nat (N.land val 0x3F)) encodeStd "A"%byte.

(** [StdEncoding.Encode]: four bytes for every three of the source, the
    last group padded with the equals sign. *)
Fixpoint Encode (src : list byte) : list byte :=
  match src with
  | [] => []
  | [s0] =>
      let val := N.shiftl (Byte.to_N s0) 16 in
      [encode (N.shiftr val 18); encode (N.shiftr val 12); "="%byte; "="%byte]
  | [s0; s1] =>
      let val := N.lor (N.shiftl (Byte.to_N s0) 16)
                       (N.shiftl (Byte.to_N s1) 8) in
      [encode (N.shiftr val 18); encode (N.shiftr val 12);
       encode (N.shiftr val 6); "="%byte]
  | s0 :: s1 :: s2 :: src' =>
      let val := N.lor (N.lor (N.shiftl (Byte.to_N s0) 16)
                              (N.shiftl (Byte.to_N s1) 8))
                       (Byte.to_N s2) in
      [encode (N.shiftr val 18); encode (N.shiftr val 12);
       encode (N.shiftr val 6); encode val] ++ Encode src'
  end.

End base64.

(** ** Package encoding/json *)
Module json.

(** [reflect.Float32] and [reflect.Float64] *)
Inductive floatKind : Type := Float32 | Float64.

(** The Go values the encoder is given, as reflection sees them (pointers
    and interfaces followed to what they hold; a nil pointer, map or slice
    is [VNull]; an unsigned integer is a [VInt]; an array is a [VSlice]).
    A float is the bits [math.Float32bits] or [math.Float64bits] gives for
    it; a [json.Number] is the string it is.  A struct is the list of its
    encoded fields, each under its JSON name, in declaration order (a field
    that [omitempty] leaves out is not in the list; a field with the
    [string] option is a [VQuoted]); a map is the list of its entries, each
    under the string its key resolves to, in any order.  A value of a type
    that implements [json.Marshaler] or [encoding.TextMarshaler] is the
    name of the type with what its method returns: the method is the
    caller's code.  [VUnsupported] is a channel, a function or a complex
    number.  A value that contains itself is not among these. *)
#[warnings="-register-all"]
Inductive value : Type :=
| VNull
| VBool (b : bool)
| VInt (i : Z)
| VFloat (bitSize : floatKind) (bits : Z)
| VNumber (s : list byte)
| VString (s : list byte)
| VBytes (s : list byte)
| VSlice (elems : list value)
| VMap (entries : list (list byte * value))
| VStruct (fields : list (list byte * value))
| VQuoted (v : value)
| VMarshaler (type : string) (MarshalJSON : error + list byte)
| VTextMarshaler (type : string) (MarshalText : error + list byte)
| VUnsupported (kind : string).

(** [const hex = "0123456789abcdef"] *)
Definition hex (n : N) : byte :=
  nth (N.to_nat n) (bytes "0123456789abcdef") "0"%byte.

(** [safeSet]: the ASCII bytes that need no escape in a JSON string, all
    from space to DEL but the double quote and the backslash;
    [htmlSafeSet]: the same without the less-than sign, the greater-than
    sign and the ampersand. *)
Definition safeSet (b : byte) : bool :=
  let n := Byte.to_N b in
  (32 <=? n)%N && (n <? 128)%N && negb (Byte.eqb b x22) && negb (Byte.eqb b x5c).

Definition htmlSafeSet (b : byte) : bool :=
  safeSet b && negb (Byte.eqb b x3c) && negb (Byte.eqb b x3e)
            && negb (Byte.eqb b x26).

(** The [switch b] of the string encoder, for an ASCII byte that is not in
    the applicable safe set (as in the releases that still ship
    [io/ioutil] undeprecated: backspace and form feed take the six-byte
    form). *)
Definition escapeByte (b : byte) : list byte :=
  match b with
  | x5c | x22 => [x5c; b]
  | x0a => [x5c; "n"%byte]
  | x0d => [x5c; "r"%byte]
  | x09 => [x5c; "t"%byte]
  | _ => [x5c; "u"%byte; "0"%byte; "0"%byte;
          hex (N.shiftr (Byte.to_N b) 4); hex (N.land (Byte.to_N b) 0xF)]
  end.

(** The loop of [encodeState.string]: [skip] counts the bytes still to be
    stepped over of a rune that has been handled whole ([i += size]). *)
Fixpoint string_loop (escapeHTML : bool) (skip : nat) (src : list byte)
  : list byte :=
  match src with
  | [] => []
  | b :: rest =>
      match skip with
      | S k => string_loop escapeHTML k rest
      | O =>
          if (Byte.to_N b <? utf8.RuneSelf)%N then
            (if htmlSafeSet b || (negb escapeHTML && safeSet b)
             then [b] else escapeByte b)
            ++ string_loop escapeHTML 0 rest
          else
            let '(c, size) := utf8.DecodeRuneInString src in
            if (c =? utf8.RuneError)%N && (size =? 1)%nat then
              x5c :: bytes "ufffd" ++ string_loop escapeHTML 0 rest
            else if (c =? 0x2028)%N || (c =? 0x2029)%N then
              x5c :: bytes "u202" ++ [hex (N.land c 0xF)]
              ++ string_loop escapeHTML (size - 1) rest
            else
              take size src ++ string_loop escapeHTML (size - 1) rest
      end
  end.

Definition appendString (escapeHTML : bool) (s : list byte) : list byte :=
  [x22] ++ string_loop escapeHTML 0 s ++ [x22].

(** *** The scanner *)

(** scanner.go: the codes a scanner step reports. *)
Inductive scanCode : Type :=
| scanContinue | scanBeginLiteral | scanBeginObject | scanObjectKey
| scanObjectValue | scanEndObject | scanBeginArray | scanArrayValue
| scanEndArray | scanSkipSpace | scanEnd | scanError.

Inductive parseKind : Type :=
| parseObjectKey | parseObjectValue | parseArrayValue.

(** The step functions of the scanner, by name. *)
Inductive stepFn : Type :=
| BeginValueOrEmpty | BeginValue | BeginStringOrEmpty | BeginString
| EndValue | EndTop
| InString | InStringEsc | InStringEscU | InStringEscU1 | InStringEscU12
| InStringEscU123
| Neg | Num1 | Num0 | Dot | Dot0 | Exp | ESign | E0
| LitT | LitTr | LitTru | LitF | LitFa | LitFal | LitFals
| LitN | LitNu | LitNul
| StepError.

(** [type scanner struct]; the top of [parseState] is the head of the
    list. *)
Record scanner := mkScanner {
  step : stepFn;
  endTop : bool;
  parseState : list parseKind;
  err : option error;
  scanned : Z
}.

Definition maxNestingDepth : N := 10000.

Definition reset : scanner :=
  {| step := BeginValue; endTop := false; parseState := []; err := None;
     scanned := 0 |}.

Definition goto (s : scanner) (f : stepFn) : scanner :=
  {| step := f; endTop := endTop s; parseState := parseState s;
     err := err s; scanned := scanned s |}.

Definition with_parseState (s : scanner) (ps : list parseKind) : scanner :=
  {| step := step s; endTop := endTop s; parseState := ps;
     err := err s; scanned := scanned s |}.

(** [scanner.error] *)
Definition fail (s : scanner) (c : byte) (context : string)
  : scanner * scanCode :=
  ({| step := StepError; endTop := endTop s; parseState := parseState s;
      err := Some (SyntaxError c context (scanned s));
      scanned := scanned s |}, scanError).

Definition pushParseState (s : scanner) (c : byte) (newParseState : parseKind)
    (successState : scanCode) : scanner * scanCode :=
  let s' := with_parseState s (newParseState :: parseState s) in
  if (N.of_nat (length (parseState s')) <=? maxNestingDepth)%N
  then (s', successState)
  else fail s' c "exceeded max depth".

Definition popParseState (s : scanner) : scanner :=
  let ps := tail (parseState s) in
  match ps with
  | [] => {| step := EndTop; endTop := true; parseState := ps;
             err := err s; scanned := scanned s |}
  | _ :: _ => goto (with_parseState s ps) EndValue
  end.

Definition isSpace (c : byte) : bool :=
  match c with
  | " "%byte | x09 | x0d | x0a => true
  | _ => false
  end.

Definition isDigit (lo : N) (c : byte) : bool :=
  (lo <=? Byte.to_N c)%N && (Byte.to_N c <=? 57)%N.

Definition isHex (c : byte) : bool :=
  let n := Byte.to_N c in
  ((48 <=? n) && (n <=? 57) || (97 <=? n) && (n <=? 102)
   || (65 <=? n) && (n <=? 70))%N.

Definition stateEndTop (s : scanner) (c : byte) : scanner * scanCode :=
  if negb (isSpace c)
  then (fst (fail s c "after top-level value"), scanEnd)
  else (s, scanEnd).

Definition stateEndValue (s : scanner) (c : byte) : scanner * scanCode :=
  match parseState s with
  | [] =>
      stateEndTop {| step := EndTop; endTop := true; parseState := [];
                     err := err s; scanned := scanned s |} c
  | ps :: below =>
      if isSpace c then (goto s EndValue, scanSkipSpace) else
      match ps with
      | parseObjectKey =>
          if Byte.eqb c ":"
          then (goto (with_parseState s (parseObjectValue :: below)) BeginValue,
                scanObjectKey)
          else fail s c "after object key"
      | parseObjectValue =>
          if Byte.eqb c ","
          then (goto (with_parseState s (parseObjectKey :: below)) BeginString,
                scanObjectValue)
          else if Byte.eqb c "}"
          then (popParseState s, scanEndObject)
          else fail s c "after object key:value pair"
      | parseArrayValue =>
          if Byte.eqb c ","
          then (goto s BeginValue, scanArrayValue)
          else if Byte.eqb c "]"
          then (popParseState s, scanEndArray)
          else fail s c "after array element"
      end
  end.

Definition stateBeginString (s : scanner) (c : byte) : scanner * scanCode :=
  if isSpace c then (s, scanSkipSpace)
  else if Byte.eqb c x22 then (goto s InString, scanBeginLiteral)
  else fail s c "looking for beginning of object key string".

Definition stateBeginValue (s : scanner) (c : byte) : scanner * scanCode :=
  if isSpace c then (s, scanSkipSpace) else
  match c with
  | "{"%byte => pushParseState (goto s BeginStringOrEmpty) c parseObjectKey
                               scanBeginObject
  | "["%byte => pushParseState (goto s BeginValueOrEmpty) c parseArrayValue
                               scanBeginArray
  | x22 => (goto s InString, scanBeginLiteral)
  | "-"%byte => (goto s Neg, scanBeginLiteral)
  | "0"%byte => (goto s Num0, scanBeginLiteral)
  | "t"%byte => (goto s LitT, scanBeginLiteral)
  | "f"%byte => (goto s LitF, scanBeginLiteral)
  | "n"%byte => (goto s LitN, scanBeginLiteral)
  | _ =>
      if isDigit 49 c then (goto s Num1, scanBeginLiteral)
      else fail s c "looking for beginning of value"
  end.

Definition stateBeginValueOrEmpty (s : scanner) (c : byte)
  : scanner * scanCode :=
  if isSpace c then (s, scanSkipSpace)
  else if Byte.eqb c "]" then stateEndValue s c
  else stateBeginValue s c.

Definition stateBeginStringOrEmpty (s : scanner) (c : byte)
  : scanner * scanCode :=
  if isSpace c then (s, scanSkipSpace)
  else if Byte.eqb c "}"
  then stateEndValue
         (with_parseState s (match parseState s with
                             | _ :: below => parseObjectValue :: below
                             | [] => []
                             end)) c
  else stateBeginString s c.

Definition stateInString (s : scanner) (c : byte) : scanner * scanCode :=
  if Byte.eqb c x22 then (goto s EndValue, scanContinue)
  else if Byte.eqb c x5c then (goto s InStringEsc, scanContinue)
  else if (Byte.to_N c <? 0x20)%N then fail s c "in string literal"
  else (s, scanContinue).

Definition stateInStringEsc (s : scanner) (c : byte) : scanner * scanCode :=
  match c with
  | "b"%byte | "f"%byte | "n"%byte | "r"%byte | "t"%byte | x5c | "/"%byte
  | x22 => (goto s InString, scanContinue)
  | "u"%byte => (goto s InStringEscU, scanContinue)
  | _ => fail s c "in string escape code"
  end.

(** [stateInStringEscU], [..U1], [..U12], [..U123]: one hexadecimal digit
    each, then on to [next]. *)
Definition stateInStringEscHex (next : stepFn) (s : scanner) (c : byte)
  : scanner * scanCode :=
  if isHex c then (goto s next, scanContinue)
  else fail s c "in \u hexadecimal character escape".

Definition state0 (s : scanner) (c : byte) : scanner * scanCode :=
  if Byte.eqb c "." then (goto s Dot, scanContinue)
  else if Byte.eqb c "e" || Byte.eqb c "E" then (goto s Exp, scanContinue)
  else stateEndValue s c.

Definition state1 (s : scanner) (c : byte) : scanner * scanCode :=
  if isDigit 48 c then (goto s Num1, scanContinue)
  else state0 s c.

Definition stateNeg (s : scanner) (c : byte) : scanner * scanCode :=
  if Byte.eqb c "0" then (goto s Num0, scanContinue)
  else if isDigit 49 c then (goto s Num1, scanContinue)
  else fail s c "in numeric literal".

Definition stateDot (s : scanner) (c : byte) : scanner * scanCode :=
  if isDigit 48 c then (goto s Dot0, scanContinue)
  else fail s c "after decimal point in numeric literal".

Definition stateDot0 (s : scanner) (c : byte) : scanner * scanCode :=
  if isDigit 48 c then (s, scanContinue)
  else if Byte.eqb c "e" || Byte.eqb c "E" then (goto s Exp, scanContinue)
  else stateEndValue s c.

Definition stateESign (s : scanner) (c : byte) : scanner * scanCode :=
  if isDigit 48 c then (goto s E0, scanContinue)
  else fail s c "in exponent of numeric literal".

Definition stateE (s : scanner) (c : byte) : scanner * scanCode :=
  if Byte.eqb c "+" || Byte.eqb c "-" then (goto s ESign, scanContinue)
  else stateESign s c.

Definition stateE0 (s : scanner) (c : byte) : scanner * scanCode :=
  if isDigit 48 c then (s, scanContinue)
  else stateEndValue s c.

(** [stateT], [stateTr], ..., [stateNul]: the next letter of [true],
    [false] or [null]. *)
Definition stateLit (want : byte) (next : stepFn) (context : string)
    (s : scanner) (c : byte) : scanner * scanCode :=
  if Byte.eqb c want then (goto s next, scanContinue)
  else fail s c context.

(** [s.step(s, c)] *)
Definition run (s : scanner) (c : byte) : scanner * scanCode :=
  match step s with
  | BeginValueOrEmpty => stateBeginValueOrEmpty s c
  | BeginValue => stateBeginValue s c
  | BeginStringOrEmpty => stateBeginStringOrEmpty s c
  | BeginString => stateBeginString s c
  | EndValue => stateEndValue s c
  | EndTop => stateEndTop s c
  | InString => stateInString s c
  | InStringEsc => stateInStringEsc s c
  | InStringEscU => stateInStringEscHex InStringEscU1 s c
  | InStringEscU1 => stateInStringEscHex InStringEscU12 s c
  | InStringEscU12 => stateInStringEscHex InStringEscU123 s c
  | InStringEscU123 => stateInStringEscHex InString s c
  | Neg => stateNeg s c
  | Num1 => state1 s c
  | Num0 => state0 s c
  | Dot => stateDot s c
  | Dot0 => stateDot0 s c
  | Exp => stateE s c
  | ESign => stateESign s c
  | E0 => stateE0 s c
  | LitT => stateLit "r" LitTr "in literal true (expecting 'r')" s c
  | LitTr => stateLit "u" LitTru "in literal true (expecting 'u')" s c
  | LitTru => stateLit "e" EndValue "in literal true (expecting 'e')" s c
  | LitF => stateLit "a" LitFa "in literal false (expecting 'a')" s c
  | LitFa => stateLit "l" LitFal "in literal false (expecting 'l')" s c
  | LitFal => stateLit "s" LitFals "in literal false (expecting 's')" s c
  | LitFals => stateLit "e" EndValue "in literal false (expecting 'e')" s c
  | LitN => stateLit "u" LitNu "in literal null (expecting 'u')" s c
  | LitNu => stateLit "l" LitNul "in literal null (expecting 'l')" s c
  | LitNul => stateLit "l" EndValue "in literal null (expecting 'l')" s c
  | StepError => (s, scanError)
  end.

(** *** The encoder *)

(** [arrayEncoder.encode]: the elements, a comma before each but the
    first; [encode] is the encoder of the elements. *)
Definition array (encode : value -> error + list byte)
  : nat -> list value -> error + list byte :=
  fix array (i : nat) (l : list value) : error + list byte :=
    match l with
    | [] => inr []
    | x :: l' =>
        match encode x with
        | inl e => inl e
        | inr jx =>
            match array (S i) l' with
            | inl e => inl e
            | inr jl =>
                inr ((if (0 <? i)%nat then bytes "," else []) ++ jx ++ jl)
            end
        end
    end.

(** [structEncoder.encode]: the fields, each as its quoted name, a colon
    and its value, a comma before each but the first. *)
Definition object (escapeHTML : bool) (encode : value -> error + list byte)
  : nat -> list (list byte * value) -> error + list byte :=
  fix object (i : nat) (l : list (list byte * value)) : error + list byte :=
    match l with
    | [] => inr []
    | (name, x) :: l' =>
        match encode x with
        | inl e => inl e
        | inr jx =>
            match object (S i) l' with
            | inl e => inl e
            | inr jl =>
                inr ((if (0 <? i)%nat then bytes "," else [])
                     ++ appendString escapeHTML name ++ bytes ":"
                     ++ jx ++ jl)
            end
        end
    end.

(** [sv[i].ks < sv[j].ks]: the order of Go strings, byte by byte. *)
Fixpoint less (a b : list byte) : bool :=
  match a, b with
  | _, [] => false
  | [], _ :: _ => true
  | x :: a', y :: b' =>
      (Byte.to_N x <? Byte.to_N y)%N
      || ((Byte.to_N x =? Byte.to_N y)%N && less a' b')
  end.

(** The loop of [mapEncoder.encode] over the sorted entries, [sv] holding
    for each key what encoding its value gives: each key as a string, a
    colon and the value, a comma before each but the first, up to the first
    value that fails. *)
Fixpoint members (escapeHTML : bool) (i : nat)
    (sv : list (list byte * (error + list byte))) : error + list byte :=
  match sv with
  | [] => inr []
  | (ks, inl e) :: _ => inl e
  | (ks, inr jx) :: sv' =>
      match members escapeHTML (S i) sv' with
      | inl e => inl e
      | inr jl =>
          inr ((if (0 <? i)%nat then bytes "," else [])
               ++ appendString escapeHTML ks ++ bytes ":" ++ jx ++ jl)
      end
  end.

(** The order [sort.Slice] puts the entries of a map in: no entry after
    one of a greater key. *)
Definition byKey {A : Type} (x y : list byte * A) : Prop :=
  less y.1 x.1 = false.

#[global] Instance byKey_dec {A : Type} : RelDecision (@byKey A) :=
  fun x y => decide (less y.1 x.1 = false).

(** [mapEncoder.encode]: the entries in the order of their keys.  Keys
    that are equal as strings keep the order they come in. *)
Definition mapEncoder (escapeHTML : bool)
    (encode : value -> error + list byte)
    (entries : list (list byte * value)) : error + list byte :=
  let sv := map (fun kv : list byte * value => (kv.1, encode kv.2)) entries in
  let sv := merge_sort byKey sv in
  members escapeHTML 0 sv.

(** [clean up e-09 to e-9]: a text that ends in [e-0] and a digit loses
    that zero. *)
Definition cleanExponent (b : list byte) : list byte :=
  match rev b with
  | last :: "0"%byte :: "-"%byte :: "e"%byte :: front =>
      rev front ++ ["e"%byte; "-"%byte; last]
  | _ => b
  end.

(** [floatEncoder.encode]: a float that is not finite is refused; another
    is written with the shortest digits that read back as the same float,
    with an exponent when it is below [1e-6] or not below [1e21].  The two
    limits are floats of the size of the value, given here by their bits:
    floats that are not negative are in the order of their bits. *)
Definition floatEncoder (bitSize : floatKind) (bits : Z) : error + list byte :=
  let flt := match bitSize with
             | Float32 => strconv.float32info
             | Float64 => strconv.float64info
             end in
  let width := strconv.expbits flt + strconv.mantbits flt + 1 in
  let bits := bits mod 2 ^ width in
  match strconv.split flt bits with
  | strconv.NaN | strconv.Inf _ =>
      inl (UnsupportedValueError
             (string_of_list_byte (strconv.AppendFloat flt bits "g")))
  | strconv.Finite _ _ _ =>
      let abs := Z.land bits (2 ^ (width - 1) - 1) in
      let '(small, large) :=
        match bitSize with
        | Float32 => (0x358637BD, 0x6258D727)
        | Float64 => (0x3EB0C6F7A0B5ED8D, 0x444B1AE4D6E2EF50)
        end in
      if negb (abs =? 0) && ((abs <? small) || (large <=? abs))
      then inr (cleanExponent (strconv.AppendFloat flt bits "e"))
      else inr (strconv.AppendFloat flt bits "f")
  end.

(** The digits a string begins with, taken off. *)
Fixpoint skipDigits (s : list byte) : list byte :=
  match s with
  | c :: s' => if isDigit 48 c then skipDigits s' else s
  | [] => []
  end.

(** [isValidNumber], the grammar of JSON numbers, in its steps.
    [. followed by 1 or more digits]: what is left after it. *)
Definition fraction (s : list byte) : list byte :=
  match s with
  | "."%byte :: d :: s' => if isDigit 48 d then skipDigits s' else s
  | _ => s
  end.

(** [e or E followed by an optional - or + and 1 or more digits], and
    [Make sure we are at the end]. *)
Definition exponent (s : list byte) : bool :=
  match s with
  | [] => true
  | e :: c :: s' =>
      if Byte.eqb e "e" || Byte.eqb e "E" then
        if Byte.eqb c "+" || Byte.eqb c "-" then
          match s' with
          | [] => false
          | _ => match skipDigits s' with [] => true | _ => false end
          end
        else match skipDigits (c :: s') with [] => true | _ => false end
      else false
  | _ => false
  end.

(** [Digits], and the rest. *)
Definition unsigned (s : list byte) : bool :=
  match s with
  | [] => false
  | c :: s' =>
      if Byte.eqb c "0" then exponent (fraction s')
      else if isDigit 49 c then exponent (fraction (skipDigits s'))
      else false
  end.

(** [isValidNumber]: [Optional -], then the rest. *)
Definition isValidNumber (s : list byte) : bool :=
  match s with
  | "-"%byte :: s' => unsigned s'
  | _ => unsigned s
  end.

(** [stringEncoder] for a [json.Number]: the empty string is zero, and a
    string that is not a number is refused. *)
Definition numberEncoder (s : list byte) : error + list byte :=
  let numStr := match s with [] => bytes "0" | _ => s end in
  if negb (isValidNumber numStr) then inl (InvalidNumberLiteral numStr)
  else inr numStr.

(** [scanner.eof] *)
Definition eof (s : scanner) : scanner * scanCode :=
  match err s with
  | Some _ => (s, scanError)
  | None =>
      if endTop s then (s, scanEnd) else
      let s := (run s " ").1 in
      if endTop s then (s, scanEnd) else
      match err s with
      | Some _ => (s, scanError)
      | None =>
          ({| step := step s; endTop := endTop s; parseState := parseState s;
              err := Some (SyntaxErrorEOF (scanned s));
              scanned := scanned s |}, scanError)
      end
  end.

(** [src[start:i]] *)
Definition slice (src : list byte) (start i : nat) : list byte :=
  take (i - start) (drop start src).

(** The loop of [compact], at the byte of index [i], [rest] being the
    source from there on: what has been written, from where on the source
    is still to be written, and the scanner.  The scanner steps without
    counting the bytes. *)
Fixpoint compact_loop (escape : bool) (src : list byte) (scan : scanner)
    (dst : list byte) (start i : nat) (rest : list byte)
  : scanner * list byte * nat :=
  match rest with
  | [] => (scan, dst, start)
  | c :: rest' =>
      let '(dst, start) :=
        if escape
           && (Byte.eqb c x3c || Byte.eqb c x3e || Byte.eqb c x26)
        then
          ((if (start <? i)%nat then dst ++ slice src start i else dst)
           ++ x5c :: bytes "u00"
           ++ [hex (N.shiftr (Byte.to_N c) 4); hex (N.land (Byte.to_N c) 0xF)],
           S i)
        else (dst, start) in
      (* Convert U+2028 and U+2029 (E2 80 A8 and E2 80 A9). *)
      let '(dst, start) :=
        match rest' with
        | c1 :: c2 :: _ =>
            if escape && Byte.eqb c xe2 && Byte.eqb c1 x80
               && (N.land (Byte.to_N c2) 0xFE =? 0xA8)%N
            then
              ((if (start <? i)%nat then dst ++ slice src start i else dst)
               ++ x5c :: bytes "u202" ++ [hex (N.land (Byte.to_N c2) 0xF)],
               (i + 3)%nat)
            else (dst, start)
        | _ => (dst, start)
        end in
      let '(scan, v) := run scan c in
      match v with
      | scanError => (scan, dst, start)
      | scanSkipSpace | scanEnd =>
          compact_loop escape src scan
            (if (start <? i)%nat then dst ++ slice src start i else dst)
            (S i) (S i) rest'
      | _ => compact_loop escape src scan dst start (S i) rest'
      end
  end.

(** [compact]: the JSON text [src] without its insignificant white space,
    or the error of the scanner when [src] is not one JSON value. *)
Definition compact (escape : bool) (src : list byte)
  : list byte * option error :=
  let '(scan, dst, start) := compact_loop escape src reset [] 0 0 src in
  let '(scan, v) := eof scan in
  match v with
  | scanError => ([], err scan)
  | _ =>
      (if (start <? length src)%nat then dst ++ drop start src else dst, None)
  end.

(** [marshalerEncoder]: what [MarshalJSON] has returned is copied through
    [compact], its error or the error of [compact] wrapped. *)
Definition marshalerEncoder (escapeHTML : bool) (type : string)
    (MarshalJSON : error + list byte) : error + list byte :=
  match MarshalJSON with
  | inl err => inl (MarshalerError type err "MarshalJSON")
  | inr b =>
      match compact escapeHTML b with
      | (_, Some err) => inl (MarshalerError type err "MarshalJSON")
      | (out, None) => inr out
      end
  end.

(** [textMarshalerEncoder]: what [MarshalText] has returned is written as
    a string. *)
Definition textMarshalerEncoder (escapeHTML : bool) (type : string)
    (MarshalText : error + list byte) : error + list byte :=
  match MarshalText with
  | inl err => inl (MarshalerError type err "MarshalText")
  | inr b => inr (appendString escapeHTML b)
  end.

(** [encodeState.reflectValue]: the JSON text of a value, or the error the
    encoder gives up with. *)
Fixpoint reflectValue (escapeHTML : bool) (v : value) : error + list byte :=
  match v with
  | VNull => inr (bytes "null")
  | VBool b => inr (bytes (if b then "true" else "false"))
  | VInt i => inr (strconv.AppendInt i)
  | VFloat bitSize bits => floatEncoder bitSize bits
  | VNumber s => numberEncoder s
  | VString s => inr (appendString escapeHTML s)
  | VBytes s => inr ([x22] ++ base64.Encode s ++ [x22])
  | VSlice elems =>
      match array (reflectValue escapeHTML) 0 elems with
      | inl e => inl e
      | inr body => inr (bytes "[" ++ body ++ bytes "]")
      end
  | VMap entries =>
      match mapEncoder escapeHTML (reflectValue escapeHTML) entries with
      | inl e => inl e
      | inr body => inr (bytes "{" ++ body ++ bytes "}")
      end
  | VStruct fields =>
      match object escapeHTML (reflectValue escapeHTML) 0 fields with
      | inl e => inl e
      | inr body => inr (bytes "{" ++ body ++ bytes "}")
      end
  | VQuoted x =>
      (* the string option: a boolean or a number goes between quotes, a
         string is encoded twice, and any other value is written as it
         is *)
      match x with
      | VBool _ | VInt _ | VFloat _ _ | VNumber _ =>
          match reflectValue escapeHTML x with
          | inl e => inl e
          | inr b => inr ([x22] ++ b ++ [x22])
          end
      | VString s => inr (appendString false (appendString escapeHTML s))
      | _ => reflectValue escapeHTML x
      end
  | VMarshaler type MarshalJSON =>
      marshalerEncoder escapeHTML type MarshalJSON
  | VTextMarshaler type MarshalText =>
      textMarshalerEncoder escapeHTML type MarshalText
  | VUnsupported kind => inl (UnsupportedTypeError kind)
  end.

(** [json.Marshal]: HTML escaping is on. *)
Definition Marshal (v : value) : error + list byte :=
  reflectValue true v.

(** [json.Encoder] over a [*bytes.Buffer], whose [Write] cannot fail. *)
Record Encoder := mkEncoder {
  w : list byte;
  escapeHTML : bool
}.

(** [json.NewEncoder(w)]: HTML escaping is on by default. *)
Definition NewEncoder (buf : list byte) : Encoder :=
  {| w := buf; escapeHTML := true |}.

Definition SetEscapeHTML (enc : Encoder) (on : bool) : Encoder :=
  {| w := w enc; escapeHTML := on |}.

(** [Encoder.Encode]: marshal, terminate the value with a newline, write
    it; nothing is written when marshalling fails. *)
Definition Encode (enc : Encoder) (v : value) : Encoder * option error :=
  match reflectValue (escapeHTML enc) v with
  | inl err => (enc, Some err)
  | inr b => ({| w := w enc ++ b ++ [x0a]; escapeHTML := escapeHTML enc |}, None)
  end.

(** *** The stream decoder *)

Definition nonSpace (b : list byte) : bool :=
  existsb (fun c => negb (isSpace c)) b.

(** The inner loop of [Decoder.readValue] over the bytes one refill has
    brought, [seen] being the bytes scanned before them: the value ends
    ([break Input]), the scanner reports an error
    ([return 0, dec.scan.err]), or the buffer is used up. *)
Inductive lookResult : Type :=
| ValueEnds (value : list byte)
| ScanFails (err : option error)
| NeedMore (s : scanner) (seen : list byte).

Definition count (s : scanner) : scanner :=
  {| step := step s; endTop := endTop s; parseState := parseState s;
     err := err s; scanned := scanned s + 1 |}.

Fixpoint look (s : scanner) (seen buf : list byte) : lookResult :=
  match buf with
  | [] => NeedMore s seen
  | c :: buf' =>
      let '(s1, code) := run (count s) c in
      match code with
      | scanEnd => ValueEnds seen
      | scanEndObject | scanEndArray =>
          let '(s2, code2) := stateEndValue s1 " " in
          match code2 with
          | scanEnd => ValueEnds (seen ++ [c])
          | _ => look s2 (seen ++ [c]) buf'
          end
      | scanError => ScanFails (err s1)
      | _ => look s1 (seen ++ [c]) buf'
      end
  end.

(** [Decoder.readValue] on a decoder that has read nothing yet: the bytes
    of the next value (leading white space included) and a nil error, or
    the error; then what is left unread of the source.  At the end of the
    stream a value that only the end delimits (a number, a literal) is
    complete; otherwise the error is [io.ErrUnexpectedEOF] when something
    other than white space was read and [io.EOF] when nothing was. *)
Fixpoint readValue (s : scanner) (seen : list byte)
    (reads : list (list byte)) (fin : error)
  : list byte * option error * list (list byte) :=
  match reads with
  | [] =>
      if is_EOF fin then
        match snd (run s " ") with
        | scanEnd => (seen, None, [])
        | _ => ([], Some (if nonSpace seen then ErrUnexpectedEOF else EOF), [])
        end
      else ([], Some fin, [])
  | chunk :: reads' =>
      match look s seen chunk with
      | ValueEnds value => (value, None, reads')
      | ScanFails e => ([], e, reads')
      | NeedMore s' seen' => readValue s' seen' reads' fin
      end
  end.

(** What [decodeState.unmarshal] does to a destination of Go type [T] is
    directed by that type through reflection, and by the type's own
    [UnmarshalJSON] when it has one: it is the destination's part, a
    function of the bytes of the value and of what the destination holds.
    It stores (possibly partially) and returns an error or nil, or it
    panics. *)
Inductive Unmarshalled (T : Type) : Type :=
| Stored (t : T) (err : option error)
| UnmarshalPanics (t : T) (v : string).
Arguments Stored {T} t err.
Arguments UnmarshalPanics {T} t v.

Record Decoder := mkDecoder { r : io.ReadCloser }.

Definition NewDecoder (r : io.ReadCloser) : Decoder := {| r := r |}.

(** [Decoder.Decode] on a new decoder: read a whole value, return the
    error if that fails, unmarshal it otherwise. *)
Definition Decode {T : Type} (dec : Decoder) (v : T)
    (unmarshal : list byte -> T -> Unmarshalled T)
  : Exit (option error) * T * Decoder :=
  let '(value, err, rest) :=
    readValue reset [] (io.pending (r dec)) (io.fin (r dec)) in
  let dec' := {| r := io.advance (r dec) rest |} in
  match err with
  | Some e => (Returns (Some e), v, dec')
  | None =>
      match unmarshal value v with
      | Stored v' err' => (Returns err', v', dec')
      | UnmarshalPanics v' p => (Panics p, v', dec')
      end
  end.

End json.

(** ** Package context *)
Module context.

Inductive Context : Type :=
| Background
| TODO
| WithCancel (parent : Context)
| WithDeadline (parent : Context) (deadline : Z)
| WithValue (parent : Context) (key val : string).

End context.

(** ** Package net/url *)
Module url.

(** [type encoding int]: the part of a URL a string is escaped for. *)
Inductive encoding : Type :=
| encodePath | encodePathSegment | encodeHost | encodeZone
| encodeUserPassword | encodeQueryComponent | encodeFragment.

(** [type Userinfo struct] *)
Record Userinfo := mkUserinfo {
  username : string;
  password : string;
  passwordSet : bool
}.

(** [type URL struct] *)
Record URL := mkURL {
  Scheme : string;
  Opaque : string;
  User : option Userinfo;
  Host : string;
  Path : string;
  RawPath : string;
  OmitHost : bool;
  ForceQuery : bool;
  RawQuery : string;
  Fragment : string;
  RawFragment : string
}.

Definition among (c : ascii) (set : string) : bool :=
  existsb (Ascii.eqb c) (list_ascii_of_string set).

Definition between (lo hi : string) (c : ascii) : bool :=
  match lo, hi with
  | String l _, String h _ =>
      ((N_of_ascii l <=? N_of_ascii c) && (N_of_ascii c <=? N_of_ascii h))%N
  | _, _ => false
  end.

Definition quote : ascii := ascii_of_N 34.

Definition alnum (c : ascii) : bool :=
  between "a" "z" c || between "A" "Z" c || between "0" "9" c.

Definition ishex (c : ascii) : bool :=
  between "0" "9" c || between "a" "f" c || between "A" "F" c.

Definition unhex (c : ascii) : N :=
  if between "0" "9" c then N_of_ascii c - 48
  else if between "a" "f" c then N_of_ascii c - 97 + 10
  else if between "A" "F" c then N_of_ascii c - 65 + 10
  else 0.

(** [shouldEscape] *)
Definition shouldEscape (c : ascii) (mode : encoding) : bool :=
  if alnum c then false
  else if match mode with encodeHost | encodeZone => true | _ => false end
          && (among c "!$&'()*+,;=:[]<>" || Ascii.eqb c quote)
  then false
  else if among c "-_.~" then false
  else if among c "$&+,/:;=?@"
          && match mode with
             | encodePath | encodePathSegment | encodeUserPassword
             | encodeQueryComponent | encodeFragment => true
             | _ => false
             end
  then match mode with
       | encodePath => Ascii.eqb c "?"
       | encodePathSegment => among c "/;,?"
       | encodeUserPassword => among c "@/?:"
       | encodeQueryComponent => true
       | _ => false
       end
  else if match mode with encodeFragment => among c "!()*" | _ => false end
  then false
  else true.

(** [const upperhex = "0123456789ABCDEF"] *)
Definition upperhex (n : N) : ascii :=
  nth (N.to_nat n) (list_ascii_of_string "0123456789ABCDEF") "0"%char.

(** [escape] *)
Fixpoint escape (s : string) (mode : encoding) : string :=
  match s with
  | EmptyString => EmptyString
  | String c s' =>
      if shouldEscape c mode then
        if Ascii.eqb c " "
           && match mode with encodeQueryComponent => true | _ => false end
        then String "+" (escape s' mode)
        else String "%" (String (upperhex (N.shiftr (N_of_ascii c) 4))
                           (String (upperhex (N.land (N_of_ascii c) 15))
                              (escape s' mode)))
      else String c (escape s' mode)
  end.

(** The first three bytes of a string, or fewer. *)
Definition first3 (s : string) : string := substring 0 3 s.

(** The first loop of [unescape]: every percent sign is followed by two
    hexadecimal digits, and the host rules hold. *)
Fixpoint unescape_check (s : string) (mode : encoding) : option error :=
  match s with
  | EmptyString => None
  | String c s' =>
      if Ascii.eqb c "%" then
        match s' with
        | String h1 (String h2 s'') =>
            if negb (ishex h1 && ishex h2) then Some (EscapeError (first3 s))
            else if match mode with encodeHost => true | _ => false end
                    && (unhex h1 <? 8)%N
                    && negb (String.eqb (first3 s) "%25")
            then Some (EscapeError (first3 s))
            else if match mode with encodeZone => true | _ => false end
                    && negb (String.eqb (first3 s) "%25")
                    && negb (N.lor (N.shiftl (unhex h1) 4) (unhex h2) =? 32)%N
                    && shouldEscape
                         (ascii_of_N (N.lor (N.shiftl (unhex h1) 4) (unhex h2)))
                         encodeHost
            then Some (EscapeError (first3 s))
            else unescape_check s'' mode
        | _ => Some (EscapeError (first3 s))
        end
      else if match mode with encodeHost | encodeZone => true | _ => false end
              && (N_of_ascii c <? 128)%N && shouldEscape c encodeHost
      then Some (InvalidHostError (String c EmptyString))
      else unescape_check s' mode
  end.

(** The second loop of [unescape], on a string that passed the first. *)
Fixpoint unescape_decode (s : string) (mode : encoding) : string :=
  match s with
  | EmptyString => EmptyString
  | String c s' =>
      if Ascii.eqb c "%" then
        match s' with
        | String h1 (String h2 s'') =>
            String (ascii_of_N (N.lor (N.shiftl (unhex h1) 4) (unhex h2)))
                   (unescape_decode s'' mode)
        | _ => String c (unescape_decode s' mode)
        end
      else if Ascii.eqb c "+"
              && match mode with encodeQueryComponent => true | _ => false end
      then String " " (unescape_decode s' mode)
      else String c (unescape_decode s' mode)
  end.

(** [unescape] *)
Definition unescape (s : string) (mode : encoding) : error + string :=
  match unescape_check s mode with
  | Some err => inl err
  | None => inr (unescape_decode s mode)
  end.

(** [validEncoded] *)
Fixpoint validEncoded (s : string) (mode : encoding) : bool :=
  match s with
  | EmptyString => true
  | String c s' =>
      (among c "!$&'()*+,;=:@[]%" || negb (shouldEscape c mode))
      && validEncoded s' mode
  end.

(** [URL.EscapedPath] *)
Definition EscapedPath (u : URL) : string :=
  if negb (String.eqb (RawPath u) "") && validEncoded (RawPath u) encodePath
     && match unescape (RawPath u) encodePath with
        | inr p => String.eqb p (Path u)
        | inl _ => false
        end
  then RawPath u
  else if String.eqb (Path u) "*" then "*"
  else escape (Path u) encodePath.

(** [URL.EscapedFragment] *)
Definition EscapedFragment (u : URL) : string :=
  if negb (String.eqb (RawFragment u) "")
     && validEncoded (RawFragment u) encodeFragment
     && match unescape (RawFragment u) encodeFragment with
        | inr f => String.eqb f (Fragment u)
        | inl _ => false
        end
  then RawFragment u
  else escape (Fragment u) encodeFragment.

(** [Userinfo.String] *)
Definition Userinfo_String (u : Userinfo) : string :=
  escape (username u) encodeUserPassword
  +:+ (if passwordSet u
       then ":" +:+ escape (password u) encodeUserPassword else "").

Fixpoint contains (c : ascii) (s : string) : bool :=
  match s with
  | EmptyString => false
  | String d s' => Ascii.eqb c d || contains c s'
  end.

(** [strings.Cut] with a separator of one byte: what is before and after
    its first occurrence. *)
Fixpoint Cut (s : string) (sep : ascii) : option (string * string) :=
  match s with
  | EmptyString => None
  | String c s' =>
      if Ascii.eqb c sep then Some (EmptyString, s')
      else match Cut s' sep with
           | Some (before, after) => Some (String c before, after)
           | None => None
           end
  end.

(** What is before and after the last occurrence of a byte
    ([strings.LastIndex]). *)
Fixpoint LastCut (s : string) (sep : ascii) : option (string * string) :=
  match s with
  | EmptyString => None
  | String c s' =>
      match LastCut s' sep with
      | Some (before, after) => Some (String c before, after)
      | None => if Ascii.eqb c sep then Some (EmptyString, s') else None
      end
  end.

(** What is before the first occurrence of a substring, and the rest from
    that occurrence on ([strings.Index]). *)
Fixpoint CutAt (s : string) (sub : string) : option (string * string) :=
  if String.prefix sub s then Some (EmptyString, s)
  else match s with
       | EmptyString => None
       | String c s' =>
           match CutAt s' sub with
           | Some (before, from) => Some (String c before, from)
           | None => None
           end
       end.

Definition first_segment (path : string) : string :=
  match Cut path "/" with Some (segment, _) => segment | None => path end.

(** [URL.String] *)
Definition String_ (u : URL) : string :=
  (if String.eqb (Scheme u) "" then "" else Scheme u +:+ ":")
  +:+ (if negb (String.eqb (Opaque u) "") then Opaque u
       else
         let authority :=
           if negb (String.eqb (Scheme u) "") || negb (String.eqb (Host u) "")
              || bool_decide (is_Some (User u))
           then
             if OmitHost u && String.eqb (Host u) ""
                && negb (bool_decide (is_Some (User u)))
             then ""
             else
               (if negb (String.eqb (Host u) "") || negb (String.eqb (Path u) "")
                   || bool_decide (is_Some (User u))
                then "//" else "")
               +:+ match User u with
                   | Some ui => Userinfo_String ui +:+ "@"
                   | None => ""
                   end
               +:+ (if String.eqb (Host u) "" then ""
                    else escape (Host u) encodeHost)
           else "" in
         let path := EscapedPath u in
         authority
         +:+ (if negb (String.eqb path "") && negb (String.prefix "/" path)
                 && negb (String.eqb (Host u) "")
              then "/" else "")
         +:+ (if String.eqb (Scheme u) "" && String.eqb authority ""
                 && contains ":" (first_segment path)
              then "./" else "")
         +:+ path)
  +:+ (if ForceQuery u || negb (String.eqb (RawQuery u) "")
       then "?" +:+ RawQuery u else "")
  +:+ (if String.eqb (Fragment u) "" then "" else "#" +:+ EscapedFragment u).

(** [stringContainsCTLByte] *)
Fixpoint stringContainsCTLByte (s : string) : bool :=
  match s with
  | EmptyString => false
  | String c s' =>
      (N_of_ascii c <? 32)%N || (N_of_ascii c =? 127)%N
      || stringContainsCTLByte s'
  end.

(** [getScheme]: the scheme and what follows its colon; an empty scheme and
    the whole string when there is no scheme. *)
Fixpoint getScheme_from (i : nat) (seen rest rawURL : string)
  : error + (string * string) :=
  match rest with
  | EmptyString => inr (EmptyString, rawURL)
  | String c rest' =>
      if between "a" "z" c || between "A" "Z" c
      then getScheme_from (S i) (seen +:+ String c EmptyString) rest' rawURL
      else if between "0" "9" c || among c "+-."
      then if (i =? 0)%nat then inr (EmptyString, rawURL)
           else getScheme_from (S i) (seen +:+ String c EmptyString) rest' rawURL
      else if Ascii.eqb c ":"
      then if (i =? 0)%nat then inl (errorString "missing protocol scheme")
           else inr (seen, rest')
      else inr (EmptyString, rawURL)
  end.

Definition getScheme (rawURL : string) : error + (string * string) :=
  getScheme_from 0 EmptyString rawURL rawURL.

(** [strings.ToLower] on ASCII. *)
Fixpoint ToLower (s : string) : string :=
  match s with
  | EmptyString => EmptyString
  | String c s' =>
      String (if between "A" "Z" c then ascii_of_N (N_of_ascii c + 32) else c)
             (ToLower s')
  end.

(** [validOptionalPort] *)
Definition validOptionalPort (port : string) : bool :=
  match port with
  | EmptyString => true
  | String c digits =>
      Ascii.eqb c ":"
      && forallb (between "0" "9") (list_ascii_of_string digits)
  end.

(** [validUserinfo] *)
Definition validUserinfo (s : string) : bool :=
  forallb (fun c => alnum c || among c "-._:~!$&'()*+,;=%@")
          (list_ascii_of_string s).

(** [parseHost] *)
Definition parseHost (host : string) : error + string :=
  if String.prefix "[" host then
    match LastCut host "]" with
    | None => inl (errorString "missing ']' in host")
    | Some (inside, colonPort) =>
        if negb (validOptionalPort colonPort) then inl (InvalidPort colonPort)
        else
          match CutAt inside "%25" with
          | Some (before, zone) =>
              match unescape before encodeHost with
              | inl err => inl err
              | inr host1 =>
                  match unescape zone encodeZone with
                  | inl err => inl err
                  | inr host2 =>
                      match unescape ("]" +:+ colonPort) encodeHost with
                      | inl err => inl err
                      | inr host3 => inr (host1 +:+ host2 +:+ host3)
                      end
                  end
              end
          | None => unescape host encodeHost
          end
    end
  else
    match LastCut host ":" with
    | Some (_, port) =>
        if negb (validOptionalPort (":" +:+ port))
        then inl (InvalidPort (":" +:+ port))
        else unescape host encodeHost
    | None => unescape host encodeHost
    end.

(** [parseAuthority] *)
Definition parseAuthority (authority : string)
  : error + (option Userinfo * string) :=
  match LastCut authority "@" with
  | None =>
      match parseHost authority with
      | inl err => inl err
      | inr host => inr (None, host)
      end
  | Some (userinfo, hostpart) =>
      match parseHost hostpart with
      | inl err => inl err
      | inr host =>
          if negb (validUserinfo userinfo)
          then inl (errorString "net/url: invalid userinfo")
          else
            match Cut userinfo ":" with
            | None =>
                match unescape userinfo encodeUserPassword with
                | inl err => inl err
                | inr name =>
                    inr (Some {| username := name; password := "";
                                 passwordSet := false |}, host)
                end
            | Some (name, pass) =>
                match unescape name encodeUserPassword with
                | inl err => inl err
                | inr name' =>
                    match unescape pass encodeUserPassword with
                    | inl err => inl err
                    | inr pass' =>
                        inr (Some {| username := name'; password := pass';
                                     passwordSet := true |}, host)
                    end
                end
            end
      end
  end.

Fixpoint count_byte (c : ascii) (s : string) : nat :=
  match s with
  | EmptyString => 0
  | String d s' => ((if Ascii.eqb c d then 1 else 0) + count_byte c s')%nat
  end.

Definition HasSuffix (s : string) (c : ascii) : bool :=
  match LastCut s c with
  | Some (_, EmptyString) => true
  | _ => false
  end.

(** [parse(rawURL, false)]: a URL without its fragment. *)
Definition parse (rawURL : string) : error + URL :=
  if stringContainsCTLByte rawURL
  then inl (errorString "net/url: invalid control character in URL")
  else if String.eqb rawURL "*"
  then inr {| Scheme := ""; Opaque := ""; User := None; Host := "";
              Path := "*"; RawPath := ""; OmitHost := false;
              ForceQuery := false; RawQuery := ""; Fragment := "";
              RawFragment := "" |}
  else
  match getScheme rawURL with
  | inl err => inl err
  | inr (scheme0, rest0) =>
      let scheme := ToLower scheme0 in
      let '(rest, forceQuery, rawQuery) :=
        if HasSuffix rest0 "?" && (count_byte "?" rest0 =? 1)%nat
        then (substring 0 (String.length rest0 - 1) rest0, true, EmptyString)
        else match Cut rest0 "?" with
             | Some (before, after) => (before, false, after)
             | None => (rest0, false, EmptyString)
             end in
      if negb (String.prefix "/" rest) && negb (String.eqb scheme "")
      then inr {| Scheme := scheme; Opaque := rest; User := None; Host := "";
                  Path := ""; RawPath := ""; OmitHost := false;
                  ForceQuery := forceQuery; RawQuery := rawQuery;
                  Fragment := ""; RawFragment := "" |}
      else if negb (String.prefix "/" rest)
              && contains ":" (first_segment rest)
      then inl (errorString "first path segment in URL cannot contain colon")
      else
        let finish (user : option Userinfo) (host : string) (omit : bool)
                   (p : string) : error + URL :=
          match unescape p encodePath with
          | inl err => inl err
          | inr path =>
              inr {| Scheme := scheme; Opaque := ""; User := user;
                     Host := host; Path := path;
                     RawPath := if String.eqb p (escape path encodePath)
                                then "" else p;
                     OmitHost := omit; ForceQuery := forceQuery;
                     RawQuery := rawQuery; Fragment := ""; RawFragment := "" |}
          end in
        if (negb (String.eqb scheme "") || negb (String.prefix "///" rest))
           && String.prefix "//" rest
        then
          let after := substring 2 (String.length rest - 2) rest in
          let '(authority, p) :=
            match CutAt after "/" with
            | Some (authority, p) => (authority, p)
            | None => (after, EmptyString)
            end in
          match parseAuthority authority with
          | inl err => inl err
          | inr (user, host) => finish user host false p
          end
        else
          finish None ""
                 (negb (String.eqb scheme "") && String.prefix "/" rest) rest
  end.

(** [url.Parse]: cut the fragment off, parse the rest, set the fragment.
    An error comes wrapped in a [*url.Error] with the operation [parse]. *)
Definition Parse (rawURL : string) : error + URL :=
  let '(u, frag) :=
    match Cut rawURL "#" with
    | Some (u, frag) => (u, frag)
    | None => (rawURL, EmptyString)
    end in
  match parse u with
  | inl err => inl (URLError "parse" u err)
  | inr parsed =>
      if String.eqb frag "" then inr parsed
      else
        match unescape frag encodeFragment with
        | inl err => inl (URLError "parse" rawURL err)
        | inr fragment =>
            inr {| Scheme := Scheme parsed; Opaque := Opaque parsed;
                   User := User parsed; Host := Host parsed;
                   Path := Path parsed; RawPath := RawPath parsed;
                   OmitHost := OmitHost parsed;
                   ForceQuery := ForceQuery parsed;
                   RawQuery := RawQuery parsed; Fragment := fragment;
                   RawFragment :=
                     if String.eqb frag (escape fragment encodeFragment)
                     then "" else frag |}
        end
  end.

End url.

(** ** Package net/http *)
Module http.

(** [isTokenTable]: the bytes allowed in a header field name and in a
    method. *)
Definition isToken (c : ascii) : bool :=
  let n := N_of_ascii c in
  ((48 <=? n) && (n <=? 57) || (65 <=? n) && (n <=? 90)
   || (97 <=? n) && (n <=? 122))%N
  || existsb (Ascii.eqb c) (list_ascii_of_string "!#$%&'*+-.^_`|~").

Fixpoint all (p : ascii -> bool) (s : string) : bool :=
  match s with
  | EmptyString => true
  | String c s' => p c && all p s'
  end.

Definition isLower (c : ascii) : bool :=
  ((97 <=? N_of_ascii c) && (N_of_ascii c <=? 122))%N.
Definition isUpper (c : ascii) : bool :=
  ((65 <=? N_of_ascii c) && (N_of_ascii c <=? 90))%N.

(** The second loop of [canonicalMIMEHeaderKey]: upper case for the first
    letter and after each dash, lower case elsewhere. *)
Fixpoint canonical (upper : bool) (s : string) : string :=
  match s with
  | EmptyString => EmptyString
  | String c s' =>
      let c' := if upper && isLower c then ascii_of_N (N_of_ascii c - 32)
                else if negb upper && isUpper c
                     then ascii_of_N (N_of_ascii c + 32)
                else c in
      String c' (canonical (Ascii.eqb c' "-") s')
  end.

(** [textproto.CanonicalMIMEHeaderKey]: a key with a byte that is not a
    token byte is left as it is. *)
Definition CanonicalMIMEHeaderKey (s : string) : string :=
  if all isToken s then canonical true s else s.

(** [type Header map[string][]string] *)
Abbreviation Header := (gmap string (list string)).

(** [Header.Set]: the values under the canonical key are replaced. *)
Definition Set_ (h : Header) (key value : string) : Header :=
  <[CanonicalMIMEHeaderKey key := [value]]> h.

(** [type Request struct]: the fields this package sets or reads.  [Body]
    is the payload a [*bytes.Buffer] body holds, [None] for a nil body. *)
Record Request := mkRequest {
  ctx : context.Context;
  Method : string;
  URL : url.URL;
  Header_ : Header;
  Body : option (list byte);
  ContentLength : Z;
  Host : string
}.

(** [strings.LastIndex] for a one-byte separator: -1 when it is absent. *)
Definition LastIndex (s : string) (sep : ascii) : Z :=
  match url.LastCut s sep with
  | Some (before, _) => Z.of_nat (String.length before)
  | None => -1
  end.

(** [strings.TrimSuffix] for a one-byte suffix. *)
Definition TrimSuffix (s : string) (suffix : ascii) : string :=
  if url.HasSuffix s suffix then substring 0 (String.length s - 1) s else s.

Definition hasPort (s : string) : bool :=
  LastIndex s ":" >? LastIndex s "]".

(** [removeEmptyPort]: a host that ends in a colon with no port after it
    loses the colon. *)
Definition removeEmptyPort (host : string) : string :=
  if hasPort host then TrimSuffix host ":" else host.

(** [u.Host = host] *)
Definition with_Host (u : url.URL) (host : string) : url.URL :=
  {| url.Scheme := url.Scheme u; url.Opaque := url.Opaque u;
     url.User := url.User u; url.Host := host; url.Path := url.Path u;
     url.RawPath := url.RawPath u; url.OmitHost := url.OmitHost u;
     url.ForceQuery := url.ForceQuery u; url.RawQuery := url.RawQuery u;
     url.Fragment := url.Fragment u; url.RawFragment := url.RawFragment u |}.

Definition validMethod (method : string) : bool :=
  (0 <? String.length method)%nat && all isToken method.

(** [http.NewRequestWithContext], for a body that is nil or a
    [*bytes.Buffer].  [url_Parse] is the parser it calls, [url.Parse]: the
    URL of the request is the URL parsed from the string, its host without
    an empty port. *)
Definition NewRequestWithContext (url_Parse : string -> error + url.URL)
    (ctx : option context.Context) (method url : string)
    (body : option (list byte)) : error + Request :=
  let method := if String.eqb method "" then "GET" else method in
  if negb (validMethod method)
  then inl (InvalidMethod method)
  else
  match ctx with
  | None => inl (errorString "net/http: nil Context")
  | Some ctx =>
      match url_Parse url with
      | inl err => inl err
      | inr u =>
          let u := with_Host u (removeEmptyPort (url.Host u)) in
          inr {| ctx := ctx; Method := method; URL := u; Header_ := ∅;
                 Body := body;
                 ContentLength :=
                   match body with
                   | Some b => Z.of_nat (length b)
                   | None => 0
                   end;
                 Host := url.Host u |}
      end
  end.

(** [type Response struct]: the fields this package reads. *)
Record Response := mkResponse {
  Status : string;
  StatusCode : Z;
  RespBody : io.ReadCloser;
  Request_ : Request
}.

Definition with_Body (resp : Response) (b : io.ReadCloser) : Response :=
  {| Status := Status resp; StatusCode := StatusCode resp; RespBody := b;
     Request_ := Request_ resp |}.

(** [http.Transport] with the [tls.Config] option this package sets, and
    what the network answers through it. *)
Record Transport := mkTransport {
  InsecureSkipVerify : bool;
  RoundTrip : Request -> error + Response
}.

Record Client := mkClient { Transport_ : Transport }.

(** [urlErrorOp]: the method with its first byte as it is and the rest, when
    it is printable ASCII, in lower case; [Get] for the empty method. *)
Definition urlErrorOp (method : string) : string :=
  match method with
  | EmptyString => "Get"
  | String c rest =>
      if all (fun c => (32 <=? N_of_ascii c)%N && (N_of_ascii c <=? 126)%N) rest
      then String c (url.ToLower rest)
      else method
  end.

(** [stripPassword]: the URL as a string, a password in it replaced by
    three stars. *)
Definition stripPassword (u : url.URL) : string :=
  match url.User u with
  | Some ui =>
      if url.passwordSet ui then
        let old := url.Userinfo_String ui +:+ "@" in
        match url.CutAt (url.String_ u) old with
        | Some (before, from) =>
            before +:+ url.username ui +:+ ":***@"
            +:+ substring (String.length old)
                          (String.length from - String.length old) from
        | None => url.String_ u
        end
      else url.String_ u
  | None => url.String_ u
  end.

(** [Client.Do]: a response, or the error of the round trip wrapped in a
    [*url.Error] that names the method and the URL.  What the transport
    answers stands for all that happens between the request and the final
    response. *)
Definition Do (c : Client) (req : Request) : error + Response :=
  match RoundTrip (Transport_ c) req with
  | inl err =>
      inl (URLError (urlErrorOp (Method req)) (stripPassword (URL req)) err)
  | inr resp => inr resp
  end.

End http.

(** ** Package cherrypy *)

(** [type eauth struct] (client.go, lines 27-31). *)
Record eauth := mkEauth {
  Username : string;
  Password : string;
  Backend : string
}.

(** [type Client struct] (client.go, lines 45-50); the field [eauth] is
    [eauth_] here, the name being taken by its type. *)
Record Client := mkClient {
  client : http.Client;
  eauth_ : eauth;
  Address : string;
  Token : string
}.

(** [func NewClient] (client.go, lines 57-75).  [network] is what a transport
    with the given TLS setting gets from the network; the token starts
    empty. *)
Definition NewClient
    (network : bool -> http.Request -> error + http.Response)
    (address username password backend : string) (skipVerify : bool) : Client :=
  let a := {| Username := username; Password := password; Backend := backend |} in
  let tr := {| http.InsecureSkipVerify := skipVerify;
               http.RoundTrip := network skipVerify |} in
  {| client := {| http.Transport_ := tr |};
     eauth_ := a;
     Address := address;
     Token := "" |}.

(** The process-wide logger of package [log]: the lines printed so far,
    without their time stamps. *)
Abbreviation Log := (list string).

Definition Printf (log : Log) (line : string) : Log := log ++ [line].

(** The decode target [v interface{}] of [do]: [None] is the nil interface; a
    value whose dynamic type has a [Write] method is a [Sink] (the type
    assertion [v.(io.Writer)] succeeds), any other value is a [Typed]
    destination of some Go type [T], with what unmarshalling does to it. *)
Inductive Target (T : Type) : Type :=
| Sink (w : io.Writer)
| Typed (cur : T) (unmarshal : list byte -> T -> json.Unmarshalled T).
Arguments Sink {T} w.
Arguments Typed {T} cur unmarshal.

(** What a call of [do] leaves behind: how it ended and with which results,
    the decode target, the body of the response if one was received, and the
    log. *)
Record Outcome (T : Type) := mkOutcome {
  returned : Exit (option http.Response * option error);
  target : option (Target T);
  body : option io.ReadCloser;
  logged : Log
}.
Arguments mkOutcome {T} returned target body logged.
Arguments returned {T} o.
Arguments target {T} o.
Arguments body {T} o.
Arguments logged {T} o.

(** [defer resp.Body.Close()]: whichever way the rest of the function ends,
    the body is closed before the caller gets control back; a response that
    is returned is the object whose body has just been closed. *)
Definition defer_Close {T : Type} (rest : Outcome T) : Outcome T :=
  {| returned :=
       match returned rest with
       | Returns (Some resp, err) =>
           Returns (Some (http.with_Body resp (io.Close (http.RespBody resp))), err)
       | other => other
       end;
     target := target rest;
     body := io.Close <$> body rest;
     logged := logged rest |}.

Section Package.

(** The parser [http.NewRequestWithContext] calls, [url.Parse]. *)
Variable url_Parse : string -> error + url.URL.

(** [func (c *Client) newRequest] (client.go, lines 77-104): the request or
    the error, and the log. *)
Definition newRequest (c : Client) (ctx : option context.Context)
    (method endpoint : string) (body : option json.value) (log : Log)
  : (error + http.Request) * Log :=
  let url := Address c +:+ "/" +:+ endpoint in
  let encoded : error + option (list byte) :=
    match body with
    | Some b =>
        let buf : list byte := [] in
        let enc := json.NewEncoder buf in
        let enc := json.SetEscapeHTML enc false in
        let '(enc, err) := json.Encode enc b in
        match err with
        | Some err => inl err
        | None => inr (Some (json.w enc))
        end
    | None => inr None
    end in
  match encoded with
  | inl err => (inl err, log)
  | inr buf =>
      let log := Printf log ("[DEBUG] Creating request for " +:+ url) in
      match http.NewRequestWithContext url_Parse ctx method url buf with
      | inl err => (inl err, log)
      | inr req =>
          let set (req : http.Request) (key value : string) : http.Request :=
            {| http.ctx := http.ctx req; http.Method := http.Method req;
               http.URL := http.URL req;
               http.Header_ := http.Set_ (http.Header_ req) key value;
               http.Body := http.Body req;
               http.ContentLength := http.ContentLength req;
               http.Host := http.Host req |} in
          let req := set req "Accept" "application/json" in
          let req := set req "Content-Type" "application/json" in
          let req := if negb (String.eqb (Token c) "")
                     then set req "X-Auth-Token" (Token c)
                     else req in
          (inr req, log)
      end
  end.

End Package.

(** [func (c *Client) do] (client.go, lines 106-138). *)
Definition do {T : Type} (c : Client) (req : http.Request)
    (v : option (Target T)) (log : Log) : Outcome T :=
  match http.Do (client c) req with
  | inl err =>
      {| returned := Returns (None, Some err); target := v; body := None;
         logged := log |}
  | inr resp =>
      defer_Close
        (let log := Printf log ("[DEBUG] Received response "
                                +:+ http.Status resp +:+ " from "
                                +:+ url.String_ (http.URL (http.Request_ resp))) in
         if (http.StatusCode resp >? 299) || (http.StatusCode resp <? 200) then
           (* Not checking for error as it does not matter *)
           let '((body, _), rbody) := io.ReadAll (http.RespBody resp) in
           {| returned :=
                Returns (None,
                         Some (ErrRequest {| Status := http.Status resp;
                                             StatusCode := http.StatusCode resp;
                                             Body := body |}));
              target := v; body := Some rbody; logged := log |}
         else
           match v with
           | Some (Sink w) =>
               let '(copied, w', rbody) := io.Copy w (http.RespBody resp) in
               match copied with
               | Panics p =>
                   {| returned := Panics p; target := Some (Sink w');
                      body := Some rbody; logged := log |}
               | Returns _ =>
                   {| returned := Returns (Some (http.with_Body resp rbody), None);
                      target := Some (Sink w'); body := Some rbody;
                      logged := log |}
               end
           | Some (Typed cur unmarshal) =>
               let '(decoded, cur', dec) :=
                 json.Decode (json.NewDecoder (http.RespBody resp)) cur unmarshal in
               let rbody := json.r dec in
               match decoded with
               | Panics p =>
                   {| returned := Panics p; target := Some (Typed cur' unmarshal);
                      body := Some rbody; logged := log |}
               | Returns err =>
                   match err with
                   | Some e =>
                       if negb (is_EOF e)
                       then {| returned := Returns (None, Some e);
                               target := Some (Typed cur' unmarshal);
                               body := Some rbody; logged := log |}
                       else {| returned := Returns (Some (http.with_Body resp rbody), None);
                               target := Some (Typed cur' unmarshal);
                               body := Some rbody; logged := log |}
                   | None =>
                       {| returned := Returns (Some (http.with_Body resp rbody), None);
                          target := Some (Typed cur' unmarshal);
                          body := Some rbody; logged := log |}
                   end
               end
           | None =>
               {| returned := Returns (Some resp, None); target := None;
                  body := Some (http.RespBody resp); logged := log |}
           end)
  end.

(** ** Measures used in the statements *)

(** How often the byte [ch] occurs in a sequence of bytes. *)
Abbreviation occ l ch := (count_occ byte_eq_dec l ch).

(** How often the byte [ch] occurs in the texts of a value: its strings,
    the names of its struct fields, the keys of its maps, the text its
    [MarshalText] methods have returned and the JSON its [MarshalJSON]
    methods have returned. *)
Fixpoint occurrences (ch : byte) (v : json.value) : nat :=
  match v with
  | json.VString s => count_occ byte_eq_dec s ch
  | json.VSlice elems => sum_list (map (occurrences ch) elems)
  | json.VMap entries =>
      sum_list (map (fun entry : list byte * json.value =>
                       (count_occ byte_eq_dec entry.1 ch
                        + occurrences ch entry.2)%nat) entries)
  | json.VStruct fields =>
      sum_list (map (fun field : list byte * json.value =>
                       (count_occ byte_eq_dec field.1 ch
                        + occurrences ch field.2)%nat) fields)
  | json.VQuoted x => occurrences ch x
  | json.VMarshaler _ (inr js) => count_occ byte_eq_dec js ch
  | json.VTextMarshaler _ (inr text) => count_occ byte_eq_dec text ch
  | _ => 0%nat
  end.

(** The three bytes that [SetEscapeHTML(true)] would escape. *)
Definition html_bytes : list byte := [x3c; x3e; x26].

(** A writer that answers by [respond] and holds [h] takes in full, and
    with no error, every slice that a copy of [reads] offers it: every read
    but the empty ones, each offered when the writer holds what it held and
    the reads before. *)
Fixpoint accepts (respond : list byte -> list byte -> io.WriteReply)
    (h : list byte) (reads : list (list byte)) : Prop :=
  match reads with
  | [] => True
  | chunk :: reads' =>
      (chunk <> [] -> respond h chunk = io.Wrote (Z.of_nat (length chunk)) None)
      /\ accepts respond (h ++ chunk) reads'
  end.

(** ** Concrete clients, bodies and targets *)
Module Sample.

(** A network that answers every request with the same status line and
    body. *)
Definition answers (code : Z) (status : string) (reads : list (list byte))
    (fin : error) : bool -> http.Request -> error + http.Response :=
  fun _ req =>
    inr {| http.Status := status; http.StatusCode := code;
           http.RespBody := {| io.pending := reads; io.fin := fin;
                               io.closed := false |};
           http.Request_ := req |}.

Definition client_of
    (network : bool -> http.Request -> error + http.Response) : Client :=
  NewClient network "http://host:8000" "admin" "password" "pam" false.

Definition logged_in
    (network : bool -> http.Request -> error + http.Response) : Client :=
  {| client := client (client_of network);
     eauth_ := eauth_ (client_of network);
     Address := "http://host:8000";
     Token := "abc123" |}.

(** No network: every round trip fails. *)
Definition unreachable : bool -> http.Request -> error + http.Response :=
  fun _ _ => inl (errorString "dial tcp: connection refused").

(** A client before and after a login. *)
Definition anonymous : Client := client_of unreachable.
Definition authenticated : Client := logged_in unreachable.

Definition get_minion : http.Request :=
  {| http.ctx := context.Background; http.Method := "GET";
     http.URL := {| url.Scheme := "http"; url.Opaque := ""; url.User := None;
                    url.Host := "host:8000"; url.Path := "/minions/id1";
                    url.RawPath := ""; url.OmitHost := false;
                    url.ForceQuery := false; url.RawQuery := "";
                    url.Fragment := ""; url.RawFragment := "" |};
     http.Header_ := ∅; http.Body := None; http.ContentLength := 0;
     http.Host := "host:8000" |}.

(** A [*bytes.Buffer]: it takes everything. *)
Definition buffer : io.Writer :=
  {| io.held := []; io.respond := fun _ p => io.Wrote (Z.of_nat (length p)) None |}.

(** A [*json.RawMessage] destination: [UnmarshalJSON] stores the bytes of
    the value. *)
Definition raw_message : Target (list byte) :=
  Typed [] (fun data _ => json.Stored data None).

(** A destination whose [UnmarshalJSON] panics. *)
Definition panicking : Target (list byte) :=
  Typed [] (fun _ cur => json.UnmarshalPanics cur "UnmarshalJSON: index out of range").

(** A server that fails: status 500 and a body that breaks off after two
    reads. *)
Definition failing : Client :=
  client_of (answers 500 "500 Internal Server Error"
               [bytes "internal error: "; bytes "boom"] ErrUnexpectedEOF).

Definition failure : http.Response :=
  {| http.Status := "500 Internal Server Error"; http.StatusCode := 500;
     http.RespBody := {| io.pending := [bytes "internal error: "; bytes "boom"];
                         io.fin := ErrUnexpectedEOF; io.closed := false |};
     http.Request_ := get_minion |}.

(** A server, or a proxy in front of it, that answers 200 with a page that
    is not JSON. *)
Definition misconfigured : Client :=
  client_of (answers 200 "200 OK" [bytes "<html>"] EOF).

Definition page : http.Response :=
  {| http.Status := "200 OK"; http.StatusCode := 200;
     http.RespBody := {| io.pending := [bytes "<html>"]; io.fin := EOF;
                         io.closed := false |};
     http.Request_ := get_minion |}.

(** A server that answers 200 with no content. *)
Definition silent : Client := client_of (answers 200 "200 OK" [] EOF).

Definition no_content : http.Response :=
  {| http.Status := "200 OK"; http.StatusCode := 200;
     http.RespBody := {| io.pending := []; io.fin := EOF; io.closed := false |};
     http.Request_ := get_minion |}.

(** A server that answers 200 with a JSON array that arrives in two
    reads. *)
Definition streaming : Client :=
  client_of (answers 200 "200 OK" [bytes "[1,2"; bytes ",3]"] EOF).

Definition stream : http.Response :=
  {| http.Status := "200 OK"; http.StatusCode := 200;
     http.RespBody := {| io.pending := [bytes "[1,2"; bytes ",3]"]; io.fin := EOF;
                         io.closed := false |};
     http.Request_ := get_minion |}.

(** A file on a device with [room] bytes left: a write that does not fit
    is cut short and reports the error. *)
Definition file_with_room (room : nat) : io.Writer :=
  {| io.held := [];
     io.respond := fun h p =>
       if (length h + length p <=? room)%nat
       then io.Wrote (Z.of_nat (length p)) None
       else io.Wrote (Z.of_nat (room - length h))
                     (Some (errorString "write: no space left on device")) |}.

(** The credentials a login posts, with an ampersand and angle brackets in
    them. *)
Definition credentials : json.value :=
  json.VStruct [(bytes "Username", json.VString (bytes "a<b"));
                (bytes "Password", json.VString (bytes "p&q>r"));
                (bytes "Backend", json.VString (bytes "pam"))].

End Sample.

(** ** Further measures and inputs *)

(** What a value asks of the encoder apart from the kinds of its parts:
    every float in it is finite, every [json.Number] in it is a number,
    every [MarshalJSON] and [MarshalText] method in it has returned without
    an error, and what a [MarshalJSON] has returned is one JSON value. *)
Fixpoint marshals (v : json.value) : bool :=
  match v with
  | json.VFloat bitSize bits =>
      match json.floatEncoder bitSize bits with inr _ => true | inl _ => false end
  | json.VNumber s =>
      match json.numberEncoder s with inr _ => true | inl _ => false end
  | json.VSlice elems => forallb marshals elems
  | json.VMap entries =>
      forallb (fun entry : list byte * json.value => marshals entry.2) entries
  | json.VStruct fields =>
      forallb (fun field : list byte * json.value => marshals field.2) fields
  | json.VQuoted x => marshals x
  | json.VMarshaler _ (inr js) => bool_decide ((json.compact false js).2 = None)
  | json.VMarshaler _ (inl _) => false
  | json.VTextMarshaler _ (inl _) => false
  | _ => true
  end.

(** A value the encoder can encode: no channel, function or other value of
    an unsupported kind anywhere in it, and nothing in it that fails to
    marshal. *)
Fixpoint supported (v : json.value) : bool :=
  match v with
  | json.VUnsupported _ => false
  | json.VFloat bitSize bits =>
      match json.floatEncoder bitSize bits with inr _ => true | inl _ => false end
  | json.VNumber s =>
      match json.numberEncoder s with inr _ => true | inl _ => false end
  | json.VSlice elems => forallb supported elems
  | json.VMap entries =>
      forallb (fun entry : list byte * json.value => supported entry.2) entries
  | json.VStruct fields =>
      forallb (fun field : list byte * json.value => supported field.2) fields
  | json.VQuoted x => supported x
  | json.VMarshaler _ (inr js) => bool_decide ((json.compact false js).2 = None)
  | json.VMarshaler _ (inl _) => false
  | json.VTextMarshaler _ (inl _) => false
  | _ => true
  end.

(** A byte a JSON value can begin with. *)
Definition begins_value (c : byte) : bool :=
  match c with
  | "{"%byte | "["%byte | x22 | "-"%byte | "t"%byte | "f"%byte | "n"%byte => true
  | _ => json.isDigit 48 c
  end.

(** What the caller of [do] can tell from what it gets back: whether a
    response came with it, and the error. *)
Definition results {T : Type} (o : Outcome T) : Exit (bool * option error) :=
  match returned o with
  | Returns (Some _, e) => Returns (true, e)
  | Returns (None, e) => Returns (false, e)
  | Panics p => Panics p
  end.

(** The line [do] logs for a response. *)
Definition received_line (resp : http.Response) : string :=
  "[DEBUG] Received response " +:+ http.Status resp +:+ " from "
  +:+ url.String_ (http.URL (http.Request_ resp)).

Module More.

(** A server that answers 200 with white space only, in two reads. *)
Definition blank : Client :=
  Sample.client_of (Sample.answers 200 "200 OK" [bytes "  "; [x0a; x09]] EOF).

Definition blank_response : http.Response :=
  {| http.Status := "200 OK"; http.StatusCode := 200;
     http.RespBody := {| io.pending := [bytes "  "; [x0a; x09]]; io.fin := EOF;
                         io.closed := false |};
     http.Request_ := Sample.get_minion |}.

(** The server of [Sample.streaming], its body arriving in one read. *)
Definition whole : Client :=
  Sample.client_of (Sample.answers 200 "200 OK" [bytes "[1,2,3]"] EOF).

Definition whole_response : http.Response :=
  {| http.Status := "200 OK"; http.StatusCode := 200;
     http.RespBody := {| io.pending := [bytes "[1,2,3]"]; io.fin := EOF;
                         io.closed := false |};
     http.Request_ := Sample.get_minion |}.

(** A value of a type that marshals itself with [json.Marshal]:
    [func (a Arg) MarshalJSON() ([]byte, error)
       { return json.Marshal(string(a)) }],
    the string being [a<b]. *)
Definition self_marshalling : json.value :=
  json.VMarshaler "Arg" (json.Marshal (json.VString (bytes "a<b"))).

(** A job for the server as a map: strings with the three bytes in them, a
    float (1.5) and a [json.RawMessage], which marshals to the bytes it
    holds. *)
Definition job : json.value :=
  json.VMap [(bytes "tgt", json.VString (bytes "web<1>&db"));
             (bytes "fun", json.VString (bytes "cmd.run"));
             (bytes "timeout", json.VFloat json.Float64 0x3FF8000000000000);
             (bytes "arg",
              json.VMarshaler "json.RawMessage"
                (inr (bytes "[ " ++ [x22] ++ bytes "a<b" ++ [x22] ++ bytes " ]")))].


End More.

(** ** Plain URLs *)

(** A scheme in lower-case letters. *)
Definition plain_scheme (scheme : string) : bool :=
  negb (String.eqb scheme "") && http.all (url.between "a" "z") scheme.

(** A host that is a name of letters, digits, dots and dashes, with or
    without a colon and a port in digits after it. *)
Definition plain_host (host : string) : bool :=
  match url.LastCut host ":" with
  | Some (name, port) =>
      http.all (fun c => url.alnum c || url.among c "-.") name
      && negb (String.eqb port "") && http.all (url.between "0" "9") port
  | None => http.all (fun c => url.alnum c || url.among c "-.") host
  end.

(** A path of bytes that a URL carries as they are: letters, digits,
    slashes and the punctuation that needs no escape in a path. *)
Definition plain_path (path : string) : bool :=
  http.all (fun c => negb (url.shouldEscape c url.encodePath)
                     && negb (Ascii.eqb c "%")) path.

(** What may follow the host in a base address: nothing, or a plain path
    that begins with a slash. *)
Definition plain_dir (dir : string) : bool :=
  plain_path dir && (String.eqb dir "" || String.prefix "/" dir).

(** The URL that the parts [scheme://host/path] make. *)
Definition plain_URL (scheme host path : string) : url.URL :=
  {| url.Scheme := scheme; url.Opaque := ""; url.User := None;
     url.Host := host; url.Path := "/" +:+ path; url.RawPath := "";
     url.OmitHost := false; url.ForceQuery := false; url.RawQuery := "";
     url.Fragment := ""; url.RawFragment := "" |}.

(** The bytes of a plain scheme, host or path: none is a control byte, a
    number sign or a question mark. *)
Definition plain_byte (c : ascii) : bool :=
  negb ((N_of_ascii c <? 32)%N || (N_of_ascii c =? 127)%N)
  && negb (url.among c "#?").

(** * Properties *)

(** ** Helper lemmas: URLs *)

Lemma append_cons c s t : String c s +:+ t = String c (s +:+ t).
Proof. reflexivity. Qed.

Lemma append_empty s : s +:+ "" = s.
Proof.
  induction s as [|c s IH]; [reflexivity|]. by rewrite append_cons, IH.
Qed.

Lemma append_assoc a b c : (a +:+ b) +:+ c = a +:+ (b +:+ c).
Proof.
  induction a as [|x a IH]; [reflexivity|]. by rewrite !append_cons, IH.
Qed.

Lemma all_app p a b : http.all p (a +:+ b) = http.all p a && http.all p b.
Proof.
  induction a as [|c a IH]; [reflexivity|].
  rewrite append_cons. simpl. by rewrite IH, andb_assoc.
Qed.

Lemma contains_app c a b :
  url.contains c (a +:+ b) = url.contains c a || url.contains c b.
Proof.
  induction a as [|d a IH]; [reflexivity|].
  rewrite append_cons. simpl. by rewrite IH, orb_assoc.
Qed.

(** A byte that no byte of a string may be is not in the string. *)
Lemma contains_none p c s :
  http.all p s = true -> p c = false -> url.contains c s = false.
Proof.
  intros Hs Hc. induction s as [|d s IH]; [reflexivity|].
  cbn [http.all url.contains] in *.
  apply andb_true_iff in Hs as [Hd Hs]. rewrite (IH Hs), orb_false_r.
  destruct (Ascii.eqb_spec c d) as [->|]; [congruence | reflexivity].
Qed.

Lemma Cut_none s sep : url.contains sep s = false -> url.Cut s sep = None.
Proof.
  induction s as [|c s IH]; [reflexivity|]. cbn [url.contains url.Cut]. intros H.
  apply orb_false_iff in H as [Hc Hs]. rewrite Ascii.eqb_sym, Hc, (IH Hs).
  reflexivity.
Qed.

Lemma LastCut_none s sep : url.contains sep s = false -> url.LastCut s sep = None.
Proof.
  induction s as [|c s IH]; [reflexivity|].
  cbn [url.contains url.LastCut]. intros H.
  apply orb_false_iff in H as [Hc Hs]. rewrite (IH Hs), Ascii.eqb_sym, Hc.
  reflexivity.
Qed.

Lemma CutAt_slash a b :
  url.contains "/" a = false ->
  url.CutAt (a +:+ String "/" b) "/" = Some (a, String "/" b).
Proof.
  induction a as [|c a IH]; intros H.
  - simpl. by destruct b.
  - cbn [url.contains] in H. apply orb_false_iff in H as [Hc Ha].
    apply Ascii.eqb_neq in Hc.
    rewrite append_cons. cbn [url.CutAt String.prefix].
    destruct (ascii_dec "/" c) as [E|E]; [contradiction|].
    by rewrite (IH Ha).
Qed.

Lemma substring_all s : substring 0 (String.length s) s = s.
Proof. induction s as [|c s IH]; [reflexivity|]. simpl. by rewrite IH. Qed.

Lemma stringContainsCTLByte_all p s :
  (forall c, p c = true ->
             (N_of_ascii c <? 32)%N || (N_of_ascii c =? 127)%N = false) ->
  http.all p s = true -> url.stringContainsCTLByte s = false.
Proof.
  intros Hp. induction s as [|c s IH]; [reflexivity|].
  cbn [http.all url.stringContainsCTLByte]. intros H.
  apply andb_true_iff in H as [Hc Hs]. by rewrite (Hp c Hc), (IH Hs).
Qed.

Lemma getScheme_from_plain letters : forall i seen rest rawURL,
  http.all (url.between "a" "z") letters = true ->
  (0 < i + String.length letters)%nat ->
  url.getScheme_from i seen (letters +:+ String ":" rest) rawURL
  = inr (seen +:+ letters, rest).
Proof.
  induction letters as [|c letters IH]; intros i seen rest rawURL Hall Hpos.
  - simpl in Hpos. destruct i; [lia|].
    change ("" +:+ String ":" rest) with (String ":" rest).
    simpl. by rewrite append_empty.
  - cbn [http.all] in Hall. apply andb_true_iff in Hall as [Hc Hall].
    rewrite append_cons. cbn [url.getScheme_from]. rewrite Hc. cbn [orb].
    rewrite (IH (S i) _ _ _ Hall) by (simpl; lia).
    by rewrite append_assoc.
Qed.

Lemma ToLower_plain s :
  http.all (url.between "a" "z") s = true -> url.ToLower s = s.
Proof.
  induction s as [|c s IH]; [reflexivity|].
  cbn [http.all url.ToLower]. intros H.
  apply andb_true_iff in H as [Hc Hs]. rewrite (IH Hs).
  replace (url.between "A" "Z" c) with false; [reflexivity|].
  symmetry. revert Hc. unfold url.between.
  rewrite !andb_true_iff, andb_false_iff, !N.leb_le, !N.leb_gt.
  change (N_of_ascii "a") with 97%N. change (N_of_ascii "Z") with 90%N. lia.
Qed.

(** A string without a percent sign and without a byte the mode escapes
    is its own unescaped and its own escaped form. *)
Lemma unescape_plain s mode :
  mode = url.encodePath \/ mode = url.encodeHost ->
  http.all (fun c => negb (url.shouldEscape c mode) && negb (Ascii.eqb c "%")) s
  = true ->
  url.unescape s mode = inr s /\ url.escape s mode = s.
Proof.
  intros Hmode Hs. unfold url.unescape.
  assert (Hcheck : url.unescape_check s mode = None
                   /\ url.unescape_decode s mode = s /\ url.escape s mode = s).
  { induction s as [|c s IH]; [auto|]. cbn [http.all] in Hs.
    apply andb_true_iff in Hs as [Hc Hs].
    apply andb_true_iff in Hc as [Hesc Hpct].
    apply negb_true_iff in Hesc, Hpct.
    destruct (IH Hs) as (IH1 & IH2 & IH3).
    cbn [url.unescape_check url.unescape_decode url.escape].
    rewrite Hpct, Hesc, IH1, IH2, IH3.
    destruct Hmode as [-> | ->].
    - cbn [andb]. rewrite andb_false_r. auto.
    - rewrite Hesc, !andb_false_r. auto. }
  destruct Hcheck as (-> & -> & ->). auto.
Qed.

Lemma all_impl (p q : ascii -> bool) s :
  (forall c, p c = true -> q c = true) ->
  http.all p s = true -> http.all q s = true.
Proof.
  intros Hpq. induction s as [|c s IH]; [reflexivity|].
  cbn [http.all]. intros H. apply andb_true_iff in H as [Hc Hs].
  by rewrite (Hpq c Hc), (IH Hs).
Qed.

Lemma all_forallb p s :
  forallb p (list_ascii_of_string s) = http.all p s.
Proof. induction s as [|c s IH]; [reflexivity|]. simpl. by rewrite IH. Qed.

Lemma LastCut_Some s sep a b :
  url.LastCut s sep = Some (a, b) -> s = a +:+ String sep b.
Proof.
  revert a. induction s as [|c s IH]; intros a; [discriminate|].
  cbn [url.LastCut]. destruct (url.LastCut s sep) as [[a' b']|].
  - intros [= <- <-]. rewrite append_cons. by rewrite <- (IH a' eq_refl).
  - destruct (Ascii.eqb_spec c sep) as [->|]; [|discriminate].
    intros [= <- <-]. reflexivity.
Qed.

Lemma prefix_empty s : String.prefix "" s = true.
Proof. by destruct s. Qed.

Lemma prefix_byte p (c : ascii) s :
  http.all p s = true -> p c = false ->
  String.prefix (String c "") s = false.
Proof.
  intros Hs Hc. destruct s as [|d s]; [reflexivity|].
  cbn [http.all] in Hs. apply andb_true_iff in Hs as [Hd _].
  cbn [String.prefix]. destruct (ascii_dec c d) as [->|]; [congruence|reflexivity].
Qed.

Lemma stringContainsCTLByte_app a b :
  url.stringContainsCTLByte (a +:+ b)
  = url.stringContainsCTLByte a || url.stringContainsCTLByte b.
Proof.
  induction a as [|c a IH]; [reflexivity|].
  rewrite append_cons. cbn [url.stringContainsCTLByte].
  by rewrite IH, orb_assoc.
Qed.

Lemma plain_scheme_byte c : url.between "a" "z" c = true -> plain_byte c = true.
Proof.
  destruct c as [[] [] [] [] [] [] [] []]; vm_compute; intros; congruence.
Qed.

Lemma plain_host_byte c :
  url.alnum c || url.among c "-.:" = true ->
  plain_byte c && negb (url.shouldEscape c url.encodeHost)
  && negb (Ascii.eqb c "%") && negb (url.among c "/[@")
  = true.
Proof.
  destruct c as [[] [] [] [] [] [] [] []]; vm_compute; intros; congruence.
Qed.

Lemma plain_path_byte c :
  negb (url.shouldEscape c url.encodePath) && negb (Ascii.eqb c "%") = true ->
  plain_byte c = true.
Proof.
  destruct c as [[] [] [] [] [] [] [] []]; vm_compute; intros; congruence.
Qed.

Lemma plain_byte_facts s :
  http.all plain_byte s = true ->
  url.stringContainsCTLByte s = false
  /\ url.contains "#" s = false /\ url.contains "?" s = false.
Proof.
  intros Hs. split; [|split].
  - apply (stringContainsCTLByte_all plain_byte); [|exact Hs].
    intros c Hc. unfold plain_byte in Hc.
    apply andb_true_iff in Hc as [Hc _]. by apply negb_true_iff in Hc.
  - by apply (contains_none plain_byte).
  - by apply (contains_none plain_byte).
Qed.

(** The bytes of a plain host, colon and port included. *)
Lemma plain_host_bytes host :
  plain_host host = true ->
  http.all (fun c => url.alnum c || url.among c "-.:") host = true
  /\ url.HasSuffix host ":" = false
  /\ match url.LastCut host ":" with
     | Some (_, port) => url.validOptionalPort (":" +:+ port) = true
     | None => True
     end.
Proof.
  unfold plain_host, url.HasSuffix.
  destruct (url.LastCut host ":") as [[name port]|] eqn:Hcut.
  - intros H. apply andb_true_iff in H as [H Hport].
    apply andb_true_iff in H as [Hname Hne].
    rewrite (LastCut_Some _ _ _ _ Hcut). split; [|split].
    + rewrite all_app. cbn [http.all]. apply andb_true_iff. split.
      * revert Hname. apply all_impl. intros c Hc.
        destruct c as [[] [] [] [] [] [] [] []]; vm_compute in Hc |- *; congruence.
      * cbn [andb orb]. revert Hport. apply all_impl. intros c Hc.
        destruct c as [[] [] [] [] [] [] [] []]; vm_compute in Hc |- *; congruence.
    + destruct port; [discriminate Hne | reflexivity].
    + unfold url.validOptionalPort. rewrite append_cons. cbn [append].
      change ("" +:+ port) with port.
      by rewrite all_forallb, Hport.
  - intros H. split; [|split; [reflexivity|exact I]].
    revert H. apply all_impl. intros c Hc.
    destruct c as [[] [] [] [] [] [] [] []]; vm_compute in Hc |- *; congruence.
Qed.

(** [url.Parse] on a plain URL. *)
Lemma Parse_plain scheme host path :
  plain_scheme scheme = true -> plain_host host = true ->
  plain_path path = true ->
  url.Parse (scheme +:+ "://" +:+ host +:+ "/" +:+ path)
  = inr (plain_URL scheme host path).
Proof.
  intros Hscheme Hhost Hpath.
  apply andb_true_iff in Hscheme as [Hne Hletters].
  apply negb_true_iff in Hne.
  destruct (plain_host_bytes host Hhost) as (Hbytes & _ & Hport).
  assert (Hh : http.all (fun c =>
                           plain_byte c
                           && negb (url.shouldEscape c url.encodeHost)
                           && negb (Ascii.eqb c "%")
                           && negb (url.among c "/[@")) host = true)
    by (revert Hbytes; apply all_impl, plain_host_byte).
  assert (Hh1 : http.all plain_byte host = true).
  { revert Hh. apply all_impl. intros c Hc.
    by do 3 (apply andb_true_iff in Hc as [Hc _]). }
  assert (Hsep : forall x, url.among x "/[@" = true -> url.contains x host = false).
  { intros x Hx. apply (contains_none _ _ _ Hh). by rewrite Hx, andb_false_r. }
  assert (Hp1 : http.all plain_byte path = true)
    by (revert Hpath; apply all_impl, plain_path_byte).
  assert (Hs1 : http.all plain_byte scheme = true)
    by (revert Hletters; apply all_impl, plain_scheme_byte).
  set (tail := host +:+ String "/" path).
  assert (Htail : http.all plain_byte tail = true).
  { unfold tail. rewrite all_app. cbn [http.all]. by rewrite Hh1, Hp1. }
  set (rest := String "/" (String "/" tail)).
  assert (Hrest : http.all plain_byte rest = true)
    by (unfold rest; cbn [http.all]; by rewrite Htail).
  change (scheme +:+ "://" +:+ host +:+ "/" +:+ path)
    with (scheme +:+ String ":" rest).
  assert (Hraw : http.all plain_byte (scheme +:+ String ":" rest) = true).
  { rewrite all_app. cbn [http.all]. by rewrite Hs1, Hrest. }
  destruct (plain_byte_facts _ Hraw) as (Hctl & Hhash & _).
  destruct (plain_byte_facts _ Hrest) as (_ & _ & Hquest).
  unfold url.Parse. rewrite (Cut_none _ _ Hhash). cbv iota beta.
  unfold url.parse. rewrite Hctl.
  assert (Hstar : String.eqb (scheme +:+ String ":" rest) "*" = false).
  { destruct scheme as [|c scheme]; [discriminate Hne|].
    cbn [http.all] in Hletters. apply andb_true_iff in Hletters as [Hc _].
    rewrite append_cons. cbn [String.eqb].
    destruct c as [[] [] [] [] [] [] [] []]; try discriminate Hc; reflexivity. }
  rewrite Hstar. unfold url.getScheme.
  assert (Hlen : (0 < 0 + String.length scheme)%nat)
    by (destruct scheme; [discriminate Hne | simpl; lia]).
  rewrite (getScheme_from_plain scheme 0 "" rest _ Hletters Hlen).
  change ("" +:+ scheme) with scheme. rewrite (ToLower_plain _ Hletters).
  unfold url.HasSuffix. rewrite (LastCut_none _ _ Hquest), (Cut_none _ _ Hquest).
  cbn [andb]. cbv iota beta. rewrite Hne.
  change (String.prefix "/" rest) with true.
  change (String.prefix "//" rest) with (String.prefix "" tail).
  rewrite prefix_empty. cbn [negb andb orb].
  replace (String.length rest - 2)%nat with (String.length tail)
    by (unfold rest; simpl; lia).
  change (substring 2 (String.length tail) rest)
    with (substring 0 (String.length tail) tail).
  rewrite substring_all. unfold tail at 1.
  rewrite (CutAt_slash _ _ (Hsep "/"%char eq_refl)).
  unfold url.parseAuthority, url.parseHost.
  rewrite (LastCut_none _ _ (Hsep "@"%char eq_refl)).
  rewrite (prefix_byte _ "["%char _ Hh eq_refl).
  assert (Hunhost : url.unescape host url.encodeHost = inr host).
  { apply unescape_plain; [by right|]. revert Hh. apply all_impl.
    intros c Hc. apply andb_true_iff in Hc as [Hc _].
    apply andb_true_iff in Hc as [Hc Hpct].
    apply andb_true_iff in Hc as [_ Hesc]. by rewrite Hesc, Hpct. }
  assert (Hunpath : url.unescape (String "/" path) url.encodePath
                    = inr (String "/" path)
                    /\ url.escape (String "/" path) url.encodePath
                       = String "/" path).
  { apply unescape_plain; [by left|]. cbn [http.all]. exact Hpath. }
  destruct Hunpath as [Hunpath Hescpath].
  assert (Hauth : match url.LastCut host ":" with
                  | Some (_, port) =>
                      if negb (url.validOptionalPort (":" +:+ port))
                      then inl (InvalidPort (":" +:+ port))
                      else url.unescape host url.encodeHost
                  | None => url.unescape host url.encodeHost
                  end = inr host).
  { destruct (url.LastCut host ":") as [[name port]|]; [|exact Hunhost].
    by rewrite Hport. }
  rewrite Hauth. cbv iota beta. rewrite Hunpath, Hescpath, !String.eqb_refl.
  reflexivity.
Qed.

(** A plain URL renders as the string it was parsed from. *)
Lemma String_plain scheme host path :
  plain_scheme scheme = true -> plain_host host = true ->
  plain_path path = true ->
  url.String_ (http.with_Host (plain_URL scheme host path)
                 (http.removeEmptyPort host))
  = scheme +:+ "://" +:+ host +:+ "/" +:+ path.
Proof.
  intros Hscheme Hhost Hpath.
  apply andb_true_iff in Hscheme as [Hne Hletters].
  apply negb_true_iff in Hne.
  destruct (plain_host_bytes host Hhost) as (Hbytes & Hsuffix & _).
  assert (Hremove : http.removeEmptyPort host = host).
  { unfold http.removeEmptyPort, http.TrimSuffix. rewrite Hsuffix.
    by destruct (http.hasPort host). }
  rewrite Hremove.
  assert (Heschost : url.escape host url.encodeHost = host).
  { apply unescape_plain; [by right|]. revert Hbytes. apply all_impl.
    intros c Hc. pose proof (plain_host_byte c Hc) as H.
    apply andb_true_iff in H as [H _]. apply andb_true_iff in H as [H Hpct].
    apply andb_true_iff in H as [_ Hesc]. by rewrite Hesc, Hpct. }
  assert (Hescpath : url.escape (String "/" path) url.encodePath
                     = String "/" path).
  { apply unescape_plain; [by left|]. cbn [http.all]. exact Hpath. }
  unfold url.String_, url.EscapedPath, http.with_Host, plain_URL.
  cbn [url.Scheme url.Opaque url.User url.Host url.Path url.RawPath
       url.OmitHost url.ForceQuery url.RawQuery url.Fragment url.RawFragment].
  rewrite Hne. change ("/" +:+ path) with (String "/" path).
  rewrite Hescpath, Heschost.
  change (bool_decide (is_Some (@None url.Userinfo))) with false.
  change (String "/" path =? "*")%string with false.
  change (String "/" path =? "")%string with false.
  change ("" =? "")%string with true.
  cbn [negb andb orb].
  change (String.prefix "/" (String "/" path)) with (String.prefix "" path).
  rewrite prefix_empty. cbn [negb andb orb].
  replace (if (host =? "")%string then "" else host) with host
    by (destruct (String.eqb_spec host ""); congruence).
  rewrite orb_true_r, andb_false_r. cbn [orb andb].
  rewrite !append_assoc. change ("" +:+ "") with "".
  rewrite append_cons, append_empty. reflexivity.
Qed.

(** ** Helper lemmas: the request builder *)

Lemma newRequest_inv url_Parse c ctx method endpoint body log req log' :
  newRequest url_Parse c ctx method endpoint body log = (inr req, log') ->
  exists payload req0,
    match body with
    | Some v => exists js, json.reflectValue false v = inr js
                           /\ payload = Some (js ++ [x0a])
    | None => payload = None
    end
    /\ http.NewRequestWithContext url_Parse ctx method
         (Address c +:+ "/" +:+ endpoint) payload = inr req0
    /\ http.URL req = http.URL req0
    /\ http.Body req = http.Body req0
    /\ http.Header_ req =
         (if negb (String.eqb (Token c) "")
          then http.Set_ (http.Set_ (http.Set_ (http.Header_ req0)
                 "Accept" "application/json")
                 "Content-Type" "application/json")
                 "X-Auth-Token" (Token c)
          else http.Set_ (http.Set_ (http.Header_ req0)
                 "Accept" "application/json")
                 "Content-Type" "application/json").
Proof.
  unfold newRequest. intros H.
  destruct body as [v|].
  - unfold json.Encode, json.SetEscapeHTML, json.NewEncoder in H. simpl in H.
    destruct (json.reflectValue false v) as [e|js] eqn:Ev; simpl in H;
      [discriminate|].
    destruct (http.NewRequestWithContext _ _ _ _ _) as [e|req0] eqn:En;
      [discriminate|].
    exists (Some (js ++ [x0a])), req0. split; [eauto|]. split; [exact En|].
    inversion H; subst; clear H.
    destruct (negb (String.eqb (Token c) "")); simpl; auto.
  - destruct (http.NewRequestWithContext _ _ _ _ _) as [e|req0] eqn:En;
      [discriminate|].
    exists None, req0. split; [reflexivity|]. split; [exact En|].
    inversion H; subst; clear H.
    destruct (negb (String.eqb (Token c) "")); simpl; auto.
Qed.

Lemma NewRequestWithContext_inv url_Parse ctx method rawURL payload req :
  http.NewRequestWithContext url_Parse ctx method rawURL payload = inr req ->
  (exists u, url_Parse rawURL = inr u
             /\ http.URL req
                = http.with_Host u (http.removeEmptyPort (url.Host u)))
  /\ http.Body req = payload /\ http.Header_ req = ∅.
Proof.
  unfold http.NewRequestWithContext. intros H.
  destruct (negb _); [discriminate|].
  destruct ctx; [|discriminate].
  destruct (url_Parse rawURL) as [e|u]; [discriminate|].
  inversion H; subst; simpl. eauto.
Qed.

(** [newRequest] in terms of the two calls that can fail. *)
Lemma newRequest_cases url_Parse c ctx method endpoint body log :
  let url := Address c +:+ "/" +:+ endpoint in
  let line := "[DEBUG] Creating request for " +:+ url in
  match body with
  | Some v =>
      match json.reflectValue false v with
      | inl err =>
          newRequest url_Parse c ctx method endpoint body log = (inl err, log)
      | inr js =>
          match http.NewRequestWithContext url_Parse ctx method url
                  (Some (js ++ [x0a])) with
          | inl err =>
              newRequest url_Parse c ctx method endpoint body log
              = (inl err, log ++ [line])
          | inr _ =>
              exists req,
                newRequest url_Parse c ctx method endpoint body log
                = (inr req, log ++ [line])
          end
      end
  | None =>
      match http.NewRequestWithContext url_Parse ctx method url None with
      | inl err =>
          newRequest url_Parse c ctx method endpoint body log
          = (inl err, log ++ [line])
      | inr _ =>
          exists req,
            newRequest url_Parse c ctx method endpoint body log
            = (inr req, log ++ [line])
      end
  end.
Proof.
  unfold newRequest, Printf. destruct body as [v|]; cbv zeta.
  - unfold json.Encode, json.SetEscapeHTML, json.NewEncoder; simpl.
    destruct (json.reflectValue false v) as [e|js]; [reflexivity|]. simpl.
    destruct (http.NewRequestWithContext _ _ _ _ _); [reflexivity | eauto].
  - destruct (http.NewRequestWithContext _ _ _ _ _); [reflexivity | eauto].
Qed.

(** ** The request builder *)

(** C2.  In a request built by [newRequest], the header [X-Auth-Token] is
    present if and only if the client's token is not the empty string at
    that time; when present its only value is the token; with an empty token
    the request carries the two content-negotiation headers and nothing
    else. *)
Theorem newRequest_auth_header url_Parse c ctx method endpoint body log req log' :
  newRequest url_Parse c ctx method endpoint body log = (inr req, log') ->
  (is_Some (http.Header_ req !! "X-Auth-Token") <-> Token c <> "")
  /\ (Token c <> "" -> http.Header_ req !! "X-Auth-Token" = Some [Token c])
  /\ (Token c = "" ->
      http.Header_ req =
        <["Content-Type" := ["application/json"]]>
          (<["Accept" := ["application/json"]]> ∅)).
Proof.
  intros H.
  destruct (newRequest_inv _ _ _ _ _ _ _ _ _ H)
    as (payload & req0 & _ & Hn & _ & _ & Hh).
  destruct (NewRequestWithContext_inv _ _ _ _ _ _ Hn) as (_ & _ & H0).
  rewrite H0 in Hh. clear H Hn H0.
  unfold http.Set_ in Hh.
  change (http.CanonicalMIMEHeaderKey "Accept") with "Accept" in Hh.
  change (http.CanonicalMIMEHeaderKey "Content-Type") with "Content-Type" in Hh.
  change (http.CanonicalMIMEHeaderKey "X-Auth-Token") with "X-Auth-Token" in Hh.
  destruct (String.eqb_spec (Token c) "") as [E|E]; simpl in Hh; rewrite Hh.
  - split; [|split].
    + rewrite !lookup_insert_ne by discriminate. rewrite lookup_empty.
      split; [intros [x Hx]; discriminate | intros Hne; contradiction].
    + intros Hne; contradiction.
    + reflexivity.
  - rewrite lookup_insert_eq. split; [|split].
    + split; [intros _; exact E | intros _; eauto].
    + reflexivity.
    + intros Hz; contradiction.
Qed.

Lemma newRequest_auth_header_witness :
  exists req log',
    newRequest url.Parse Sample.authenticated
      (Some context.Background) "GET" "minions/id1" None [] = (inr req, log')
    /\ (is_Some (http.Header_ req !! "X-Auth-Token")
        <-> Token Sample.authenticated <> "")
    /\ (Token Sample.authenticated <> "" ->
        http.Header_ req !! "X-Auth-Token" = Some [Token Sample.authenticated])
    /\ (Token Sample.authenticated = "" ->
        http.Header_ req =
          <["Content-Type" := ["application/json"]]>
            (<["Accept" := ["application/json"]]> ∅)).
Proof.
  eexists _, _. split; [vm_compute; reflexivity|].
  eapply (newRequest_auth_header url.Parse Sample.authenticated
            (Some context.Background) "GET" "minions/id1" None []).
  vm_compute; reflexivity.
Defined.

(** C3, as the code has it.  [newRequest] joins the base address, one
    slash and the endpoint path as they are, prints that string and hands
    it, unchanged, to [http.NewRequestWithContext]; the URL of the request
    that comes back is what [url.Parse] has made of the string, with a
    colon at the end of the host taken away and with nothing else changed
    by [newRequest].  When the base address is a scheme in lower-case
    letters, a host that is a name with or without a port, and nothing more
    or a plain path that begins with a slash, and the endpoint path is
    plain, the URL of the request reads as the string does, slash for
    slash. *)
Theorem newRequest_url c ctx method endpoint body log req log' :
  newRequest url.Parse c ctx method endpoint body log = (inr req, log') ->
  (exists u,
     url.Parse (Address c +:+ "/" +:+ endpoint) = inr u
     /\ http.URL req = http.with_Host u (http.removeEmptyPort (url.Host u)))
  /\ log' = log ++ ["[DEBUG] Creating request for "
                    +:+ Address c +:+ "/" +:+ endpoint]
  /\ (forall scheme host dir,
        Address c = scheme +:+ "://" +:+ host +:+ dir ->
        plain_scheme scheme = true -> plain_host host = true ->
        plain_dir dir = true -> plain_path endpoint = true ->
        url.String_ (http.URL req) = Address c +:+ "/" +:+ endpoint).
Proof.
  intros H.
  destruct (newRequest_inv _ _ _ _ _ _ _ _ _ H)
    as (payload & req0 & Hbody & Hn & Hu & _ & _).
  destruct (NewRequestWithContext_inv _ _ _ _ _ _ Hn) as ((u & Hp & Hu0) & _ & _).
  split; [exists u; split; [exact Hp | congruence]|]. split.
  - pose proof (newRequest_cases url.Parse c ctx method endpoint body log) as Hc.
    cbv beta iota zeta in Hc. destruct body as [v|].
    + destruct Hbody as (js & Hjs & ->).
      rewrite Hjs, Hn in Hc. destruct Hc as [req' Hc]. congruence.
    + subst payload. rewrite Hn in Hc. destruct Hc as [req' Hc]. congruence.
  - intros scheme host dir Ha Hscheme Hhost Hdir Hpath.
    apply andb_true_iff in Hdir as [Hdir Hslash].
    assert (Hform : exists path,
               plain_path path = true
               /\ Address c +:+ "/" +:+ endpoint
                  = scheme +:+ "://" +:+ host +:+ "/" +:+ path).
    { rewrite Ha. destruct dir as [|d dir].
      - exists endpoint. split; [exact Hpath|].
        by rewrite append_empty, !append_assoc.
      - cbn [String.eqb orb String.prefix] in Hslash.
        destruct (ascii_dec "/" d) as [<-|]; [|discriminate Hslash].
        exists (dir +:+ "/" +:+ endpoint). split.
        + unfold plain_path in *. cbn [http.all] in Hdir.
          apply andb_true_iff in Hdir as [_ Hdir].
          rewrite all_app, Hdir. exact Hpath.
        + by rewrite !append_assoc. }
    destruct Hform as (path & Hplain & Hform).
    rewrite Hform in Hp |- *.
    rewrite (Parse_plain scheme host path Hscheme Hhost Hplain) in Hp.
    injection Hp as <-. rewrite Hu, Hu0.
    exact (String_plain scheme host path Hscheme Hhost Hplain).
Qed.

(** Duplicate slashes are kept: in the string, in the path of the parsed
    URL and in the URL as the request renders it. *)
Lemma newRequest_url_witness :
  Address Sample.anonymous = "http" +:+ "://" +:+ "host:8000" +:+ ""
  /\ plain_scheme "http" = true /\ plain_host "host:8000" = true
  /\ plain_dir "" = true /\ plain_path "/minions//id1" = true
  /\ exists req log',
       newRequest url.Parse Sample.anonymous
         (Some context.Background) "GET" "/minions//id1" None [] = (inr req, log')
       /\ url.Path (http.URL req) = "//minions//id1"
       /\ url.String_ (http.URL req) = "http://host:8000//minions//id1"
       /\ url.String_ (http.URL req)
          = Address Sample.anonymous +:+ "/" +:+ "/minions//id1".
Proof.
  split; [reflexivity|]. split; [reflexivity|]. split; [reflexivity|].
  split; [reflexivity|]. split; [reflexivity|].
  eexists _, _. split; [vm_compute; reflexivity|].
  split; [reflexivity|]. split; [reflexivity|].
  refine (proj2 (proj2 (newRequest_url Sample.anonymous
                          (Some context.Background) "GET" "/minions//id1"
                          None [] _ _ _))
            "http" "host:8000" "" _ _ _ _ _);
    [vm_compute; reflexivity | reflexivity..].
Defined.

(** C3 as stated fails: the URL of the request is not the string but what
    [url.Parse] makes of it.  With a space in the endpoint path the request
    is built, and its URL reads [%20] where the string has the space. *)
Lemma newRequest_url_escapes_space :
  exists req log',
    newRequest url.Parse Sample.anonymous
      (Some context.Background) "GET" "minions/a b" None [] = (inr req, log')
    /\ Address Sample.anonymous +:+ "/" +:+ "minions/a b"
       = "http://host:8000/minions/a b"
    /\ url.String_ (http.URL req) = "http://host:8000/minions/a%20b"
    /\ url.String_ (http.URL req)
       <> Address Sample.anonymous +:+ "/" +:+ "minions/a b".
Proof.
  eexists _, _. split; [vm_compute; reflexivity|].
  split; [reflexivity|]. split; [reflexivity | discriminate].
Qed.

(** C9.  For a body that is not nil, the payload of the request built by
    [newRequest] is the JSON text of the value followed by one newline byte,
    and the content length counts that byte. *)
Theorem newRequest_payload_newline url_Parse c ctx method endpoint v log req log' :
  newRequest url_Parse c ctx method endpoint (Some v) log = (inr req, log') ->
  exists js,
    json.reflectValue false v = inr js
    /\ http.Body req = Some (js ++ [x0a])
    /\ last (default [] (http.Body req)) = Some x0a.
Proof.
  intros H.
  destruct (newRequest_inv _ _ _ _ _ _ _ _ _ H)
    as (payload & req0 & (js & Hjs & Hp) & Hn & _ & Hb & _).
  destruct (NewRequestWithContext_inv _ _ _ _ _ _ Hn) as (_ & Hb0 & _).
  exists js. rewrite Hb, Hb0, Hp. simpl. rewrite last_snoc. auto.
Qed.

Lemma newRequest_payload_newline_witness :
  exists req log',
    newRequest url.Parse Sample.anonymous
      (Some context.Background) "POST" "login" (Some Sample.credentials) []
    = (inr req, log')
    /\ exists js, json.reflectValue false Sample.credentials = inr js
                  /\ http.Body req = Some (js ++ [x0a])
                  /\ last (default [] (http.Body req)) = Some x0a.
Proof.
  eexists _, _. split; [vm_compute; reflexivity|].
  eapply (newRequest_payload_newline url.Parse Sample.anonymous
            (Some context.Background) "POST" "login" Sample.credentials []).
  vm_compute; reflexivity.
Defined.

(** ** Helper lemmas: readers, writers and the stream decoder *)

Lemma ReadAll_loop_spec reads : forall b fin,
  io.ReadAll_loop b reads fin
  = (b ++ concat reads, if is_EOF fin then None else Some fin).
Proof.
  induction reads as [|chunk reads IH]; intros b fin; simpl.
  - by rewrite app_nil_r.
  - rewrite IH. by rewrite <- app_assoc.
Qed.

Lemma concat_nil_inv (reads : list (list byte)) :
  concat reads = [] -> Forall (fun chunk => chunk = []) reads.
Proof.
  induction reads as [|chunk reads IH]; simpl; intros H; constructor.
  - by destruct (app_eq_nil _ _ H).
  - apply IH. by destruct (app_eq_nil _ _ H).
Qed.

Lemma readValue_nothing_read reads : forall s seen fin,
  concat reads = [] ->
  json.readValue s seen reads fin = json.readValue s seen [] fin.
Proof.
  induction reads as [|chunk reads IH]; intros s seen fin H; [reflexivity|].
  simpl in H. destruct (app_eq_nil _ _ H) as [-> Hc]. simpl.
  rewrite (IH s seen fin Hc). reflexivity.
Qed.

Lemma Decode_empty {T : Type} (r : io.ReadCloser) (cur : T) unmarshal :
  io.contents r = [] -> io.fin r = EOF ->
  json.Decode (json.NewDecoder r) cur unmarshal
  = (Returns (Some EOF), cur, {| json.r := io.advance r [] |}).
Proof.
  unfold io.contents, json.Decode, json.NewDecoder. simpl. intros Hc Hf.
  rewrite (readValue_nothing_read _ _ _ _ Hc), Hf. reflexivity.
Qed.

(** Whatever the writer does, what it holds after the copy is what it held
    before followed by a prefix of what the source delivers. *)
Lemma copyBuffer_prefix reads : forall dst fin written r dst' rest,
  io.copyBuffer dst reads fin written = (r, dst', rest) ->
  exists k, io.held dst' = io.held dst ++ take k (concat reads).
Proof.
  induction reads as [|chunk reads IH]; intros dst fin written r dst' rest H;
    simpl in H.
  - inversion H; subst. exists 0%nat. by rewrite app_nil_r.
  - destruct (0 <? Z.of_nat (length chunk)) eqn:Hnr.
    + unfold io.Write in H.
      destruct (io.respond dst (io.held dst) chunk) as [n e|p] eqn:Hw.
      * set (d1 := {| io.held := io.held dst ++ take (Z.to_nat n) chunk;
                      io.respond := io.respond dst |}) in *.
        assert (Hstop : exists k, io.held d1
                                  = io.held dst ++ take k (concat (chunk :: reads))).
        { exists (Nat.min (Z.to_nat n) (length chunk)). simpl.
          rewrite take_app_le by lia.
          rewrite <- take_take. rewrite (take_ge chunk (length chunk)) by lia.
          reflexivity. }
        destruct ((n <? 0) || (Z.of_nat (length chunk) <? n)) eqn:Hinv.
        -- inversion H; subst. exact Hstop.
        -- destruct e as [e|]; [inversion H; subst; exact Hstop|].
           destruct (Z.of_nat (length chunk) =? n) eqn:Hfull;
             [|inversion H; subst; exact Hstop].
           apply Z.eqb_eq in Hfull.
           destruct (IH _ _ _ _ _ _ H) as [k Hk].
           exists (length chunk + k)%nat. rewrite Hk. simpl.
           rewrite <- app_assoc. f_equal.
           rewrite take_app_add.
           rewrite take_ge by lia. reflexivity.
      * inversion H; subst. exists 0%nat. by rewrite app_nil_r.
    + apply Z.ltb_ge in Hnr. destruct chunk; [|simpl in Hnr; lia].
      simpl. eauto.
Qed.

(** A writer that takes every slice the copy offers ends up holding all
    the reads, and the copy ends as the reads end. *)
Lemma copyBuffer_accepts reads : forall dst fin written,
  accepts (io.respond dst) (io.held dst) reads ->
  io.copyBuffer dst reads fin written
  = (Returns (written + Z.of_nat (length (concat reads)),
              if is_EOF fin then None else Some fin),
     {| io.held := io.held dst ++ concat reads; io.respond := io.respond dst |},
     []).
Proof.
  induction reads as [|chunk reads IH]; intros dst fin written Hall; simpl.
  - rewrite app_nil_r, Z.add_0_r. by destruct dst.
  - destruct Hall as [Hchunk Hrest].
    destruct (0 <? Z.of_nat (length chunk)) eqn:Hnr.
    + unfold io.Write. rewrite Hchunk by (intros ->; discriminate).
      replace ((Z.of_nat (length chunk) <? 0)
               || (Z.of_nat (length chunk) <? Z.of_nat (length chunk)))
        with false by (symmetry; apply orb_false_iff; split; apply Z.ltb_ge; lia).
      rewrite Z.eqb_refl. rewrite Nat2Z.id, firstn_all.
      rewrite IH by exact Hrest. simpl.
      rewrite <- app_assoc, length_app, Nat2Z.inj_add, Z.add_assoc. reflexivity.
    + apply Z.ltb_ge in Hnr. destruct chunk; [|simpl in Hnr; lia].
      simpl. rewrite app_nil_r in Hrest. by apply IH.
Qed.

(** ** Helper lemmas: the executor *)

Lemma status_failure_test (code : Z) :
  ~ (200 <= code <= 299) -> (code >? 299) || (code <? 200) = true.
Proof.
  intros H. apply orb_true_iff.
  destruct (Z.gtb_spec code 299); [by left|]. right. apply Z.ltb_lt. lia.
Qed.

Lemma status_success_test (code : Z) :
  200 <= code <= 299 -> (code >? 299) || (code <? 200) = false.
Proof.
  intros H. apply orb_false_iff. split.
  - destruct (Z.gtb_spec code 299); [lia|done].
  - apply Z.ltb_ge. lia.
Qed.

Lemma do_failure {T : Type} c req (v : option (Target T)) log resp :
  http.Do (client c) req = inr resp ->
  ~ (200 <= http.StatusCode resp <= 299) ->
  do c req v log
  = {| returned :=
         Returns (None,
                  Some (ErrRequest {| StatusCode := http.StatusCode resp;
                                      Status := http.Status resp;
                                      Body := io.contents (http.RespBody resp) |}));
       target := v;
       body := Some (io.Close (io.advance (http.RespBody resp) []));
       logged := Printf log ("[DEBUG] Received response "
                             +:+ http.Status resp +:+ " from "
                             +:+ url.String_ (http.URL (http.Request_ resp))) |}.
Proof.
  intros Hdo Hst. unfold do. rewrite Hdo, (status_failure_test _ Hst).
  unfold io.ReadAll. rewrite ReadAll_loop_spec. reflexivity.
Qed.

(** The body of [do] after a response has come in, on the success branch. *)
Lemma do_success {T : Type} c req (v : option (Target T)) log resp :
  http.Do (client c) req = inr resp ->
  200 <= http.StatusCode resp <= 299 ->
  do c req v log
  = defer_Close
      (let log := Printf log ("[DEBUG] Received response "
                              +:+ http.Status resp +:+ " from "
                              +:+ url.String_ (http.URL (http.Request_ resp))) in
       match v with
       | Some (Sink w) =>
           let '(copied, w', rbody) := io.Copy w (http.RespBody resp) in
           match copied with
           | Panics p =>
               {| returned := Panics p; target := Some (Sink w');
                  body := Some rbody; logged := log |}
           | Returns _ =>
               {| returned := Returns (Some (http.with_Body resp rbody), None);
                  target := Some (Sink w'); body := Some rbody; logged := log |}
           end
       | Some (Typed cur unmarshal) =>
           let '(decoded, cur', dec) :=
             json.Decode (json.NewDecoder (http.RespBody resp)) cur unmarshal in
           match decoded with
           | Panics p =>
               {| returned := Panics p; target := Some (Typed cur' unmarshal);
                  body := Some (json.r dec); logged := log |}
           | Returns (Some e) =>
               if is_EOF e
               then {| returned := Returns (Some (http.with_Body resp (json.r dec)), None);
                       target := Some (Typed cur' unmarshal);
                       body := Some (json.r dec); logged := log |}
               else {| returned := Returns (None, Some e);
                       target := Some (Typed cur' unmarshal);
                       body := Some (json.r dec); logged := log |}
           | Returns None =>
               {| returned := Returns (Some (http.with_Body resp (json.r dec)), None);
                  target := Some (Typed cur' unmarshal);
                  body := Some (json.r dec); logged := log |}
           end
       | None =>
           {| returned := Returns (Some resp, None); target := None;
              body := Some (http.RespBody resp); logged := log |}
       end).
Proof.
  intros Hdo Hst. unfold do. rewrite Hdo, (status_success_test _ Hst).
  destruct v as [[w|cur um]|]; try reflexivity.
  cbv zeta. destruct (json.Decode _ _ _) as [[[[e|]|p] cur'] dec]; try reflexivity.
  by destruct (is_EOF e).
Qed.

(** ** The request executor *)

(** C1, as the code has it.  For every response that [do] receives: when
    the status code is outside [200, 299], [do] returns a [RequestError] with
    the status code and status text of the response and with the bytes the
    body delivered before it ended or broke off, whatever the read ended
    with, and the decode target is what it was (nothing is decoded, not even
    into a destination whose unmarshalling would store or panic); when the
    status code is within [200, 299], [do] returns no error for a nil target,
    and an error it returns can only be the one the JSON decoder gave for a
    typed destination, and is never [io.EOF]. *)
Theorem do_status_classification {T : Type} c req (v : option (Target T)) log resp :
  http.Do (client c) req = inr resp ->
  (~ (200 <= http.StatusCode resp <= 299) ->
   returned (do c req v log)
   = Returns (None,
              Some (ErrRequest {| StatusCode := http.StatusCode resp;
                                  Status := http.Status resp;
                                  Body := io.contents (http.RespBody resp) |}))
   /\ target (do c req v log) = v)
  /\ (200 <= http.StatusCode resp <= 299 ->
      (v = None -> exists r, returned (do c req v log) = Returns (Some r, None))
      /\ forall r e, returned (do c req v log) = Returns (r, Some e) ->
           e <> EOF
           /\ exists cur unmarshal,
                v = Some (Typed cur unmarshal)
                /\ (json.Decode (json.NewDecoder (http.RespBody resp))
                      cur unmarshal).1.1 = Returns (Some e)).
Proof.
  intros Hdo. split; intros Hst.
  - rewrite (do_failure _ _ _ _ _ Hdo Hst). auto.
  - rewrite (do_success _ _ _ _ _ Hdo Hst). split.
    + intros ->. simpl. eauto.
    + intros r e. destruct v as [[w|cur um]|]; simpl.
      * destruct (io.Copy w (http.RespBody resp)) as [[[x|p] w'] rb];
          simpl; intros; discriminate.
      * destruct (json.Decode _ cur um) as [[[[e'|]|p] cur'] dec] eqn:Hd;
          simpl; try (intros; discriminate).
        destruct (is_EOF e') eqn:He; simpl; [intros; discriminate|].
        intros [= <- <-]. split; [by destruct e'|].
        exists cur, um. by rewrite Hd.
      * intros; discriminate.
Qed.

Lemma do_status_classification_witness :
  http.Do (client Sample.failing) Sample.get_minion = inr Sample.failure
  /\ ~ (200 <= http.StatusCode Sample.failure <= 299)
  /\ returned (do Sample.failing Sample.get_minion (Some Sample.panicking) [])
     = Returns (None,
                Some (ErrRequest
                        {| StatusCode := http.StatusCode Sample.failure;
                           Status := http.Status Sample.failure;
                           Body := io.contents (http.RespBody Sample.failure) |}))
  /\ target (do Sample.failing Sample.get_minion (Some Sample.panicking) [])
     = Some Sample.panicking
  /\ io.contents (http.RespBody Sample.failure) = bytes "internal error: boom".
Proof.
  split; [reflexivity|]. split; [simpl; lia|].
  destruct (proj1 (do_status_classification Sample.failing Sample.get_minion
                     (Some Sample.panicking) [] Sample.failure eq_refl))
    as [Hret Htarget]; [simpl; lia|].
  split; [exact Hret|]. split; [exact Htarget | reflexivity].
Defined.

(** C1 as stated fails: a response with status 200 whose body is not JSON,
    decoded into a typed destination, makes [do] return the syntax error of
    the decoder. *)
Lemma do_success_status_returns_decode_error :
  http.Do (client Sample.misconfigured) Sample.get_minion = inr Sample.page
  /\ 200 <= http.StatusCode Sample.page <= 299
  /\ returned (do Sample.misconfigured Sample.get_minion
                 (Some Sample.raw_message) [])
     = Returns (None, Some (SyntaxError "<" "looking for beginning of value" 1)).
Proof. split; [reflexivity|]. split; [simpl; lia | reflexivity]. Qed.

(** C10.  For a response whose status code is outside [200, 299], [do]
    returns a nil response together with the [RequestError]; whenever [do]
    returns a response, the status code is within [200, 299], the error is
    nil and the response is the one received. *)
Theorem do_response_only_on_success {T : Type} c req (v : option (Target T)) log resp :
  http.Do (client c) req = inr resp ->
  (~ (200 <= http.StatusCode resp <= 299) ->
   exists e, returned (do c req v log) = Returns (None, Some (ErrRequest e)))
  /\ (forall r err,
        returned (do c req v log) = Returns (Some r, err) ->
        200 <= http.StatusCode resp <= 299 /\ err = None
        /\ http.StatusCode r = http.StatusCode resp
        /\ http.Status r = http.Status resp
        /\ http.Request_ r = http.Request_ resp).
Proof.
  intros Hdo. split.
  - intros Hst. rewrite (do_failure _ _ _ _ _ Hdo Hst). simpl. eauto.
  - intros r err.
    destruct (decide (200 <= http.StatusCode resp <= 299)) as [Hst|Hst].
    + rewrite (do_success _ _ _ _ _ Hdo Hst).
      destruct v as [[w|cur um]|]; simpl.
      * destruct (io.Copy w (http.RespBody resp)) as [[[x|p] w'] rb];
          simpl; intros [= <- <-]; auto.
      * destruct (json.Decode _ cur um) as [[[[e'|]|p] cur'] dec];
          simpl; try (intros [= <- <-]; by auto).
        destruct (is_EOF e'); simpl; intros [= <- <-]; auto.
      * intros [= <- <-]; auto.
    + rewrite (do_failure _ _ _ _ _ Hdo Hst). simpl. intros; discriminate.
Qed.

Lemma do_response_only_on_success_witness :
  http.Do (client Sample.failing) Sample.get_minion = inr Sample.failure
  /\ ~ (200 <= http.StatusCode Sample.failure <= 299)
  /\ exists e,
       returned (do Sample.failing Sample.get_minion (Some Sample.raw_message) [])
       = Returns (None, Some (ErrRequest e)).
Proof.
  split; [reflexivity|]. split; [simpl; lia|].
  apply (proj1 (do_response_only_on_success Sample.failing Sample.get_minion
                  (Some Sample.raw_message) [] Sample.failure eq_refl)).
  simpl; lia.
Defined.

(** C5.  For a response with a status code within [200, 299] whose body
    ends at once (no byte before the end of the stream) and a decode target
    that is not nil and not a writer, [do] returns the response and no error,
    and the target is what it was. *)
Theorem do_empty_body {T : Type} c req (cur : T) unmarshal log resp :
  http.Do (client c) req = inr resp ->
  200 <= http.StatusCode resp <= 299 ->
  io.contents (http.RespBody resp) = [] ->
  io.fin (http.RespBody resp) = EOF ->
  (exists r, returned (do c req (Some (Typed cur unmarshal)) log)
             = Returns (Some r, None))
  /\ target (do c req (Some (Typed cur unmarshal)) log)
     = Some (Typed cur unmarshal).
Proof.
  intros Hdo Hst Hc Hf. rewrite (do_success _ _ _ _ _ Hdo Hst).
  cbv zeta. rewrite (Decode_empty _ cur unmarshal Hc Hf). simpl. eauto.
Qed.

Lemma do_empty_body_witness :
  http.Do (client Sample.silent) Sample.get_minion = inr Sample.no_content
  /\ 200 <= http.StatusCode Sample.no_content <= 299
  /\ io.contents (http.RespBody Sample.no_content) = []
  /\ io.fin (http.RespBody Sample.no_content) = EOF
  /\ (exists r, returned (do Sample.silent Sample.get_minion
                            (Some (Typed (bytes "before")
                                     (fun data _ => json.Stored data None))) [])
                = Returns (Some r, None))
  /\ target (do Sample.silent Sample.get_minion
               (Some (Typed (bytes "before")
                        (fun data _ => json.Stored data None))) [])
     = Some (Typed (bytes "before") (fun data _ => json.Stored data None)).
Proof.
  split; [reflexivity|]. split; [simpl; lia|].
  split; [reflexivity|]. split; [reflexivity|].
  apply (do_empty_body Sample.silent Sample.get_minion (bytes "before")
           (fun data _ => json.Stored data None) [] Sample.no_content eq_refl);
    [simpl; lia | reflexivity | reflexivity].
Defined.



(** C6, as the code has it.  For a response with a status code within
    [200, 299] and a target that is a writer, what the writer holds after
    [do] is what it held before followed by a prefix of the bytes the body
    delivers before it ends or breaks off, as they are.  When the writer
    takes in full and without an error every slice this copy offers it,
    that prefix is all the bytes the body delivers; and [do] then returns
    the response and no error when the body ends cleanly. *)
Theorem do_streams_into_sink {T : Type} c req (w : io.Writer) log resp :
  http.Do (client c) req = inr resp ->
  200 <= http.StatusCode resp <= 299 ->
  exists w',
    target (do (T:=T) c req (Some (Sink w)) log) = Some (Sink w')
    /\ (exists k, io.held w'
                  = io.held w ++ take k (io.contents (http.RespBody resp)))
    /\ (accepts (io.respond w) (io.held w) (io.pending (http.RespBody resp)) ->
        io.held w' = io.held w ++ io.contents (http.RespBody resp)
        /\ (io.fin (http.RespBody resp) = EOF ->
            exists r, returned (do (T:=T) c req (Some (Sink w)) log)
                      = Returns (Some r, None))).
Proof.
  intros Hdo Hst. rewrite (do_success _ _ _ _ _ Hdo Hst).
  cbv zeta. unfold io.Copy, io.contents.
  destruct (io.copyBuffer w (io.pending (http.RespBody resp))
              (io.fin (http.RespBody resp)) 0) as [[copied w'] rest] eqn:Hcopy.
  exists w'. split; [by destruct copied|]. split.
  - exact (copyBuffer_prefix _ _ _ _ _ _ _ Hcopy).
  - intros Hall. rewrite (copyBuffer_accepts _ _ _ _ Hall) in Hcopy.
    inversion Hcopy; subst. simpl. eauto.
Qed.

(** A file with room for seven bytes takes the seven bytes of a body that
    comes in two reads. *)
Lemma do_streams_into_sink_witness :
  http.Do (client Sample.streaming) Sample.get_minion = inr Sample.stream
  /\ 200 <= http.StatusCode Sample.stream <= 299
  /\ accepts (io.respond (Sample.file_with_room 7))
             (io.held (Sample.file_with_room 7))
             (io.pending (http.RespBody Sample.stream))
  /\ io.fin (http.RespBody Sample.stream) = EOF
  /\ exists w',
       target (do (T:=unit) Sample.streaming Sample.get_minion
                 (Some (Sink (Sample.file_with_room 7))) []) = Some (Sink w')
       /\ io.held w' = bytes "[1,2,3]"
       /\ exists r,
            returned (do (T:=unit) Sample.streaming Sample.get_minion
                        (Some (Sink (Sample.file_with_room 7))) [])
            = Returns (Some r, None).
Proof.
  split; [reflexivity|]. split; [simpl; lia|].
  assert (Hall : accepts (io.respond (Sample.file_with_room 7))
                   (io.held (Sample.file_with_room 7))
                   (io.pending (http.RespBody Sample.stream)))
    by (simpl; repeat split; intros _; reflexivity).
  split; [exact Hall|]. split; [reflexivity|].
  destruct (do_streams_into_sink (T:=unit) Sample.streaming Sample.get_minion
              (Sample.file_with_room 7) [] Sample.stream eq_refl)
    as (w' & Ht & _ & Hfull); [simpl; lia|].
  exists w'. split; [exact Ht|].
  destruct (Hfull Hall) as [Hheld Hret].
  split; [exact Hheld | exact (Hret eq_refl)].
Defined.

(** C6 as stated fails: a file with room for five bytes receives the first
    five bytes of a body of seven. *)
Lemma do_sink_misses_part_of_body :
  http.Do (client Sample.streaming) Sample.get_minion = inr Sample.stream
  /\ 200 <= http.StatusCode Sample.stream <= 299
  /\ io.contents (http.RespBody Sample.stream) = bytes "[1,2,3]"
  /\ exists w',
       target (do (T:=unit) Sample.streaming Sample.get_minion
                 (Some (Sink (Sample.file_with_room 5))) []) = Some (Sink w')
       /\ io.held w' = bytes "[1,2,"
       /\ io.held w' <> io.contents (http.RespBody Sample.stream).
Proof.
  split; [reflexivity|]. split; [simpl; lia|]. split; [reflexivity|].
  eexists. split; [reflexivity|]. split; [reflexivity | discriminate].
Qed.

(** C7: the code at the failing input.  The body is copied into a file that
    runs out of room: [io.Copy] returns the error of the write, and [do]
    returns the response and a nil error all the same. *)
Lemma do_drops_sink_write_error :
  http.Do (client Sample.streaming) Sample.get_minion = inr Sample.stream
  /\ (io.Copy (Sample.file_with_room 5) (http.RespBody Sample.stream)).1.1
     = Returns (5, Some (errorString "write: no space left on device"))
  /\ exists r,
       returned (do (T:=unit) Sample.streaming Sample.get_minion
                   (Some (Sink (Sample.file_with_room 5))) [])
       = Returns (Some r, None).
Proof.
  split; [reflexivity|]. split; [reflexivity|]. eexists. reflexivity.
Qed.

(** ** Helper lemmas: the string encoder *)

Lemma html_byte_low ch b :
  In ch html_bytes -> (128 <= Byte.to_N b)%N -> b <> ch.
Proof.
  intros [<-|[<-|[<-|[]]]] Hb ->; vm_compute in Hb; by apply Hb.
Qed.

Lemma occ_high ch l :
  In ch html_bytes -> Forall (fun b => (128 <= Byte.to_N b)%N) l -> occ l ch = 0%nat.
Proof.
  intros Hch Hl. apply count_occ_not_In. intros Hin.
  rewrite Forall_forall in Hl.
  apply (html_byte_low ch ch Hch); [|reflexivity].
  apply Hl. by apply list_elem_of_In.
Qed.

Lemma hex_not_html ch n : In ch html_bytes -> json.hex n <> ch.
Proof.
  intros Hch. unfold json.hex.
  destruct (nth_in_or_default (N.to_nat n) (bytes "0123456789abcdef") "0"%byte)
    as [Hin| ->].
  - remember (nth (N.to_nat n) (bytes "0123456789abcdef") "0"%byte) as x.
    clear Heqx. cbv in Hin.
    destruct Hch as [<-|[<-|[<-|[]]]];
      repeat (destruct Hin as [<-|Hin]; [discriminate|]); destruct Hin.
  - destruct Hch as [<-|[<-|[<-|[]]]]; discriminate.
Qed.

(** Without HTML escaping, what the encoder writes for one ASCII byte has as
    many of the three bytes as the byte itself. *)
Lemma occ_escaped_byte ch b :
  In ch html_bytes ->
  occ (if json.htmlSafeSet b || (negb false && json.safeSet b)
       then [b] else json.escapeByte b) ch
  = occ [b] ch.
Proof.
  intros [<-|[<-|[<-|[]]]]; destruct b; vm_compute; reflexivity.
Qed.

Lemma first_Lead n sz lo hi :
  utf8.first n = utf8.Lead sz lo hi -> (128 <= lo)%N.
Proof.
  unfold utf8.first. repeat case_match; intros [= <- <- <-] || discriminate; lia.
Qed.

Lemma outside_false lo hi b :
  utf8.outside lo hi b = false -> (lo <= b)%N.
Proof.
  unfold utf8.outside. intros H. apply orb_false_iff in H as [H _].
  by apply N.ltb_ge.
Qed.

(** The bytes of a rune that does not start with an ASCII byte are all
    above the ASCII range. *)
Lemma DecodeRuneInString_high b rest c size :
  (Byte.to_N b <? utf8.RuneSelf)%N = false ->
  utf8.DecodeRuneInString (b :: rest) = (c, size) ->
  (1 <= size)%nat
  /\ Forall (fun x => (128 <= Byte.to_N x)%N) (take size (b :: rest)).
Proof.
  intros Hb. apply N.ltb_ge in Hb. unfold utf8.RuneSelf in Hb.
  unfold utf8.DecodeRuneInString.
  destruct (utf8.first (Byte.to_N b)) as [| |sz lo hi] eqn:Hf.
  - intros [= <- <-]. split; [lia|]. repeat constructor. lia.
  - intros [= <- <-]. split; [lia|]. repeat constructor. lia.
  - pose proof (first_Lead _ _ _ _ Hf) as Hlo.
    destruct (length (b :: rest) <? sz)%nat;
      [intros [= <- <-]; split; [lia|]; repeat constructor; lia|].
    destruct rest as [|b1 r1];
      [intros [= <- <-]; split; [lia|]; repeat constructor; lia|].
    destruct (utf8.outside lo hi (Byte.to_N b1)) eqn:H1;
      [intros [= <- <-]; split; [lia|]; repeat constructor; lia|].
    apply outside_false in H1.
    destruct (sz <=? 2)%nat;
      [intros [= <- <-]; split; [lia|]; repeat constructor; lia|].
    destruct r1 as [|b2 r2];
      [intros [= <- <-]; split; [lia|]; repeat constructor; lia|].
    destruct (utf8.outside 128 191 (Byte.to_N b2)) eqn:H2;
      [intros [= <- <-]; split; [lia|]; repeat constructor; lia|].
    apply outside_false in H2.
    destruct (sz <=? 3)%nat;
      [intros [= <- <-]; split; [lia|]; repeat constructor; lia|].
    destruct r2 as [|b3 r3];
      [intros [= <- <-]; split; [lia|]; repeat constructor; lia|].
    destruct (utf8.outside 128 191 (Byte.to_N b3)) eqn:H3;
      [intros [= <- <-]; split; [lia|]; repeat constructor; lia|].
    apply outside_false in H3.
    intros [= <- <-]; split; [lia|]; repeat constructor; lia.
Qed.

Lemma occ_string_loop ch src :
  In ch html_bytes ->
  forall skip, occ (json.string_loop false skip src) ch = occ (drop skip src) ch.
Proof.
  intros Hch. induction src as [|b rest IH]; intros skip.
  - by destruct skip.
  - destruct skip as [|k]; [|simpl; apply IH].
    cbn [json.string_loop drop].
    destruct (Byte.to_N b <? utf8.RuneSelf)%N eqn:Hb.
    + rewrite count_occ_app, (occ_escaped_byte ch b Hch), (IH 0%nat), drop_0.
      change (b :: rest) with ([b] ++ rest). by rewrite count_occ_app.
    + destruct (utf8.DecodeRuneInString (b :: rest)) as [c size] eqn:Hd.
      destruct (DecodeRuneInString_high _ _ _ _ Hb Hd) as [Hsz Hhigh].
      pose proof (occ_high ch _ Hch Hhigh) as Hrune.
      assert (Hsplit : occ (b :: rest) ch = occ (drop (size - 1) rest) ch).
      { rewrite <- (take_drop size (b :: rest)) at 1.
        rewrite count_occ_app, Hrune. simpl.
        destruct size as [|n]; [lia|]. simpl. by rewrite Nat.sub_0_r. }
      assert (Hb' : b <> ch).
      { apply html_byte_low; [done|]. apply N.ltb_ge in Hb. exact Hb. }
      destruct ((c =? utf8.RuneError)%N && (size =? 1)%nat) eqn:Herr.
      * apply andb_true_iff in Herr as [_ Hone]. apply Nat.eqb_eq in Hone.
        subst size. rewrite Hsplit.
        change (x5c :: bytes "ufffd" ++ json.string_loop false 0 rest)
          with ((x5c :: bytes "ufffd") ++ json.string_loop false 0 rest).
        rewrite count_occ_app, (IH 0%nat).
        destruct Hch as [<-|[<-|[<-|[]]]]; reflexivity.
      * destruct ((c =? 8232)%N || (c =? 8233)%N).
        -- rewrite Hsplit.
           change (x5c :: bytes "u202" ++ [json.hex (N.land c 15)]
                   ++ json.string_loop false (size - 1) rest)
             with ((x5c :: bytes "u202") ++ [json.hex (N.land c 15)]
                   ++ json.string_loop false (size - 1) rest).
           assert (Hhex : occ [json.hex (N.land c 15)] ch = 0%nat).
           { apply count_occ_not_In. intros [H|[]].
             by apply (hex_not_html ch (N.land c 15) Hch). }
           rewrite !count_occ_app, IH, Hhex.
           destruct Hch as [<-|[<-|[<-|[]]]]; reflexivity.
        -- rewrite count_occ_app, Hrune, IH, Hsplit. reflexivity.
Qed.

Lemma occ_appendString ch s :
  In ch html_bytes -> occ (json.appendString false s) ch = occ s ch.
Proof.
  intros Hch. unfold json.appendString.
  rewrite !count_occ_app, (occ_string_loop ch s Hch 0%nat), drop_0.
  destruct Hch as [<-|[<-|[<-|[]]]]; simpl; lia.
Qed.

(** ** Helper lemmas: the value encoder *)

Lemma value_ind_nested (P : json.value -> Prop) :
  P json.VNull ->
  (forall b, P (json.VBool b)) ->
  (forall i, P (json.VInt i)) ->
  (forall bitSize bits, P (json.VFloat bitSize bits)) ->
  (forall s, P (json.VNumber s)) ->
  (forall s, P (json.VString s)) ->
  (forall s, P (json.VBytes s)) ->
  (forall elems, Forall P elems -> P (json.VSlice elems)) ->
  (forall entries, Forall (fun entry => P entry.2) entries ->
                   P (json.VMap entries)) ->
  (forall fields, Forall (fun field => P field.2) fields ->
                  P (json.VStruct fields)) ->
  (forall x, P x -> P (json.VQuoted x)) ->
  (forall type r, P (json.VMarshaler type r)) ->
  (forall type r, P (json.VTextMarshaler type r)) ->
  (forall kind, P (json.VUnsupported kind)) ->
  forall v, P v.
Proof.
  intros Hnull Hbool Hint Hfloat Hnumber Hstring Hbytes Hslice Hmap Hstruct
    Hquoted Hmarshaler Htext Hunsupported.
  fix IH 1.
  intros [|b|i|bitSize bits|s|s|s|elems|entries|fields|x|type r|type r|kind].
  - exact Hnull.
  - apply Hbool.
  - apply Hint.
  - apply Hfloat.
  - apply Hnumber.
  - apply Hstring.
  - apply Hbytes.
  - apply Hslice.
    induction elems as [|x elems IHl]; constructor; [apply IH | exact IHl].
  - apply Hmap.
    induction entries as [|[key x] entries IHl]; constructor;
      [apply IH | exact IHl].
  - apply Hstruct.
    induction fields as [|[name x] fields IHl]; constructor;
      [apply IH | exact IHl].
  - apply Hquoted, IH.
  - apply Hmarshaler.
  - apply Htext.
  - apply Hunsupported.
Qed.

(** A constant sequence has none of the three bytes. *)
Ltac not_html Hch :=
  repeat constructor; destruct Hch as [<-|[<-|[<-|[]]]]; discriminate.

(** A sequence without the byte has no occurrence of it. *)
Lemma occ_none ch (l : list byte) :
  Forall (fun b => b <> ch) l -> occ l ch = 0%nat.
Proof.
  intros Hl. apply count_occ_not_In. intros Hin.
  rewrite Forall_forall in Hl. by apply (Hl ch); [apply list_elem_of_In|].
Qed.

Lemma digits_not_html ch u :
  In ch html_bytes -> Forall (fun b => b <> ch) (strconv.digits u).
Proof.
  intros Hch. induction u; simpl; constructor; try assumption;
    destruct Hch as [<-|[<-|[<-|[]]]]; discriminate.
Qed.

Lemma occ_digits ch u : In ch html_bytes -> occ (strconv.digits u) ch = 0%nat.
Proof. intros Hch. by apply occ_none, digits_not_html. Qed.

Lemma occ_AppendInt ch i : In ch html_bytes -> occ (strconv.AppendInt i) ch = 0%nat.
Proof.
  intros Hch. unfold strconv.AppendInt. destruct (Z.to_int i) as [u|u].
  - by apply occ_digits.
  - rewrite count_occ_cons_neq;
      [by apply occ_digits | destruct Hch as [<-|[<-|[<-|[]]]]; discriminate].
Qed.

(** *** Floats *)

Lemma trim_not_html ch digs :
  Forall (fun b => b <> ch) digs -> Forall (fun b => b <> ch) (strconv.trim digs).
Proof.
  induction 1 as [|c digs Hc Hdigs IH]; simpl; [constructor|].
  destruct (strconv.trim digs) as [|c' rest].
  - destruct (Byte.eqb c "0"); by repeat constructor.
  - by constructor.
Qed.

Lemma roundShortest_not_html ch flt mant exp :
  In ch html_bytes ->
  Forall (fun b => b <> ch) (strconv.d (strconv.roundShortest flt mant exp)).
Proof.
  intros Hch. unfold strconv.roundShortest.
  destruct (mant =? 0); [constructor|].
  destruct (strconv.shortest _ _ _ _ _ _ _) as [n k]. simpl.
  by apply trim_not_html, digits_not_html.
Qed.

Lemma digit_not_html ch n : In ch html_bytes -> strconv.digit n <> ch.
Proof.
  intros Hch. unfold strconv.digit.
  destruct (nth_in_or_default (Z.to_nat n) (bytes "0123456789") "0"%byte)
    as [Hin| ->].
  - remember (nth (Z.to_nat n) (bytes "0123456789") "0"%byte) as x.
    clear Heqx. cbv in Hin.
    destruct Hch as [<-|[<-|[<-|[]]]];
      repeat (destruct Hin as [<-|Hin]; [discriminate|]); destruct Hin.
  - destruct Hch as [<-|[<-|[<-|[]]]]; discriminate.
Qed.

Lemma nth_not_html ch (l : list byte) j :
  In ch html_bytes -> Forall (fun b => b <> ch) l -> nth j l "0"%byte <> ch.
Proof.
  intros Hch Hl. destruct (nth_in_or_default j l "0"%byte) as [Hin| ->].
  - rewrite Forall_forall in Hl. by apply Hl, list_elem_of_In.
  - destruct Hch as [<-|[<-|[<-|[]]]]; discriminate.
Qed.

Lemma fmtE_not_html ch neg digs prec :
  In ch html_bytes ->
  Forall (fun b => b <> ch) (strconv.d digs) ->
  Forall (fun b => b <> ch) (strconv.fmtE neg digs prec).
Proof.
  intros Hch Hd. unfold strconv.fmtE.
  repeat apply Forall_app_2.
  - destruct neg; not_html Hch.
  - constructor; [|constructor].
    destruct (strconv.d digs) as [|c r]; [|by inversion Hd].
    destruct Hch as [<-|[<-|[<-|[]]]]; discriminate.
  - destruct (0 <? prec); [|constructor].
    repeat apply Forall_app_2.
    + not_html Hch.
    + by apply Forall_take, Forall_drop.
    + apply Forall_replicate. destruct Hch as [<-|[<-|[<-|[]]]]; discriminate.
  - not_html Hch.
  - destruct (_ <? 0); not_html Hch.
  - repeat case_match; repeat constructor;
      try (by apply digit_not_html);
      destruct Hch as [<-|[<-|[<-|[]]]]; discriminate.
Qed.

Lemma fmtF_not_html ch neg digs prec :
  In ch html_bytes ->
  Forall (fun b => b <> ch) (strconv.d digs) ->
  Forall (fun b => b <> ch) (strconv.fmtF neg digs prec).
Proof.
  intros Hch Hd. unfold strconv.fmtF.
  assert (Hz : "0"%byte <> ch)
    by (destruct Hch as [<-|[<-|[<-|[]]]]; discriminate).
  repeat apply Forall_app_2.
  - destruct neg; repeat constructor.
    destruct Hch as [<-|[<-|[<-|[]]]]; discriminate.
  - destruct (0 <? strconv.dp digs).
    + apply Forall_app_2; [by apply Forall_take | by apply Forall_replicate].
    + by repeat constructor.
  - destruct (0 <? prec); [|constructor].
    apply Forall_app_2.
    + repeat constructor. destruct Hch as [<-|[<-|[<-|[]]]]; discriminate.
    + apply Forall_forall. intros b Hb. apply list_elem_of_In, in_map_iff in Hb.
      destruct Hb as (i & <- & _).
      destruct (_ && _); [by apply nth_not_html | exact Hz].
Qed.

Lemma AppendFloat_not_html ch flt bits fmt :
  In ch html_bytes ->
  match strconv.split flt bits with
  | strconv.Finite _ _ _ =>
      Forall (fun b => b <> ch) (strconv.AppendFloat flt bits fmt)
  | _ => True
  end.
Proof.
  intros Hch. unfold strconv.AppendFloat.
  destruct (strconv.split flt bits) as [|neg|neg mant exp]; [done|done|].
  pose proof (roundShortest_not_html ch flt mant exp Hch) as Hd.
  destruct (Byte.eqb fmt "e");
    [by apply fmtE_not_html | by apply fmtF_not_html].
Qed.

Lemma cleanExponent_not_html ch b :
  In ch html_bytes ->
  Forall (fun x => x <> ch) b -> Forall (fun x => x <> ch) (json.cleanExponent b).
Proof.
  intros Hch Hb. unfold json.cleanExponent.
  pose proof (Forall_rev Hb) as Hr.
  destruct (rev b) as [|last [|z [|m [|x front]]]];
    repeat case_match; try exact Hb.
  apply Forall_cons_1 in Hr as [Hlast Hr]. apply Forall_cons_1 in Hr as [_ Hr].
  apply Forall_cons_1 in Hr as [_ Hr]. apply Forall_cons_1 in Hr as [_ Hfront].
  apply Forall_app_2; [by apply Forall_rev|].
  repeat constructor; try exact Hlast;
    destruct Hch as [<-|[<-|[<-|[]]]]; discriminate.
Qed.

(** What the encoder writes for a float has none of the three bytes. *)
Lemma occ_floatEncoder ch bitSize bits js :
  In ch html_bytes ->
  json.floatEncoder bitSize bits = inr js -> occ js ch = 0%nat.
Proof.
  intros Hch H. apply occ_none. revert H. unfold json.floatEncoder.
  destruct bitSize; cbv beta iota zeta;
    match goal with
    | |- context [strconv.split ?flt ?b] =>
        pose proof (AppendFloat_not_html ch flt b "e" Hch) as He;
        pose proof (AppendFloat_not_html ch flt b "f" Hch) as Hf;
        destruct (strconv.split flt b) as [|neg|neg mant exp];
        [discriminate|discriminate|]
    end;
    destruct (negb _ && _); intros [= <-];
    [by apply cleanExponent_not_html | exact Hf
    |by apply cleanExponent_not_html | exact Hf].
Qed.

(** *** Numbers *)

Lemma skipDigits_not_html ch s :
  In ch html_bytes ->
  Forall (fun b => b <> ch) (json.skipDigits s) -> Forall (fun b => b <> ch) s.
Proof.
  intros Hch. induction s as [|c s IH]; [done|]. cbn [json.skipDigits].
  destruct (json.isDigit 48 c) eqn:Hc; [|done].
  intros H. constructor; [|by apply IH].
  intros ->. destruct Hch as [<-|[<-|[<-|[]]]]; discriminate Hc.
Qed.

Lemma fraction_not_html ch s :
  In ch html_bytes ->
  Forall (fun b => b <> ch) (json.fraction s) -> Forall (fun b => b <> ch) s.
Proof.
  intros Hch. unfold json.fraction.
  destruct s as [|c [|d s]]; [done | by destruct c |].
  destruct (json.isDigit 48 d) eqn:Hd; [|by destruct c].
  destruct c; try done. intros H.
  constructor; [destruct Hch as [<-|[<-|[<-|[]]]]; discriminate|].
  constructor; [|by apply (skipDigits_not_html ch)].
  intros ->. destruct Hch as [<-|[<-|[<-|[]]]]; discriminate Hd.
Qed.

Lemma exponent_not_html ch s :
  In ch html_bytes -> json.exponent s = true -> Forall (fun b => b <> ch) s.
Proof.
  intros Hch. unfold json.exponent. destruct s as [|e [|c s]]; [done|done|].
  destruct (Byte.eqb e "e" || Byte.eqb e "E") eqn:He; [|done].
  assert (He' : e <> ch).
  { intros ->. destruct Hch as [<-|[<-|[<-|[]]]]; discriminate He. }
  destruct (Byte.eqb c "+" || Byte.eqb c "-") eqn:Hc.
  - assert (Hc' : c <> ch).
    { intros ->. destruct Hch as [<-|[<-|[<-|[]]]]; discriminate Hc. }
    destruct s as [|d s]; [done|].
    destruct (json.skipDigits (d :: s)) eqn:Hs; [|done]. intros _.
    constructor; [done|]. constructor; [done|].
    apply (skipDigits_not_html ch _ Hch). rewrite Hs. constructor.
  - destruct (json.skipDigits (c :: s)) eqn:Hs; [|done]. intros _.
    constructor; [done|].
    apply (skipDigits_not_html ch _ Hch). rewrite Hs. constructor.
Qed.

Lemma unsigned_not_html ch s :
  In ch html_bytes -> json.unsigned s = true -> Forall (fun b => b <> ch) s.
Proof.
  intros Hch. unfold json.unsigned. destruct s as [|c s]; [done|].
  destruct (Byte.eqb c "0") eqn:H0.
  - intros H. constructor.
    + intros ->. destruct Hch as [<-|[<-|[<-|[]]]]; discriminate H0.
    + by apply (fraction_not_html ch), (exponent_not_html ch).
  - destruct (json.isDigit 49 c) eqn:H1; [|done]. intros H. constructor.
    + intros ->. destruct Hch as [<-|[<-|[<-|[]]]]; discriminate H1.
    + by apply (skipDigits_not_html ch), (fraction_not_html ch),
        (exponent_not_html ch).
Qed.

(** A number has none of the three bytes. *)
Lemma occ_numberEncoder ch s js :
  In ch html_bytes -> json.numberEncoder s = inr js -> occ js ch = 0%nat.
Proof.
  intros Hch. unfold json.numberEncoder.
  destruct (json.isValidNumber _) eqn:Hv; [|discriminate].
  intros [= <-]. apply count_occ_not_In. intros Hin.
  assert (Hall : Forall (fun b => b <> ch) match s with [] => bytes "0" | _ => s end).
  { revert Hv. unfold json.isValidNumber.
    generalize (match s with [] => bytes "0" | _ => s end). intros n.
    destruct n as [|c n]; [done|].
    destruct c; try apply (unsigned_not_html ch _ Hch).
    intros H. constructor;
      [destruct Hch as [<-|[<-|[<-|[]]]]; discriminate
      |by apply (unsigned_not_html ch)]. }
  rewrite Forall_forall in Hall. by apply (Hall ch); [apply list_elem_of_In|].
Qed.

(** *** Byte slices *)

Lemma base64_encode_not_html ch val : In ch html_bytes -> base64.encode val <> ch.
Proof.
  intros Hch. unfold base64.encode.
  destruct (nth_in_or_default (N.to_nat (N.land val 63)) base64.encodeStd "A"%byte)
    as [Hin| ->].
  - remember (nth (N.to_nat (N.land val 63)) base64.encodeStd "A"%byte) as x.
    clear Heqx. cbv in Hin.
    destruct Hch as [<-|[<-|[<-|[]]]];
      repeat (destruct Hin as [<-|Hin]; [discriminate|]); destruct Hin.
  - destruct Hch as [<-|[<-|[<-|[]]]]; discriminate.
Qed.

Lemma base64_Encode_not_html ch :
  In ch html_bytes ->
  forall n src, (length src <= n)%nat ->
                Forall (fun b => b <> ch) (base64.Encode src).
Proof.
  intros Hch. assert (Hpad : "="%byte <> ch)
    by (destruct Hch as [<-|[<-|[<-|[]]]]; discriminate).
  induction n as [|n IH]; intros src Hn.
  - destruct src; [constructor | simpl in Hn; lia].
  - destruct src as [|s0 [|s1 [|s2 src']]]; cbn [base64.Encode].
    + constructor.
    + repeat constructor; try exact Hpad; by apply base64_encode_not_html.
    + repeat constructor; try exact Hpad; by apply base64_encode_not_html.
    + apply Forall_app_2.
      * repeat constructor; by apply base64_encode_not_html.
      * apply IH. simpl in Hn. lia.
Qed.

(** *** Values that marshal themselves *)

(** One step of the scanner: an error stays; a scanner that is in the
    error state only with an error stays so and reports an error only with
    one; and a byte it reports as skipped, with no error, is white
    space. *)
Lemma run_spec s c s' code :
  json.run s c = (s', code) ->
  (json.err s <> None -> json.err s' <> None)
  /\ ((json.step s = json.StepError -> json.err s <> None) ->
      (json.step s' = json.StepError -> json.err s' <> None)
      /\ (code = json.scanError -> json.err s' <> None))
  /\ (code = json.scanSkipSpace \/ code = json.scanEnd ->
      json.err s' = None -> json.isSpace c = true).
Proof.
  destruct s as [st et ps er sc]. unfold json.run. cbn [json.step].
  destruct st;
    cbv [json.stateBeginValueOrEmpty json.stateBeginValue json.stateBeginStringOrEmpty
         json.stateBeginString json.stateEndValue json.stateEndTop json.stateInString
         json.stateInStringEsc json.stateInStringEscHex json.state0 json.state1
         json.stateNeg json.stateDot json.stateDot0 json.stateESign json.stateE
         json.stateE0 json.stateLit json.fail json.goto json.with_parseState
         json.pushParseState json.popParseState
         json.step json.endTop json.parseState json.err json.scanned fst snd tail];
    intros H.
  all: repeat (case_match; simplify_eq/=); simplify_eq/=.
  all: try (repeat split;
            (congruence || (intros; congruence) || (intros ? [?|?]; congruence)
             || (intros [?|?]; congruence) || idtac)).
  all: try (intros _ _; destruct (json.isSpace c); done).
  all: auto.
Qed.

Lemma isSpace_not_html ch c :
  In ch html_bytes -> json.isSpace c = true -> c <> ch.
Proof.
  intros [<-|[<-|[<-|[]]]] Hc ->; discriminate.
Qed.

(** One turn of the loop of [compact] without HTML escaping. *)
Lemma compact_loop_cons src scan dst start i c rest :
  json.compact_loop false src scan dst start i (c :: rest)
  = let '(scan1, v) := json.run scan c in
    match v with
    | json.scanError => (scan1, dst, start)
    | json.scanSkipSpace | json.scanEnd =>
        json.compact_loop false src scan1
          (if (start <? i)%nat then dst ++ json.slice src start i else dst)
          (S i) (S i) rest
    | _ => json.compact_loop false src scan1 dst start (S i) rest
    end.
Proof. destruct rest as [|c1 [|c2 rest]]; reflexivity. Qed.

Lemma compact_loop_err src rest : forall scan dst start i scan' dst' start',
  json.compact_loop false src scan dst start i rest = (scan', dst', start') ->
  json.err scan <> None -> json.err scan' <> None.
Proof.
  induction rest as [|c rest IH]; intros scan dst start i scan' dst' start' H He.
  - simpl in H. by inversion H; subst.
  - rewrite compact_loop_cons in H.
    destruct (json.run scan c) as [scan1 v] eqn:Hrun.
    destruct (run_spec _ _ _ _ Hrun) as (Hkeep & _).
    destruct v; try (by eapply IH; [exact H | auto]).
    inversion H; subst. auto.
Qed.

(** Without HTML escaping, the loop of [compact] leaves out white space
    only, as long as the scanner has met no error. *)
Lemma compact_loop_occ ch src :
  In ch html_bytes ->
  forall rest scan dst start i scan' dst' start',
    rest = drop i src ->
    (start <= i)%nat ->
    (json.step scan = json.StepError -> json.err scan <> None) ->
    json.compact_loop false src scan dst start i rest = (scan', dst', start') ->
    json.err scan' = None ->
    (occ dst' ch + occ (drop start' src) ch
     = occ dst ch + occ (drop start src) ch)%nat.
Proof.
  intros Hch. induction rest as [|c rest IH];
    intros scan dst start i scan' dst' start' Hrest Hle Hg H He.
  - simpl in H. by inversion H; subst.
  - rewrite compact_loop_cons in H.
    destruct (json.run scan c) as [scan1 v] eqn:Hrun.
    destruct (run_spec _ _ _ _ Hrun) as (_ & Hguard & Hspace).
    destruct (Hguard Hg) as [Hg1 Herr].
    assert (Hnext : rest = drop (S i) src).
    { replace (S i) with (i + 1)%nat by lia.
      rewrite <- drop_drop, <- Hrest. reflexivity. }
    assert (Hskip :
      json.compact_loop false src scan1
        (if (start <? i)%nat then dst ++ json.slice src start i else dst)
        (S i) (S i) rest = (scan', dst', start') ->
      json.isSpace c = true ->
      (occ dst' ch + occ (drop start' src) ch
       = occ dst ch + occ (drop start src) ch)%nat).
    { intros H' Hc. rewrite (IH _ _ _ _ _ _ _ Hnext (Nat.le_refl _) Hg1 H' He).
      assert (Hsplit : drop start src
                       = json.slice src start i ++ c :: drop (S i) src).
      { unfold json.slice. rewrite <- Hnext, Hrest.
        replace (drop i src) with (drop (i - start) (drop start src))
          by (rewrite drop_drop; f_equal; lia).
        by rewrite take_drop. }
      rewrite Hsplit, count_occ_app.
      rewrite count_occ_cons_neq by (by apply isSpace_not_html).
      destruct (start <? i)%nat eqn:Hlt.
      - rewrite count_occ_app. lia.
      - apply Nat.ltb_ge in Hlt. assert (start = i) as -> by lia.
        unfold json.slice. rewrite Nat.sub_diag. simpl. lia. }
    assert (Hclean : json.err scan1 = None).
    { destruct (json.err scan1) eqn:E; [|reflexivity].
      destruct v;
        try (exfalso; eapply (compact_loop_err _ _ _ _ _ _ _ _ _ H);
             [by rewrite E | exact He]).
      inversion H; subst. congruence. }
    destruct v;
      try (apply (IH _ _ _ _ _ _ _ Hnext (Nat.le_trans _ _ _ Hle (Nat.le_succ_diag_r i)) Hg1 H He));
      try (apply Hskip; [exact H | apply Hspace; auto]).
    exfalso. by apply Herr.
Qed.

Lemma eof_error scan scan' :
  json.eof scan = (scan', json.scanError) -> json.err scan' <> None.
Proof.
  unfold json.eof. intros H.
  repeat case_match; simplify_eq/=; congruence.
Qed.

Lemma eof_clean scan scan' v :
  json.eof scan = (scan', v) -> v <> json.scanError -> json.err scan = None.
Proof.
  unfold json.eof. intros H Hv.
  destruct (json.err scan); [|reflexivity]. by inversion H; subst.
Qed.

(** Without HTML escaping, [compact] keeps every one of the three
    bytes. *)
Lemma occ_compact ch src out :
  In ch html_bytes ->
  json.compact false src = (out, None) -> occ out ch = occ src ch.
Proof.
  intros Hch. unfold json.compact.
  destruct (json.compact_loop false src json.reset [] 0 0 src)
    as [[scan dst] start] eqn:Hloop.
  destruct (json.eof scan) as [scan' v] eqn:Heof.
  assert (Hmain : v <> json.scanError ->
                  occ (if (start <? length src)%nat
                       then dst ++ drop start src else dst) ch
                  = occ src ch).
  { intros Hv. pose proof (eof_clean _ _ _ Heof Hv) as He.
    pose proof (compact_loop_occ ch src Hch src json.reset [] 0%nat 0%nat
                  scan dst start eq_refl (Nat.le_refl _)
                  ltac:(discriminate) Hloop He) as Hocc.
    rewrite drop_0 in Hocc. simpl in Hocc.
    destruct (start <? length src)%nat eqn:Hlt.
    - rewrite count_occ_app. exact Hocc.
    - apply Nat.ltb_ge in Hlt. rewrite drop_ge in Hocc by exact Hlt.
      simpl in Hocc. lia. }
  destruct v; try (intros [= <-]; apply Hmain; discriminate).
  intros [= <- He]. exfalso. by apply (eof_error _ _ Heof).
Qed.

(** *** Slices and structs *)

Lemma occ_separator ch (i : nat) :
  In ch html_bytes -> occ (if (0 <? i)%nat then bytes "," else []) ch = 0%nat.
Proof.
  intros Hch. destruct (0 <? i)%nat; [|reflexivity].
  destruct Hch as [<-|[<-|[<-|[]]]]; reflexivity.
Qed.

Lemma occ_array ch (encode : json.value -> error + list byte) l :
  In ch html_bytes ->
  Forall (fun x => forall js, encode x = inr js -> occ js ch = occurrences ch x) l ->
  forall i body, json.array encode i l = inr body ->
                 occ body ch = sum_list (map (occurrences ch) l).
Proof.
  intros Hch Hl. induction Hl as [|x l Hx Hl IH]; intros i body H; simpl in H.
  - by inversion H.
  - destruct (encode x) as [e|jx] eqn:Ex; [discriminate|].
    destruct (json.array encode (S i) l) as [e|jl] eqn:El; [discriminate|].
    inversion H; subst; clear H.
    rewrite !count_occ_app, (occ_separator ch i Hch), (Hx jx eq_refl),
      (IH (S i) jl El).
    reflexivity.
Qed.

Opaque json.appendString.

Lemma occ_object ch (encode : json.value -> error + list byte) l :
  In ch html_bytes ->
  Forall (fun field : list byte * json.value =>
            forall js, encode field.2 = inr js ->
                       occ js ch = occurrences ch field.2) l ->
  forall i body, json.object false encode i l = inr body ->
                 occ body ch
                 = sum_list (map (fun field : list byte * json.value =>
                                    (occ field.1 ch + occurrences ch field.2)%nat) l).
Proof.
  intros Hch Hl. induction Hl as [|[name x] l Hx Hl IH]; intros i body H;
    cbn [json.object] in H.
  - by inversion H.
  - simpl in Hx.
    destruct (encode x) as [e|jx] eqn:Ex; [discriminate|].
    destruct (json.object false encode (S i) l) as [e|jl] eqn:El; [discriminate|].
    injection H as <-.
    rewrite !count_occ_app, (occ_separator ch i Hch),
      (occ_appendString ch name Hch).
    rewrite count_occ_cons_neq
      by (destruct Hch as [<-|[<-|[<-|[]]]]; discriminate).
    rewrite count_occ_app, (Hx jx eq_refl), (IH (S i) jl El). simpl. lia.
Qed.

Transparent json.appendString.

(** *** Maps *)

Opaque json.appendString.

(** What the loop over the entries of a map writes. *)
Lemma occ_members ch sv :
  In ch html_bytes ->
  forall i body,
    json.members false i sv = inr body ->
    Forall (fun kv : list byte * (error + list byte) =>
              exists js, kv.2 = inr js) sv
    /\ occ body ch
       = sum_list (map (fun kv : list byte * (error + list byte) =>
                          (occ kv.1 ch
                           + match kv.2 with
                             | inr js => occ js ch
                             | inl _ => 0
                             end)%nat) sv).
Proof.
  intros Hch. induction sv as [|[ks [e|jx]] sv IH]; intros i body H;
    cbn [json.members] in H.
  - inversion H. split; [constructor | reflexivity].
  - discriminate.
  - destruct (json.members false (S i) sv) as [e|jl] eqn:El; [discriminate|].
    injection H as <-. destruct (IH _ _ El) as [Hall Hocc]. split.
    + constructor; [simpl; eauto | exact Hall].
    + rewrite !count_occ_app, (occ_separator ch i Hch),
        (occ_appendString ch ks Hch).
      rewrite count_occ_cons_neq
        by (destruct Hch as [<-|[<-|[<-|[]]]]; discriminate).
      rewrite count_occ_app, Hocc. simpl. lia.
Qed.

Transparent json.appendString.

Lemma occ_mapEncoder ch (encode : json.value -> error + list byte) entries :
  In ch html_bytes ->
  Forall (fun entry : list byte * json.value =>
            forall js, encode entry.2 = inr js ->
                       occ js ch = occurrences ch entry.2) entries ->
  forall body,
    json.mapEncoder false encode entries = inr body ->
    occ body ch
    = sum_list (map (fun entry : list byte * json.value =>
                       (occ entry.1 ch + occurrences ch entry.2)%nat) entries).
Proof.
  intros Hch Hentries body H. unfold json.mapEncoder in H.
  destruct (occ_members ch _ Hch _ _ H) as [Hall ->].
  rewrite (merge_sort_Permutation json.byKey) in Hall.
  rewrite (merge_sort_Permutation json.byKey). clear H.
  induction Hentries as [|[key x] entries Hx Hentries IH]; [reflexivity|].
  cbn [map] in Hall |- *. apply Forall_cons_1 in Hall as [[js Hjs] Hall].
  simpl in Hjs, Hx. cbn [sum_list_with id fst snd]. rewrite Hjs.
  rewrite (Hx js Hjs), (IH Hall). reflexivity.
Qed.

(** Without HTML escaping, the JSON text of a value has each of the three
    bytes exactly as often as the texts of the value have it. *)
Lemma occ_reflectValue ch :
  In ch html_bytes ->
  forall v js, json.reflectValue false v = inr js -> occ js ch = occurrences ch v.
Proof.
  intros Hch v.
  induction v as [|b|i|bitSize bits|s|s|s|elems IH|entries IH|fields IH
                  |x IH|type r|type r|kind]
    using value_ind_nested; intros js H; cbn [json.reflectValue] in H.
  - inversion H; subst. destruct Hch as [<-|[<-|[<-|[]]]]; reflexivity.
  - inversion H; subst. destruct b, Hch as [<-|[<-|[<-|[]]]]; reflexivity.
  - inversion H; subst. by apply occ_AppendInt.
  - by apply (occ_floatEncoder ch bitSize bits).
  - by apply (occ_numberEncoder ch s).
  - inversion H; subst. by apply occ_appendString.
  - injection H as <-. cbn [app].
    rewrite count_occ_cons_neq
      by (destruct Hch as [<-|[<-|[<-|[]]]]; discriminate).
    rewrite count_occ_app, (occ_none ch (base64.Encode s))
      by (by apply (base64_Encode_not_html ch Hch (length s))).
    destruct Hch as [<-|[<-|[<-|[]]]]; reflexivity.
  - destruct (json.array _ 0 elems) as [e|body] eqn:Ea; [discriminate|].
    injection H as <-.
    rewrite count_occ_cons_neq
      by (destruct Hch as [<-|[<-|[<-|[]]]]; discriminate).
    rewrite count_occ_app, (occ_array ch _ elems Hch IH _ _ Ea).
    destruct Hch as [<-|[<-|[<-|[]]]]; simpl; lia.
  - destruct (json.mapEncoder false _ entries) as [e|body] eqn:Em; [discriminate|].
    injection H as <-.
    rewrite count_occ_cons_neq
      by (destruct Hch as [<-|[<-|[<-|[]]]]; discriminate).
    rewrite count_occ_app, (occ_mapEncoder ch _ entries Hch IH _ Em).
    destruct Hch as [<-|[<-|[<-|[]]]]; simpl; lia.
  - destruct (json.object false _ 0 fields) as [e|body] eqn:Eo; [discriminate|].
    injection H as <-.
    rewrite count_occ_cons_neq
      by (destruct Hch as [<-|[<-|[<-|[]]]]; discriminate).
    rewrite count_occ_app, (occ_object ch _ fields Hch IH _ _ Eo).
    destruct Hch as [<-|[<-|[<-|[]]]]; simpl; lia.
  - assert (Hquote : forall b,
               json.reflectValue false x = inr b ->
               occ ([x22] ++ b ++ [x22]) ch = occurrences ch x).
    { intros b Hb. cbn [app].
      rewrite count_occ_cons_neq
        by (destruct Hch as [<-|[<-|[<-|[]]]]; discriminate).
      rewrite count_occ_app, (IH b Hb).
      destruct Hch as [<-|[<-|[<-|[]]]]; simpl; lia. }
    cbn [occurrences].
    destruct x as [|b|i|bitSize bits|s|s|s|elems|entries|fields|x
                   |type r|type r|kind];
      try (by apply IH); cbn [json.reflectValue] in H.
    + injection H as <-. by apply Hquote.
    + injection H as <-. by apply Hquote.
    + destruct (json.floatEncoder bitSize bits) as [e|b] eqn:Hb; [discriminate|].
      injection H as <-. by apply Hquote.
    + destruct (json.numberEncoder s) as [e|b] eqn:Hb; [discriminate|].
      injection H as <-. by apply Hquote.
    + injection H as <-. cbn [occurrences]. by rewrite !occ_appendString.
  - unfold json.marshalerEncoder in H. destruct r as [e|src]; [discriminate|].
    destruct (json.compact false src) as [out [e|]] eqn:Hc; [discriminate|].
    injection H as <-. simpl. by apply occ_compact.
  - unfold json.textMarshalerEncoder in H. destruct r as [e|text]; [discriminate|].
    injection H as <-. simpl. by apply occ_appendString.
  - discriminate.
Qed.

(** The same string under the two settings of the encoder. *)
Example escapeHTML_off_and_on :
  json.reflectValue false (json.VString (bytes "a<b"))
  = inr ([x22] ++ bytes "a<b" ++ [x22])
  /\ json.reflectValue true (json.VString (bytes "a<b"))
     = inr ([x22] ++ bytes "a" ++ [x5c] ++ bytes "u003cb" ++ [x22]).
Proof. split; reflexivity. Qed.

(** C4, as the code has it.  For a body that is not nil, the encoder of
    [newRequest] replaces none of the less-than sign, the greater-than sign
    and the ampersand by an escape sequence: each of the three occurs in the
    payload exactly as often as it occurs in the texts of the value, which
    are its strings, the names of its struct fields, the keys of its maps,
    the text its [MarshalText] methods return and the JSON its [MarshalJSON]
    methods return.  The JSON of a [MarshalJSON] method is counted as it
    is returned: the encoder copies it without its insignificant white
    space and does not undo an escape sequence in it. *)
Theorem newRequest_html_bytes_literal
    url_Parse c ctx method endpoint v log req log' ch :
  In ch html_bytes ->
  newRequest url_Parse c ctx method endpoint (Some v) log = (inr req, log') ->
  exists payload,
    http.Body req = Some payload /\ occ payload ch = occurrences ch v.
Proof.
  intros Hch H.
  destruct (newRequest_inv _ _ _ _ _ _ _ _ _ H)
    as (payload & req0 & (js & Hjs & Hp) & Hn & _ & Hb & _).
  destruct (NewRequestWithContext_inv _ _ _ _ _ _ Hn) as (_ & Hb0 & _).
  exists (js ++ [x0a]). split; [congruence|].
  rewrite count_occ_app, (occ_reflectValue ch Hch v js Hjs).
  destruct Hch as [<-|[<-|[<-|[]]]]; simpl; lia.
Qed.

Lemma newRequest_html_bytes_literal_witness :
  In x3c html_bytes
  /\ occurrences x3c More.job = 2%nat
  /\ exists req log',
       newRequest url.Parse Sample.anonymous (Some context.Background)
         "POST" "run" (Some More.job) [] = (inr req, log')
       /\ http.Body req
          = Some (bytes "{" ++ [x22] ++ bytes "arg" ++ [x22] ++ bytes ":["
                  ++ [x22] ++ bytes "a<b" ++ [x22] ++ bytes "],"
                  ++ [x22] ++ bytes "fun" ++ [x22] ++ bytes ":"
                  ++ [x22] ++ bytes "cmd.run" ++ [x22] ++ bytes ","
                  ++ [x22] ++ bytes "tgt" ++ [x22] ++ bytes ":"
                  ++ [x22] ++ bytes "web<1>&db" ++ [x22] ++ bytes ","
                  ++ [x22] ++ bytes "timeout" ++ [x22] ++ bytes ":1.5}"
                  ++ [x0a])
       /\ exists payload,
            http.Body req = Some payload
            /\ occ payload x3c = occurrences x3c More.job.
Proof.
  split; [by left|]. split; [reflexivity|].
  eexists _, _. split; [vm_compute; reflexivity|]. split; [reflexivity|].
  eapply (newRequest_html_bytes_literal url.Parse Sample.anonymous
            (Some context.Background) "POST" "run" More.job []).
  - by left.
  - vm_compute; reflexivity.
Defined.

(** C4 as stated fails: what a [MarshalJSON] method returns is copied into
    the payload as it is.  A value that marshals itself with [json.Marshal],
    which escapes HTML, holds the string [a<b]; the payload of the request
    has the escape sequence for the less-than sign, and no less-than
    sign. *)
Lemma newRequest_payload_keeps_escape_of_marshaler :
  exists req log',
    newRequest url.Parse Sample.anonymous (Some context.Background)
      "POST" "run" (Some More.self_marshalling) [] = (inr req, log')
    /\ http.Body req
       = Some ([x22] ++ bytes "a" ++ [x5c] ++ bytes "u003cb" ++ [x22; x0a])
    /\ occ (default [] (http.Body req)) x3c = 0%nat.
Proof.
  eexists _, _. split; [vm_compute; reflexivity|]. split; reflexivity.
Qed.

(** * Further properties of the request builder *)

Lemma newRequest_header_map url_Parse c ctx method endpoint body log req log' :
  newRequest url_Parse c ctx method endpoint body log = (inr req, log') ->
  http.Header_ req
  = if String.eqb (Token c) ""
    then <["Content-Type" := ["application/json"]]>
           (<["Accept" := ["application/json"]]> ∅)
    else <["X-Auth-Token" := [Token c]]>
           (<["Content-Type" := ["application/json"]]>
              (<["Accept" := ["application/json"]]> ∅)).
Proof.
  intros H.
  destruct (newRequest_inv _ _ _ _ _ _ _ _ _ H)
    as (payload & req0 & _ & Hn & _ & _ & Hh).
  destruct (NewRequestWithContext_inv _ _ _ _ _ _ Hn) as (_ & _ & H0).
  rewrite Hh, H0. by destruct (String.eqb (Token c) "").
Qed.

Lemma reflectValue_array_total (encode : json.value -> error + list byte) l :
  Forall (fun x =>
            (supported x = true -> exists js, encode x = inr js)
            /\ (supported x = false ->
                exists err, encode x = inl err
                  /\ (marshals x = true ->
                      exists kind, err = UnsupportedTypeError kind))) l ->
  forall i,
    (forallb supported l = true -> exists body, json.array encode i l = inr body)
    /\ (forallb supported l = false ->
        exists err, json.array encode i l = inl err
          /\ (forallb marshals l = true ->
              exists kind, err = UnsupportedTypeError kind)).
Proof.
  induction 1 as [|x l [Hok Hbad] Hl IH]; intros i; simpl.
  - split; [eauto | discriminate].
  - destruct (IH (S i)) as [IHok IHbad]. destruct (supported x); simpl.
    + destruct (Hok eq_refl) as [jx ->]. split.
      * intros Hall. destruct (IHok Hall) as [jl ->]. eauto.
      * intros Hall. destruct (IHbad Hall) as (err & -> & Hkind).
        exists err. split; [reflexivity|].
        intros Hm. apply andb_true_iff in Hm as [_ Hm]. auto.
    + destruct (Hbad eq_refl) as (err & -> & Hkind). split; [discriminate|].
      intros _. exists err. split; [reflexivity|].
      intros Hm. apply andb_true_iff in Hm as [Hm _]. auto.
Qed.

Lemma reflectValue_object_total escapeHTML
    (encode : json.value -> error + list byte) l :
  Forall (fun field : list byte * json.value =>
            (supported field.2 = true -> exists js, encode field.2 = inr js)
            /\ (supported field.2 = false ->
                exists err, encode field.2 = inl err
                  /\ (marshals field.2 = true ->
                      exists kind, err = UnsupportedTypeError kind))) l ->
  forall i,
    (forallb (fun field : list byte * json.value => supported field.2) l = true ->
     exists body, json.object escapeHTML encode i l = inr body)
    /\ (forallb (fun field : list byte * json.value => supported field.2) l = false ->
        exists err,
          json.object escapeHTML encode i l = inl err
          /\ (forallb (fun field : list byte * json.value => marshals field.2) l
              = true ->
              exists kind, err = UnsupportedTypeError kind)).
Proof.
  induction 1 as [|[name x] l [Hok Hbad] Hl IH]; intros i;
    cbn [json.object forallb].
  - split; [eauto | discriminate].
  - simpl in Hok, Hbad. destruct (IH (S i)) as [IHok IHbad].
    cbn [snd]. destruct (supported x); cbn [andb].
    + destruct (Hok eq_refl) as [jx ->]. split.
      * intros Hall. destruct (IHok Hall) as [jl ->]. eauto.
      * intros Hall. destruct (IHbad Hall) as (err & -> & Hkind).
        exists err. split; [reflexivity|].
        intros Hm. apply andb_true_iff in Hm as [_ Hm]. auto.
    + destruct (Hbad eq_refl) as (err & -> & Hkind). split; [discriminate|].
      intros _. exists err. split; [reflexivity|].
      intros Hm. apply andb_true_iff in Hm as [Hm _]. auto.
Qed.

(** The loop over the entries of a map writes them all when every value
    has been encoded, and otherwise returns the error of one of them. *)
Lemma members_cases escapeHTML sv : forall i,
  (Forall (fun kv : list byte * (error + list byte) =>
             exists js, kv.2 = inr js) sv
   /\ exists body, json.members escapeHTML i sv = inr body)
  \/ (exists ks err, In (ks, inl err) sv
                     /\ json.members escapeHTML i sv = inl err).
Proof.
  induction sv as [|[ks [e|jx]] sv IH]; intros i; cbn [json.members].
  - left. split; [constructor | eauto].
  - right. exists ks, e. split; [by left | reflexivity].
  - destruct (IH (S i)) as [[Hall [jl ->]]|(ks' & err & Hin & ->)].
    + left. split; [constructor; [simpl; eauto | exact Hall] | eauto].
    + right. exists ks', err. split; [by right | reflexivity].
Qed.

Lemma reflectValue_map_total escapeHTML
    (encode : json.value -> error + list byte) l :
  Forall (fun entry : list byte * json.value =>
            (supported entry.2 = true -> exists js, encode entry.2 = inr js)
            /\ (supported entry.2 = false ->
                exists err, encode entry.2 = inl err
                  /\ (marshals entry.2 = true ->
                      exists kind, err = UnsupportedTypeError kind))) l ->
  (forallb (fun entry : list byte * json.value => supported entry.2) l = true ->
   exists body, json.mapEncoder escapeHTML encode l = inr body)
  /\ (forallb (fun entry : list byte * json.value => supported entry.2) l = false ->
      exists err,
        json.mapEncoder escapeHTML encode l = inl err
        /\ (forallb (fun entry : list byte * json.value => marshals entry.2) l
            = true ->
            exists kind, err = UnsupportedTypeError kind)).
Proof.
  intros Hl. unfold json.mapEncoder.
  set (sv := map (fun kv : list byte * json.value => (kv.1, encode kv.2)) l).
  rewrite Forall_forall in Hl.
  destruct (members_cases escapeHTML (merge_sort json.byKey sv) 0)
    as [[Hall [body Hb]]|(ks & err & Hin & He)].
  - rewrite Hb. split; [eauto|]. intros Hsome. exfalso.
    rewrite (merge_sort_Permutation json.byKey) in Hall.
    rewrite Forall_forall in Hall.
    apply not_true_iff_false in Hsome. apply Hsome.
    apply forallb_forall. intros entry Hentry.
    destruct (supported entry.2) eqn:Hs; [reflexivity|].
    destruct (proj2 (Hl entry ltac:(by apply list_elem_of_In)) Hs)
      as (err & Herr & _).
    destruct (Hall (entry.1, encode entry.2)) as [js Hjs].
    { apply list_elem_of_In. unfold sv. apply in_map_iff. eauto. }
    simpl in Hjs. congruence.
  - rewrite He.
    apply list_elem_of_In in Hin.
    rewrite (merge_sort_Permutation json.byKey) in Hin.
    apply list_elem_of_In, in_map_iff in Hin.
    destruct Hin as (entry & [= <- Henc] & Hentry).
    assert (Hs : supported entry.2 = false).
    { destruct (supported entry.2) eqn:Hs; [|reflexivity].
      destruct (proj1 (Hl entry ltac:(by apply list_elem_of_In)) Hs) as [js Hjs].
      congruence. }
    split.
    + intros Hall. rewrite forallb_forall in Hall.
      specialize (Hall entry Hentry). simpl in Hall. congruence.
    + intros _. exists err. split; [reflexivity|].
      intros Hm. rewrite forallb_forall in Hm. specialize (Hm entry Hentry).
      destruct (proj2 (Hl entry ltac:(by apply list_elem_of_In)) Hs)
        as (err' & Herr' & Hkind).
      assert (err' = err) as -> by congruence. auto.
Qed.

(** The encoder fails on a value exactly when the value is not
    [supported]; and when nothing in the value fails to marshal, the error
    is the [UnsupportedTypeError] of a part of an unsupported kind. *)
Lemma reflectValue_total v :
  (supported v = true -> exists js, json.reflectValue false v = inr js)
  /\ (supported v = false ->
      exists err, json.reflectValue false v = inl err
        /\ (marshals v = true -> exists kind, err = UnsupportedTypeError kind)).
Proof.
  induction v as [|b|i|bitSize bits|s|s|s|elems IH|entries IH|fields IH
                  |x IH|type r|type r|kind]
    using value_ind_nested;
    cbn [json.reflectValue supported marshals];
    try (split; [eauto | discriminate]).
  - destruct (json.floatEncoder bitSize bits) as [e|js].
    + split; [discriminate|]. intros _. exists e. split; [reflexivity|discriminate].
    + split; [eauto | discriminate].
  - destruct (json.numberEncoder s) as [e|js].
    + split; [discriminate|]. intros _. exists e. split; [reflexivity|discriminate].
    + split; [eauto | discriminate].
  - destruct (reflectValue_array_total _ elems IH 0%nat) as [Hok Hbad]. split.
    + intros Hall. destruct (Hok Hall) as [body ->]. eauto.
    + intros Hall. destruct (Hbad Hall) as (err & -> & Hkind). eauto.
  - destruct (reflectValue_map_total false _ entries IH) as [Hok Hbad]. split.
    + intros Hall. destruct (Hok Hall) as [body ->]. eauto.
    + intros Hall. destruct (Hbad Hall) as (err & -> & Hkind). eauto.
  - destruct (reflectValue_object_total false _ fields IH 0%nat)
      as [Hok Hbad]. split.
    + intros Hall. destruct (Hok Hall) as [body ->]. eauto.
    + intros Hall. destruct (Hbad Hall) as (err & -> & Hkind). eauto.
  - destruct IH as [Hok Hbad].
    destruct x; try (split; [exact Hok | exact Hbad]);
      try (split;
           [intros Hs; destruct (Hok Hs) as [js ->]; eauto
           |intros Hs; destruct (Hbad Hs) as (err & -> & Hkind); eauto]).
    split; [eauto | discriminate].
  - unfold json.marshalerEncoder. destruct r as [e|src].
    + split; [discriminate|]. intros _. eexists. split; [reflexivity|discriminate].
    + destruct (json.compact false src) as [out [e|]]; cbn [snd].
      * split; [intros H; by apply bool_decide_eq_true in H|].
        intros _. eexists. split; [reflexivity|].
        intros H. by apply bool_decide_eq_true in H.
      * split; [eauto|]. intros H. by apply bool_decide_eq_false in H.
  - unfold json.textMarshalerEncoder. destruct r as [e|text].
    + split; [discriminate|]. intros _. eexists. split; [reflexivity|discriminate].
    + split; [eauto | discriminate].
  - split; [discriminate|]. intros _. eauto.
Qed.

Lemma NewRequestWithContext_ok url_Parse ctx method rawURL payload :
  (exists req,
     http.NewRequestWithContext url_Parse ctx method rawURL payload = inr req)
  <-> (http.validMethod (if String.eqb method "" then "GET" else method) = true
       /\ ctx <> None /\ exists u, url_Parse rawURL = inr u).
Proof.
  unfold http.NewRequestWithContext.
  destruct (http.validMethod _); simpl.
  - destruct ctx as [k|].
    + destruct (url_Parse rawURL) as [e|u].
      * split; [intros [? ?]; discriminate | intros (_ & _ & ? & ?); discriminate].
      * split; [eauto | eauto].
    + split; [intros [? ?]; discriminate | intros (_ & ? & _); contradiction].
  - split; [intros [? ?]; discriminate | intros (? & _ & _); discriminate].
Qed.

(** X1.  A client that [NewClient] has just made builds requests without the
    [X-Auth-Token] header, and the URL of such a request is what [url.Parse]
    makes of the address the client was made with, a slash and the
    endpoint. *)
Theorem NewClient_requests_carry_no_token
    url_Parse network address username password backend skipVerify
    ctx method endpoint body log req log' :
  newRequest url_Parse
    (NewClient network address username password backend skipVerify)
    ctx method endpoint body log = (inr req, log') ->
  http.Header_ req !! "X-Auth-Token" = None
  /\ exists u,
       url_Parse (address +:+ "/" +:+ endpoint) = inr u
       /\ http.URL req = http.with_Host u (http.removeEmptyPort (url.Host u)).
Proof.
  intros H. split.
  - rewrite (newRequest_header_map _ _ _ _ _ _ _ _ _ H). simpl.
    by rewrite !lookup_insert_ne.
  - destruct (newRequest_inv _ _ _ _ _ _ _ _ _ H)
      as (payload & req0 & _ & Hn & Hu & _ & _).
    destruct (NewRequestWithContext_inv _ _ _ _ _ _ Hn)
      as ((u & Hp & Hu0) & _ & _).
    exists u. split; [exact Hp | by rewrite Hu, Hu0].
Qed.

Lemma NewClient_requests_carry_no_token_witness :
  exists req log',
    newRequest url.Parse
      (NewClient Sample.unreachable "http://host:8000" "admin" "password" "pam" true)
      (Some context.Background) "GET" "minions/id1" None [] = (inr req, log')
    /\ url.String_ (http.URL req) = "http://host:8000/minions/id1"
    /\ http.Header_ req !! "X-Auth-Token" = None
    /\ exists u,
         url.Parse ("http://host:8000" +:+ "/" +:+ "minions/id1") = inr u
         /\ http.URL req = http.with_Host u (http.removeEmptyPort (url.Host u)).
Proof.
  eexists _, _. split; [vm_compute; reflexivity|]. split; [reflexivity|].
  eapply (NewClient_requests_carry_no_token url.Parse Sample.unreachable
            "http://host:8000" "admin" "password" "pam" true
            (Some context.Background) "GET" "minions/id1" None []).
  vm_compute; reflexivity.
Defined.

(** X2.  Every request [newRequest] builds has [Accept] and [Content-Type]
    set to [application/json], each with that one value, and has no header
    other than these two and [X-Auth-Token]. *)
Theorem newRequest_content_negotiation
    url_Parse c ctx method endpoint body log req log' :
  newRequest url_Parse c ctx method endpoint body log = (inr req, log') ->
  http.Header_ req !! "Accept" = Some ["application/json"]
  /\ http.Header_ req !! "Content-Type" = Some ["application/json"]
  /\ forall key, is_Some (http.Header_ req !! key) ->
                 key = "Accept" \/ key = "Content-Type" \/ key = "X-Auth-Token".
Proof.
  intros H. rewrite (newRequest_header_map _ _ _ _ _ _ _ _ _ H).
  destruct (String.eqb (Token c) ""); (split; [|split]);
    try (by simplify_map_eq).
  - intros key [x Hx].
    destruct (decide (key = "Content-Type")) as [->|?]; [auto|].
    destruct (decide (key = "Accept")) as [->|?]; [auto|].
    by simplify_map_eq.
  - intros key [x Hx].
    destruct (decide (key = "X-Auth-Token")) as [->|?]; [auto|].
    destruct (decide (key = "Content-Type")) as [->|?]; [auto|].
    destruct (decide (key = "Accept")) as [->|?]; [auto|].
    by simplify_map_eq.
Qed.

Lemma newRequest_content_negotiation_witness :
  exists req log',
    newRequest url.Parse Sample.authenticated (Some context.Background)
      "POST" "run" (Some Sample.credentials) [] = (inr req, log')
    /\ http.Header_ req !! "Accept" = Some ["application/json"]
    /\ http.Header_ req !! "Content-Type" = Some ["application/json"]
    /\ forall key, is_Some (http.Header_ req !! key) ->
                   key = "Accept" \/ key = "Content-Type" \/ key = "X-Auth-Token".
Proof.
  eexists _, _. split; [vm_compute; reflexivity|].
  eapply (newRequest_content_negotiation url.Parse Sample.authenticated
            (Some context.Background) "POST" "run" (Some Sample.credentials) []).
  vm_compute; reflexivity.
Defined.



(** X4.  Once the body is encoded (or is nil), [newRequest] prints exactly
    one line, naming the URL, whether or not the request can then be
    built. *)
Theorem newRequest_logs_url url_Parse c ctx method endpoint body log :
  match body with Some v => supported v = true | None => True end ->
  (newRequest url_Parse c ctx method endpoint body log).2
  = log ++ ["[DEBUG] Creating request for " +:+ Address c +:+ "/" +:+ endpoint].
Proof.
  intros Hb.
  pose proof (newRequest_cases url_Parse c ctx method endpoint body log) as H.
  cbv beta iota zeta in H. destruct body as [v|].
  - destruct (proj1 (reflectValue_total v) Hb) as [js Hjs].
    rewrite Hjs in H.
    destruct (http.NewRequestWithContext _ _ _ _ _);
      [by rewrite H | destruct H as [req ->]; reflexivity].
  - destruct (http.NewRequestWithContext _ _ _ _ _);
      [by rewrite H | destruct H as [req ->]; reflexivity].
Qed.

Lemma newRequest_logs_url_witness :
  (newRequest url.Parse Sample.anonymous None "GET" "minions" None
     ["earlier line"]).1
  = inl (errorString "net/http: nil Context")
  /\ (newRequest url.Parse Sample.anonymous None "GET" "minions" None
        ["earlier line"]).2
     = ["earlier line"]
       ++ ["[DEBUG] Creating request for "
           +:+ Address Sample.anonymous +:+ "/" +:+ "minions"].
Proof.
  split; [reflexivity|].
  apply (newRequest_logs_url url.Parse Sample.anonymous None "GET"
           "minions" None ["earlier line"]).
  exact I.
Defined.

(** X5.  A request built by [newRequest] has a payload exactly when the body
    argument is not nil; its content length is the length of the payload,
    zero without one, and never zero with one. *)
Theorem newRequest_payload_presence
    url_Parse c ctx method endpoint body log req log' :
  newRequest url_Parse c ctx method endpoint body log = (inr req, log') ->
  (http.Body req = None <-> body = None)
  /\ http.ContentLength req = Z.of_nat (length (default [] (http.Body req)))
  /\ (body <> None -> 0 < http.ContentLength req).
Proof.
  intros H. unfold newRequest in H.
  destruct body as [v|].
  - unfold json.Encode, json.SetEscapeHTML, json.NewEncoder in H. simpl in H.
    destruct (json.reflectValue false v) as [e|js]; simpl in H; [discriminate|].
    unfold http.NewRequestWithContext in H.
    destruct (negb _); [discriminate|]. destruct ctx; [|discriminate].
    destruct (url_Parse _) as [e|u]; [discriminate|].
    destruct (negb (String.eqb (Token c) "")); inversion H; subst; simpl;
      (split; [split; discriminate|]; split; [reflexivity|];
       intros _; rewrite length_app; simpl; lia).
  - unfold http.NewRequestWithContext in H.
    destruct (negb _); [discriminate|]. destruct ctx; [|discriminate].
    destruct (url_Parse _) as [e|u]; [discriminate|].
    destruct (negb (String.eqb (Token c) "")); inversion H; subst; simpl;
      (split; [split; reflexivity|]; split; [reflexivity|];
       intros Hne; contradiction).
Qed.

Lemma newRequest_payload_presence_witness :
  exists req log',
    newRequest url.Parse Sample.anonymous (Some context.Background)
      "POST" "login" (Some (json.VSlice [])) [] = (inr req, log')
    /\ (http.Body req = None <-> Some (json.VSlice []) = None)
    /\ http.ContentLength req = Z.of_nat (length (default [] (http.Body req)))
    /\ (Some (json.VSlice []) <> None -> 0 < http.ContentLength req).
Proof.
  eexists _, _. split; [vm_compute; reflexivity|].
  eapply (newRequest_payload_presence url.Parse Sample.anonymous
            (Some context.Background) "POST" "login" (Some (json.VSlice [])) []).
  vm_compute; reflexivity.
Defined.

(** X6.  What [newRequest] builds and prints depends on the client only
    through its address and its token: the credentials and the transport of
    the client never reach the request. *)
Theorem newRequest_uses_address_and_token
    url_Parse c1 c2 ctx method endpoint body log :
  Address c1 = Address c2 ->
  Token c1 = Token c2 ->
  newRequest url_Parse c1 ctx method endpoint body log
  = newRequest url_Parse c2 ctx method endpoint body log.
Proof.
  intros Ha Ht. unfold newRequest. by rewrite Ha, Ht.
Qed.

Lemma newRequest_uses_address_and_token_witness :
  Address Sample.anonymous = Address Sample.silent
  /\ Token Sample.anonymous = Token Sample.silent
  /\ eauth_ Sample.anonymous = eauth_ Sample.silent
  /\ newRequest url.Parse Sample.anonymous (Some context.Background)
       "GET" "minions" None []
     = newRequest url.Parse Sample.silent (Some context.Background)
         "GET" "minions" None [].
Proof.
  split; [reflexivity|]. split; [reflexivity|]. split; [reflexivity|].
  apply (newRequest_uses_address_and_token url.Parse Sample.anonymous
           Sample.silent (Some context.Background) "GET" "minions" None []);
    reflexivity.
Defined.

(** X7.  [newRequest] returns a request exactly when the body is nil or
    encodable, the method is empty or made of token bytes, the context is
    not nil and the URL parses. *)
Theorem newRequest_succeeds_iff url_Parse c ctx method endpoint body log :
  (exists req log',
     newRequest url_Parse c ctx method endpoint body log = (inr req, log'))
  <-> (match body with Some v => supported v = true | None => True end
       /\ http.validMethod (if String.eqb method "" then "GET" else method) = true
       /\ ctx <> None
       /\ exists u, url_Parse (Address c +:+ "/" +:+ endpoint) = inr u).
Proof.
  pose proof (newRequest_cases url_Parse c ctx method endpoint body log) as H.
  cbv beta iota zeta in H. destruct body as [v|].
  - destruct (json.reflectValue false v) as [e|js] eqn:Hv.
    + split.
      * intros (req & log' & Hr). rewrite H in Hr. discriminate.
      * intros (Hs & _).
        destruct (proj1 (reflectValue_total v) Hs) as [js Hjs].
        rewrite Hv in Hjs. discriminate.
    + assert (Hs : supported v = true).
      { destruct (supported v) eqn:Hs; [reflexivity|].
        destruct (proj2 (reflectValue_total v) Hs) as (err & Hk & _).
        rewrite Hv in Hk. discriminate. }
      rewrite <- (NewRequestWithContext_ok url_Parse ctx method
                    (Address c +:+ "/" +:+ endpoint) (Some (js ++ [x0a]))).
      destruct (http.NewRequestWithContext _ _ _ _ _) as [e|req0].
      * split; [intros (req & log' & Hr); rewrite H in Hr; discriminate|].
        intros (_ & req & Hr). discriminate.
      * destruct H as [req Hreq]. split; [eauto | eauto].
  - rewrite <- (NewRequestWithContext_ok url_Parse ctx method
                  (Address c +:+ "/" +:+ endpoint) None).
    destruct (http.NewRequestWithContext _ _ _ _ _) as [e|req0].
    + split; [intros (req & log' & Hr); rewrite H in Hr; discriminate|].
      intros (_ & req & Hr). discriminate.
    + destruct H as [req Hreq]. split; [eauto | eauto].
Qed.

(** * Further properties of the request executor *)

Lemma do_transport_failure {T : Type} c req (v : option (Target T)) log err :
  http.Do (client c) req = inl err ->
  do c req v log
  = {| returned := Returns (None, Some err); target := v; body := None;
       logged := log |}.
Proof. intros Hdo. unfold do. by rewrite Hdo. Qed.

Lemma look_app a : forall s seen b,
  json.look s seen (a ++ b)
  = match json.look s seen a with
    | json.NeedMore s' seen' => json.look s' seen' b
    | other => other
    end.
Proof.
  induction a as [|c a IH]; intros s seen b; [reflexivity|].
  cbn [app json.look].
  destruct (json.run (json.count s) c) as [s1 code].
  destruct code; try apply IH; try reflexivity;
    destruct (json.stateEndValue s1 " ") as [s2 code2];
    destruct code2; try apply IH; reflexivity.
Qed.

(** What the stream decoder finds does not depend on how the bytes are
    split into reads. *)
Lemma readValue_concat reads : forall s seen fin,
  (json.readValue s seen reads fin).1
  = (json.readValue s seen [concat reads] fin).1.
Proof.
  induction reads as [|chunk reads IH]; intros s seen fin.
  - reflexivity.
  - cbn [json.readValue concat]. rewrite look_app.
    destruct (json.look s seen chunk) as [value|e|s' seen']; try reflexivity.
    rewrite IH. reflexivity.
Qed.

Lemma Decode_by_contents {T : Type} (r : io.ReadCloser) (cur : T) unmarshal :
  (json.Decode (json.NewDecoder r) cur unmarshal).1
  = match (json.readValue json.reset [] [io.contents r] (io.fin r)).1 with
    | (_, Some e) => (Returns (Some e), cur)
    | (value, None) =>
        match unmarshal value cur with
        | json.Stored cur' e => (Returns e, cur')
        | json.UnmarshalPanics cur' p => (Panics p, cur')
        end
    end.
Proof.
  unfold json.Decode, json.NewDecoder, io.contents. cbn [json.r].
  rewrite <- readValue_concat.
  destruct (json.readValue json.reset [] (io.pending r) (io.fin r))
    as [[value [e|]] rest]; cbn [fst]; [reflexivity|].
  by destruct (unmarshal value cur).
Qed.

Lemma look_spaces ws : forall s seen,
  json.step s = json.BeginValue ->
  Forall (fun b => json.isSpace b = true) ws ->
  exists s',
    json.look s seen ws = json.NeedMore s' (seen ++ ws)
    /\ json.step s' = json.BeginValue
    /\ json.scanned s' = json.scanned s + Z.of_nat (length ws).
Proof.
  induction ws as [|b ws IH]; intros s seen Hs Hws.
  - exists s. rewrite app_nil_r. simpl. split; [reflexivity|]. split; [done|lia].
  - inversion Hws as [|? ? Hb Hws']; subst.
    cbn [json.look]. unfold json.run. cbn [json.count json.step]. rewrite Hs.
    unfold json.stateBeginValue. rewrite Hb.
    destruct (IH (json.count s) (seen ++ [b]) Hs Hws') as (s' & Hl & Hs' & Hn).
    exists s'. rewrite Hl, <- app_assoc. split; [reflexivity|]. split; [done|].
    rewrite Hn. cbn [json.count json.scanned length]. lia.
Qed.

Lemma nonSpace_spaces ws :
  Forall (fun b => json.isSpace b = true) ws -> json.nonSpace ws = false.
Proof.
  unfold json.nonSpace. induction 1 as [|b ws Hb Hws IH]; [reflexivity|].
  simpl. by rewrite Hb, IH.
Qed.

Lemma stateBeginValue_rejects s ch :
  json.isSpace ch = false -> begins_value ch = false ->
  json.stateBeginValue s ch = json.fail s ch "looking for beginning of value".
Proof.
  intros Hsp Hbv. unfold json.stateBeginValue. rewrite Hsp.
  destruct ch; try discriminate Hbv; reflexivity.
Qed.

(** X8.  An error that [do] returns comes without a response and is one of
    three: the error of the round trip, the [RequestError] of a response with
    a status code outside [200, 299], or the error of decoding a response
    with a status code within [200, 299] into a typed destination, which is
    never [io.EOF]. *)
Theorem do_error_taxonomy {T : Type} c req (v : option (Target T)) log r e :
  returned (do c req v log) = Returns (r, Some e) ->
  r = None
  /\ (http.Do (client c) req = inl e
      \/ (exists resp,
            http.Do (client c) req = inr resp
            /\ ~ (200 <= http.StatusCode resp <= 299)
            /\ e = ErrRequest {| StatusCode := http.StatusCode resp;
                                 Status := http.Status resp;
                                 Body := io.contents (http.RespBody resp) |})
      \/ (exists resp cur unmarshal,
            http.Do (client c) req = inr resp
            /\ 200 <= http.StatusCode resp <= 299
            /\ v = Some (Typed cur unmarshal)
            /\ (json.Decode (json.NewDecoder (http.RespBody resp))
                  cur unmarshal).1.1 = Returns (Some e)
            /\ e <> EOF)).
Proof.
  destruct (http.Do (client c) req) as [err|resp] eqn:Hdo.
  - rewrite (do_transport_failure _ _ _ _ _ Hdo). simpl.
    intros [= <- <-]. auto.
  - destruct (decide (200 <= http.StatusCode resp <= 299)) as [Hst|Hst].
    + rewrite (do_success _ _ _ _ _ Hdo Hst).
      destruct v as [[w|cur um]|]; simpl.
      * destruct (io.Copy w (http.RespBody resp)) as [[[x|p] w'] rb];
          simpl; intros; discriminate.
      * destruct (json.Decode _ cur um) as [[[[e'|]|p] cur'] dec] eqn:Hd;
          simpl; try (intros; discriminate).
        destruct (is_EOF e') eqn:He; simpl; [intros; discriminate|].
        intros [= <- <-]. split; [reflexivity|]. right; right.
        exists resp, cur, um. rewrite Hd. simpl.
        split; [reflexivity|]. split; [exact Hst|]. split; [reflexivity|].
        split; [reflexivity|]. by destruct e'.
      * intros; discriminate.
    + rewrite (do_failure _ _ _ _ _ Hdo Hst). simpl.
      intros [= <- <-]. split; [reflexivity|]. right; left. eauto.
Qed.

Lemma do_error_taxonomy_witness :
  returned (do Sample.anonymous Sample.get_minion (Some Sample.raw_message) [])
  = Returns (None,
             Some (URLError "Get" "http://host:8000/minions/id1"
                     (errorString "dial tcp: connection refused")))
  /\ http.Do (client Sample.anonymous) Sample.get_minion
     = inl (URLError "Get" "http://host:8000/minions/id1"
              (errorString "dial tcp: connection refused")).
Proof.
  split; [reflexivity|].
  destruct (do_error_taxonomy Sample.anonymous Sample.get_minion
              (Some Sample.raw_message) [] None
              (URLError "Get" "http://host:8000/minions/id1"
                 (errorString "dial tcp: connection refused")) eq_refl)
    as [_ [H|[(resp & H & _)|(resp & cur & um & H & _)]]];
    [exact H | discriminate H | discriminate H].
Defined.

(** X9.  When [do] returns, it returns a response or an error and never
    both, and never neither. *)
Theorem do_returns_response_xor_error {T : Type} c req (v : option (Target T)) log r e :
  returned (do c req v log) = Returns (r, e) ->
  (is_Some r <-> e = None).
Proof.
  destruct (http.Do (client c) req) as [err|resp] eqn:Hdo.
  - rewrite (do_transport_failure _ _ _ _ _ Hdo). simpl.
    intros [= <- <-]. split; [intros [? ?]; discriminate | discriminate].
  - destruct (decide (200 <= http.StatusCode resp <= 299)) as [Hst|Hst].
    + rewrite (do_success _ _ _ _ _ Hdo Hst).
      destruct v as [[w|cur um]|]; simpl.
      * destruct (io.Copy w (http.RespBody resp)) as [[[x|p] w'] rb];
          simpl; intros [= <- <-]; split; eauto.
      * destruct (json.Decode _ cur um) as [[[[e'|]|p] cur'] dec];
          simpl; try (intros [= <- <-]; split; by eauto).
        destruct (is_EOF e'); simpl; intros [= <- <-];
          [split; eauto|].
        split; [intros [? ?]; discriminate | discriminate].
      * intros [= <- <-]; split; eauto.
    + rewrite (do_failure _ _ _ _ _ Hdo Hst). simpl.
      intros [= <- <-]. split; [intros [? ?]; discriminate | discriminate].
Qed.

Lemma do_returns_response_xor_error_witness :
  exists r,
    returned (do More.blank Sample.get_minion (Some Sample.raw_message) [])
    = Returns (Some r, None)
    /\ (is_Some (Some r) <-> (None : option error) = None).
Proof.
  eexists. split; [reflexivity|].
  eapply (do_returns_response_xor_error More.blank Sample.get_minion
            (Some Sample.raw_message) []).
  reflexivity.
Defined.

(** X10.  [do] prints one line for a response it receives, naming its
    status and the URL of its request, whatever happens next, and prints
    nothing when the round trip fails. *)
Theorem do_logs_once_per_response {T : Type} c req (v : option (Target T)) log :
  logged (do c req v log)
  = match http.Do (client c) req with
    | inl _ => log
    | inr resp => log ++ [received_line resp]
    end.
Proof.
  destruct (http.Do (client c) req) as [err|resp] eqn:Hdo.
  - by rewrite (do_transport_failure _ _ _ _ _ Hdo).
  - destruct (decide (200 <= http.StatusCode resp <= 299)) as [Hst|Hst].
    + rewrite (do_success _ _ _ _ _ Hdo Hst).
      destruct v as [[w|cur um]|]; simpl.
      * by destruct (io.Copy w (http.RespBody resp)) as [[[x|p] w'] rb].
      * destruct (json.Decode _ cur um) as [[[[e'|]|p] cur'] dec];
          try reflexivity.
        by destruct (is_EOF e').
      * reflexivity.
    + by rewrite (do_failure _ _ _ _ _ Hdo Hst).
Qed.

(** X11.  With a nil decode target, [do] returns a response with a status
    code within [200, 299] without reading anything from its body: the body
    is closed with all its bytes still pending. *)
Theorem do_without_target_reads_nothing {T : Type} c req log resp :
  http.Do (client c) req = inr resp ->
  200 <= http.StatusCode resp <= 299 ->
  returned (do (T:=T) c req None log)
  = Returns (Some (http.with_Body resp (io.Close (http.RespBody resp))), None)
  /\ exists b, body (do (T:=T) c req None log) = Some b
               /\ io.pending b = io.pending (http.RespBody resp)
               /\ io.closed b = true.
Proof.
  intros Hdo Hst. rewrite (do_success _ _ _ _ _ Hdo Hst). simpl.
  split; [reflexivity|]. eauto.
Qed.

Lemma do_without_target_reads_nothing_witness :
  http.Do (client Sample.streaming) Sample.get_minion = inr Sample.stream
  /\ 200 <= http.StatusCode Sample.stream <= 299
  /\ exists b, body (do (T:=unit) Sample.streaming Sample.get_minion None [])
               = Some b
               /\ io.pending b = io.pending (http.RespBody Sample.stream)
               /\ io.closed b = true.
Proof.
  split; [reflexivity|]. split; [simpl; lia|].
  apply (proj2 (do_without_target_reads_nothing (T:=unit) Sample.streaming
                  Sample.get_minion [] Sample.stream eq_refl
                  ltac:(simpl; lia))).
Defined.

(** X12.  For a target that is not a writer, what [do] returns and what it
    leaves in the target depend on the body only through its bytes and the
    way it ends, not on how the bytes are split into reads. *)
Theorem do_independent_of_read_boundaries {T : Type}
    c1 c2 req1 req2 (v : option (Target T)) log1 log2 resp1 resp2 :
  http.Do (client c1) req1 = inr resp1 ->
  http.Do (client c2) req2 = inr resp2 ->
  http.StatusCode resp1 = http.StatusCode resp2 ->
  http.Status resp1 = http.Status resp2 ->
  io.contents (http.RespBody resp1) = io.contents (http.RespBody resp2) ->
  io.fin (http.RespBody resp1) = io.fin (http.RespBody resp2) ->
  (forall w, v <> Some (Sink w)) ->
  results (do c1 req1 v log1) = results (do c2 req2 v log2)
  /\ target (do c1 req1 v log1) = target (do c2 req2 v log2).
Proof.
  intros Hdo1 Hdo2 Hcode Htext Hc Hf Hv.
  destruct (decide (200 <= http.StatusCode resp1 <= 299)) as [Hst|Hst].
  - assert (Hst2 : 200 <= http.StatusCode resp2 <= 299) by (by rewrite <- Hcode).
    rewrite (do_success _ _ _ _ _ Hdo1 Hst), (do_success _ _ _ _ _ Hdo2 Hst2).
    destruct v as [[w|cur um]|]; [by destruct (Hv w) | | by split].
    cbv zeta.
    pose proof (Decode_by_contents (http.RespBody resp1) cur um) as H1.
    pose proof (Decode_by_contents (http.RespBody resp2) cur um) as H2.
    rewrite <- Hc, <- Hf, <- H1 in H2.
    destruct (json.Decode (json.NewDecoder (http.RespBody resp1)) cur um)
      as [[d1 t1] dec1].
    destruct (json.Decode (json.NewDecoder (http.RespBody resp2)) cur um)
      as [[d2 t2] dec2].
    simpl in H2. injection H2 as -> ->.
    destruct d1 as [[e|]|p]; [|by split|by split].
    destruct (is_EOF e); by split.
  - assert (Hst2 : ~ (200 <= http.StatusCode resp2 <= 299)) by (by rewrite <- Hcode).
    rewrite (do_failure _ _ _ _ _ Hdo1 Hst), (do_failure _ _ _ _ _ Hdo2 Hst2).
    unfold results. simpl. by rewrite Hcode, Htext, Hc.
Qed.

Lemma do_independent_of_read_boundaries_witness :
  io.pending (http.RespBody Sample.stream)
  <> io.pending (http.RespBody More.whole_response)
  /\ results (do Sample.streaming Sample.get_minion (Some Sample.raw_message) [])
     = results (do More.whole Sample.get_minion (Some Sample.raw_message) [])
  /\ target (do Sample.streaming Sample.get_minion (Some Sample.raw_message) [])
     = target (do More.whole Sample.get_minion (Some Sample.raw_message) []).
Proof.
  split; [discriminate|].
  apply (do_independent_of_read_boundaries Sample.streaming More.whole
           Sample.get_minion Sample.get_minion (Some Sample.raw_message) [] []
           Sample.stream More.whole_response);
    try reflexivity.
  intros w; discriminate.
Defined.

(** X13.  A response with a status code within [200, 299] whose body holds
    nothing but JSON white space (spaces, tabs, carriage returns and line
    feeds, in any number of reads) is treated like one with an empty body:
    for a typed destination [do] returns the response and no error, and the
    destination is what it was. *)
Theorem do_blank_body {T : Type} c req (cur : T) unmarshal log resp :
  http.Do (client c) req = inr resp ->
  200 <= http.StatusCode resp <= 299 ->
  Forall (fun b => json.isSpace b = true) (io.contents (http.RespBody resp)) ->
  io.fin (http.RespBody resp) = EOF ->
  results (do c req (Some (Typed cur unmarshal)) log) = Returns (true, None)
  /\ target (do c req (Some (Typed cur unmarshal)) log)
     = Some (Typed cur unmarshal).
Proof.
  intros Hdo Hst Hws Hf. rewrite (do_success _ _ _ _ _ Hdo Hst). cbv zeta.
  pose proof (Decode_by_contents (http.RespBody resp) cur unmarshal) as Hd.
  rewrite Hf in Hd. cbn [json.readValue] in Hd.
  destruct (look_spaces _ json.reset [] eq_refl Hws) as (s' & Hl & Hs' & _).
  rewrite Hl in Hd. cbn [json.readValue is_EOF] in Hd.
  unfold json.run in Hd. rewrite Hs' in Hd.
  unfold json.stateBeginValue in Hd. cbn [json.isSpace snd fst app] in Hd.
  rewrite (nonSpace_spaces _ Hws) in Hd.
  destruct (json.Decode (json.NewDecoder (http.RespBody resp)) cur unmarshal)
    as [[d t] dec].
  simpl in Hd. injection Hd as -> ->. by split.
Qed.

Lemma do_blank_body_witness :
  http.Do (client More.blank) Sample.get_minion = inr More.blank_response
  /\ io.contents (http.RespBody More.blank_response) <> []
  /\ results (do More.blank Sample.get_minion (Some Sample.panicking) [])
     = Returns (true, None)
  /\ target (do More.blank Sample.get_minion (Some Sample.panicking) [])
     = Some Sample.panicking.
Proof.
  split; [reflexivity|]. split; [discriminate|].
  apply (do_blank_body More.blank Sample.get_minion [] _ [] More.blank_response);
    [reflexivity | simpl; lia | repeat constructor | reflexivity].
Defined.

(** X14.  When the first byte of the body that is not white space cannot
    begin a JSON value, [do] on a response with a status code within
    [200, 299] and a typed destination returns the decoder's syntax error
    for that byte, at its position in the body, and the destination is what
    it was, whatever follows the byte and however the body ends. *)
Theorem do_body_not_json {T : Type} c req (cur : T) unmarshal log resp ws ch rest :
  http.Do (client c) req = inr resp ->
  200 <= http.StatusCode resp <= 299 ->
  io.contents (http.RespBody resp) = ws ++ ch :: rest ->
  Forall (fun b => json.isSpace b = true) ws ->
  json.isSpace ch = false ->
  begins_value ch = false ->
  returned (do c req (Some (Typed cur unmarshal)) log)
  = Returns (None,
             Some (SyntaxError ch "looking for beginning of value"
                     (Z.of_nat (length ws) + 1)))
  /\ target (do c req (Some (Typed cur unmarshal)) log)
     = Some (Typed cur unmarshal).
Proof.
  intros Hdo Hst Hc Hws Hsp Hbv. rewrite (do_success _ _ _ _ _ Hdo Hst). cbv zeta.
  pose proof (Decode_by_contents (http.RespBody resp) cur unmarshal) as Hd.
  rewrite Hc in Hd. cbn [json.readValue] in Hd. rewrite look_app in Hd.
  destruct (look_spaces _ json.reset [] eq_refl Hws) as (s' & Hl & Hs' & Hn).
  rewrite Hl in Hd. cbn [json.look] in Hd.
  unfold json.run in Hd. cbn [json.count json.step] in Hd. rewrite Hs' in Hd.
  rewrite (stateBeginValue_rejects _ ch Hsp Hbv) in Hd.
  cbn [json.fail json.err json.count json.scanned fst snd] in Hd.
  rewrite Hn in Hd. cbn [json.reset json.scanned] in Hd.
  destruct (json.Decode (json.NewDecoder (http.RespBody resp)) cur unmarshal)
    as [[d t] dec].
  simpl in Hd. injection Hd as -> ->. simpl. by split.
Qed.

Lemma do_body_not_json_witness :
  http.Do (client Sample.misconfigured) Sample.get_minion = inr Sample.page
  /\ io.contents (http.RespBody Sample.page) = [] ++ "<"%byte :: bytes "html>"
  /\ returned (do Sample.misconfigured Sample.get_minion
                 (Some Sample.panicking) [])
     = Returns (None,
                Some (SyntaxError "<" "looking for beginning of value"
                        (Z.of_nat (length (@nil byte)) + 1)))
  /\ target (do Sample.misconfigured Sample.get_minion (Some Sample.panicking) [])
     = Some Sample.panicking.
Proof.
  split; [reflexivity|]. split; [reflexivity|].
  apply (do_body_not_json Sample.misconfigured Sample.get_minion [] _ []
           Sample.page [] "<"%byte (bytes "html>"));
    [reflexivity | simpl; lia | reflexivity | constructor
     | reflexivity | reflexivity].
Defined.

(** X16.  The message of the error [do] returns for a response with a status
    code outside [200, 299] is [HTTP request failed: ] followed by the status
    text of the response. *)
Theorem do_failure_message {T : Type} c req (v : option (Target T)) log resp :
  http.Do (client c) req = inr resp ->
  ~ (200 <= http.StatusCode resp <= 299) ->
  exists e,
    returned (do c req v log) = Returns (None, Some (ErrRequest e))
    /\ Error e = "HTTP request failed: " +:+ http.Status resp.
Proof.
  intros Hdo Hst. rewrite (do_failure _ _ _ _ _ Hdo Hst). simpl. eauto.
Qed.

Lemma do_failure_message_witness :
  http.Do (client Sample.failing) Sample.get_minion = inr Sample.failure
  /\ ~ (200 <= http.StatusCode Sample.failure <= 299)
  /\ exists e,
       returned (do Sample.failing Sample.get_minion (Some Sample.raw_message) [])
       = Returns (None, Some (ErrRequest e))
       /\ Error e = "HTTP request failed: " +:+ http.Status Sample.failure.
Proof.
  split; [reflexivity|]. split; [simpl; lia|].
  apply (do_failure_message Sample.failing Sample.get_minion
           (Some Sample.raw_message) [] Sample.failure eq_refl).
  simpl; lia.
Defined.
